(** * The syntax table of GNU m4 (m4/syntax.c)

    A shallow embedding of the syntax-classification core: the per-byte
    category table, the four changesyntax verbs, the quote and comment
    installers, the derived single-quote / single-comment / macro-escape
    flags, and the quote age with its cache.

    Conventions of the embedding:
    - a C [int], [unsigned short], [unsigned int] or [char] is a [Z]; the
      conversions to the unsigned types are written out ([to_uchar],
      [to_ushort], [to_uint]);
    - a C string is the list of its bytes up to, not including, the
      terminating NUL; a possibly null [const char *] is an [option];
    - the two arrays of 256 [unsigned short] are lists updated by index;
    - a failed [assert] aborts the program: a function that can reach one
      returns an [option], [None] standing for the abort. *)

From Stdlib Require Import ZArith List Bool Lia Ascii.
From stdpp Require Import base option list.
Import ListNotations.

#[local] Open Scope Z_scope.

(** ** The error monad of assertions *)

Notation "'let?' x := e 'in' k" :=
  (match e with Some x => k | None => None end)
  (at level 10, x pattern, e at level 200, k at level 200).

Definition assert (b : bool) : option unit := if b then Some tt else None.

(** A C integer used as a condition. *)
Definition truthy (x : Z) : bool := negb (x =? 0).

(** ** Machine integers and characters *)

Definition to_uchar (c : Z) : Z := c mod 256.
Definition to_ushort (x : Z) : Z := x mod 65536.
Definition to_uint (x : Z) : Z := x mod 4294967296.

Definition UCHAR_MAX : Z := 255.

(** The code of a character literal. *)
Definition chr (a : ascii) : Z := Z.of_N (N_of_ascii a).

Definition NUL : Z := 0.
Definition NL : Z := 10.

(** [*p] for a C string [p]: its first byte, or the terminator. *)
Definition deref (p : list Z) : Z :=
  match p with
  | [] => NUL
  | c :: _ => c
  end.

(** [*p = v] for a C string [p]. *)
Definition poke (p : list Z) (v : Z) : list Z :=
  match p with
  | [] => [v]
  | _ :: rest => v :: rest
  end.

Definition strlen (p : list Z) : Z := Z.of_nat (length p).

Definition streq (p q : list Z) : bool := bool_decide (p = q).

(** The character classes of <ctype.h>, in the C locale. *)
Definition isspace (ch : Z) : bool :=
  (ch =? 32) || ((9 <=? ch) && (ch <=? 13)).
Definition isalpha (ch : Z) : bool :=
  ((65 <=? ch) && (ch <=? 90)) || ((97 <=? ch) && (ch <=? 122)).
Definition isdigit (ch : Z) : bool :=
  (48 <=? ch) && (ch <=? 57).

(** ** Category codes *)

(** Modelled from the spec: the [M4_SYNTAX_*] constants and the
    [M4_SYNTAX_MASKS] macro are declared in a header that is not among the
    sources.  Section 3 of the specification fixes their shape: the basis
    categories are mutually exclusive codes in the low bits of an entry,
    [RQUOTE] and [ECOMM] are bit flags ORed onto the basis, and a query
    ANDs the entry with the requested bits; [syntax.c] ORs basis codes
    together in such queries, so every basis code is a bit of its own.
    The values are the ones of GNU m4's header, in its order of parsing
    precedence, [IGNORE] being the code without a bit. *)
Definition M4_SYNTAX_IGNORE : Z := 0.
Definition M4_SYNTAX_ESCAPE : Z := 0x0001.
Definition M4_SYNTAX_ALPHA  : Z := 0x0002.
Definition M4_SYNTAX_LQUOTE : Z := 0x0004.
Definition M4_SYNTAX_BCOMM  : Z := 0x0008.
Definition M4_SYNTAX_OTHER  : Z := 0x0010.
Definition M4_SYNTAX_NUM    : Z := 0x0020.
Definition M4_SYNTAX_DOLLAR : Z := 0x0040.
Definition M4_SYNTAX_LBRACE : Z := 0x0080.
Definition M4_SYNTAX_RBRACE : Z := 0x0100.
Definition M4_SYNTAX_SPACE  : Z := 0x0200.
Definition M4_SYNTAX_ACTIVE : Z := 0x0400.
Definition M4_SYNTAX_OPEN   : Z := 0x0800.
Definition M4_SYNTAX_CLOSE  : Z := 0x1000.
Definition M4_SYNTAX_COMMA  : Z := 0x2000.
Definition M4_SYNTAX_RQUOTE : Z := 0x4000.
Definition M4_SYNTAX_ECOMM  : Z := 0x8000.

Definition M4_SYNTAX_MASKS : Z := Z.lor M4_SYNTAX_RQUOTE M4_SYNTAX_ECOMM.

(** Modelled from the spec: the default delimiters [DEF_LQUOTE],
    [DEF_RQUOTE], [DEF_BCOMM] and [DEF_ECOMM] of the same header
    (a backtick, an apostrophe, a hash sign and a newline). *)
Definition DEF_LQUOTE : list Z := [chr "`"].
Definition DEF_RQUOTE : list Z := [chr "'"].
Definition DEF_BCOMM  : list Z := [chr "#"].
Definition DEF_ECOMM  : list Z := [NL].

(** ** The syntax table *)

Record m4_string_pair := mk_pair {
  str1 : list Z;
  len1 : Z;
  str2 : list Z;
  len2 : Z
}.

(** Where the strings of [cached_simple] point. *)
Inductive cache_ref := RefNull | RefCachedLquote | RefCachedRquote.

Record simple_pair := mk_simple {
  sp_str1 : cache_ref;
  sp_len1 : Z;
  sp_str2 : cache_ref;
  sp_len2 : Z
}.

(** Modelled from the spec: [struct m4_syntax_table] is declared in a
    header that is not among the sources; the fields are the ones
    [syntax.c] reads and writes (section 2 of the specification lists
    them). *)
Record m4_syntax_table := mk_syntax {
  table : list Z;
  orig : list Z;
  quote : m4_string_pair;
  comm : m4_string_pair;
  cached_quote : option m4_string_pair;
  cached_lquote : Z;
  cached_rquote : Z;
  cached_simple : simple_pair;
  is_single_quotes : bool;
  is_single_comments : bool;
  is_macro_escaped : bool;
  syntax_age : Z;
  quote_age : Z
}.

Definition set_table (s : m4_syntax_table) (t : list Z) : m4_syntax_table :=
  mk_syntax t (orig s) (quote s) (comm s) (cached_quote s) (cached_lquote s)
    (cached_rquote s) (cached_simple s) (is_single_quotes s)
    (is_single_comments s) (is_macro_escaped s) (syntax_age s) (quote_age s).

Definition set_orig (s : m4_syntax_table) (t : list Z) : m4_syntax_table :=
  mk_syntax (table s) t (quote s) (comm s) (cached_quote s) (cached_lquote s)
    (cached_rquote s) (cached_simple s) (is_single_quotes s)
    (is_single_comments s) (is_macro_escaped s) (syntax_age s) (quote_age s).

Definition set_quote (s : m4_syntax_table) (p : m4_string_pair) : m4_syntax_table :=
  mk_syntax (table s) (orig s) p (comm s) (cached_quote s) (cached_lquote s)
    (cached_rquote s) (cached_simple s) (is_single_quotes s)
    (is_single_comments s) (is_macro_escaped s) (syntax_age s) (quote_age s).

Definition set_comm (s : m4_syntax_table) (p : m4_string_pair) : m4_syntax_table :=
  mk_syntax (table s) (orig s) (quote s) p (cached_quote s) (cached_lquote s)
    (cached_rquote s) (cached_simple s) (is_single_quotes s)
    (is_single_comments s) (is_macro_escaped s) (syntax_age s) (quote_age s).

Definition set_cached_quote (s : m4_syntax_table) (c : option m4_string_pair)
  : m4_syntax_table :=
  mk_syntax (table s) (orig s) (quote s) (comm s) c (cached_lquote s)
    (cached_rquote s) (cached_simple s) (is_single_quotes s)
    (is_single_comments s) (is_macro_escaped s) (syntax_age s) (quote_age s).

Definition set_cached_bytes (s : m4_syntax_table) (l r : Z) : m4_syntax_table :=
  mk_syntax (table s) (orig s) (quote s) (comm s) (cached_quote s) l r
    (cached_simple s) (is_single_quotes s)
    (is_single_comments s) (is_macro_escaped s) (syntax_age s) (quote_age s).

Definition set_cached_simple (s : m4_syntax_table) (p : simple_pair)
  : m4_syntax_table :=
  mk_syntax (table s) (orig s) (quote s) (comm s) (cached_quote s)
    (cached_lquote s) (cached_rquote s) p (is_single_quotes s)
    (is_single_comments s) (is_macro_escaped s) (syntax_age s) (quote_age s).

Definition set_is_single_quotes (s : m4_syntax_table) (b : bool) : m4_syntax_table :=
  mk_syntax (table s) (orig s) (quote s) (comm s) (cached_quote s)
    (cached_lquote s) (cached_rquote s) (cached_simple s) b
    (is_single_comments s) (is_macro_escaped s) (syntax_age s) (quote_age s).

Definition set_is_single_comments (s : m4_syntax_table) (b : bool) : m4_syntax_table :=
  mk_syntax (table s) (orig s) (quote s) (comm s) (cached_quote s)
    (cached_lquote s) (cached_rquote s) (cached_simple s) (is_single_quotes s)
    b (is_macro_escaped s) (syntax_age s) (quote_age s).

Definition set_is_macro_escaped (s : m4_syntax_table) (b : bool) : m4_syntax_table :=
  mk_syntax (table s) (orig s) (quote s) (comm s) (cached_quote s)
    (cached_lquote s) (cached_rquote s) (cached_simple s) (is_single_quotes s)
    (is_single_comments s) b (syntax_age s) (quote_age s).

Definition set_syntax_age (s : m4_syntax_table) (a : Z) : m4_syntax_table :=
  mk_syntax (table s) (orig s) (quote s) (comm s) (cached_quote s)
    (cached_lquote s) (cached_rquote s) (cached_simple s) (is_single_quotes s)
    (is_single_comments s) (is_macro_escaped s) a (quote_age s).

Definition set_quote_age_field (s : m4_syntax_table) (a : Z) : m4_syntax_table :=
  mk_syntax (table s) (orig s) (quote s) (comm s) (cached_quote s)
    (cached_lquote s) (cached_rquote s) (cached_simple s) (is_single_quotes s)
    (is_single_comments s) (is_macro_escaped s) (syntax_age s) a.

(** [a[ch]] and [a[ch] = v] on an array of 256 entries.  Every index the
    source uses is a byte (the loop variable of a sweep, or a character
    through [to_uchar]), so no access is out of range; there a read gives
    0 and a write does nothing. *)
Definition entry (a : list Z) (ch : Z) : Z := default 0 (a !! Z.to_nat ch).
Definition store (a : list Z) (ch : Z) (v : Z) : list Z := <[Z.to_nat ch := v]> a.

(** Modelled from the spec: the query macros [m4_syntab] and
    [m4_has_syntax] of the absent header ("has_category: true if the entry
    bitwise-ANDs with the requested bits"); the character is taken as a
    byte. *)
Definition m4_syntab (s : m4_syntax_table) (ch : Z) : Z :=
  entry (table s) (to_uchar ch).
Definition m4_has_syntax (s : m4_syntax_table) (ch : Z) (bits : Z) : bool :=
  0 <? Z.land (m4_syntab s ch) bits.

(** Modelled from the spec: the macro [m4__quote_uncache] of the absent
    header ("invalidate the cached quote copy"). *)
Definition m4__quote_uncache (s : m4_syntax_table) : m4_syntax_table :=
  set_cached_quote s None.

(** [for (ch = UCHAR_MAX + 1; --ch >= 0; ) body], [n] being the number of
    characters still to visit: the loop runs from 255 down to 0. *)
Fixpoint for_each_char (n : nat)
    (body : Z -> m4_syntax_table -> option m4_syntax_table)
    (s : m4_syntax_table) : option m4_syntax_table :=
  match n with
  | O => Some s
  | S k => let? s' := body (Z.of_nat k) s in for_each_char k body s'
  end.

Definition all_chars : nat := Z.to_nat (UCHAR_MAX + 1).

(** ** Attribute primitives *)

(** [add_syntax_attribute] and [remove_syntax_attribute] return the new
    entry [syntax->table[ch]], which no caller uses; the embedding returns
    the table and the entry is read back with [m4_syntab]. *)
Definition add_syntax_attribute (s : m4_syntax_table) (ch code : Z)
  : m4_syntax_table :=
  if truthy (Z.land code M4_SYNTAX_MASKS)
  then set_table s (store (table s) ch
         (to_ushort (Z.lor (entry (table s) ch) code)))
  else set_table s (store (table s) ch
         (to_ushort (Z.lor (Z.land (entry (table s) ch) M4_SYNTAX_MASKS) code))).

Definition remove_syntax_attribute (s : m4_syntax_table) (ch code : Z)
  : option m4_syntax_table :=
  let? _ := assert (truthy (Z.land code M4_SYNTAX_MASKS)) in
  Some (set_table s (store (table s) ch
          (to_ushort (Z.land (entry (table s) ch) (Z.lnot code))))).

(** ** Derived-flag checkers *)

(** The scan of [check_is_single_quotes] and [check_is_single_comments]
    (the two loops differ in the pair of codes only): the locals
    [lquote]/[rquote] (or [bcomm]/[ecomm]) start at -1; the third component
    is [false] when the loop left through a [break], after clearing the
    flag. *)
Fixpoint scan_delims (s : m4_syntax_table) (c_start c_end : Z) (n : nat)
    (lq rq : Z) : Z * Z * bool :=
  match n with
  | O => (lq, rq, true)
  | S k =>
      let ch := Z.of_nat k in
      if m4_has_syntax s ch c_start && negb (lq =? -1) then (lq, rq, false)
      else
        let lq' := if m4_has_syntax s ch c_start then ch else lq in
        if m4_has_syntax s ch c_end && negb (rq =? -1) then (lq', rq, false)
        else
          let rq' := if m4_has_syntax s ch c_end then ch else rq in
          scan_delims s c_start c_end k lq' rq'
  end.

(** The checkers return the final value of their flag, which no caller
    uses. *)
Definition check_is_single_quotes (s : m4_syntax_table)
  : option m4_syntax_table :=
  if negb (is_single_quotes s) then Some s
  else
    let? _ := assert ((len1 (quote s) =? 1) && (len2 (quote s) =? 1)) in
    if m4_has_syntax s (deref (str1 (quote s))) M4_SYNTAX_LQUOTE
       && m4_has_syntax s (deref (str2 (quote s))) M4_SYNTAX_RQUOTE
    then Some s
    else
      let '(lquote, rquote, kept) :=
        scan_delims s M4_SYNTAX_LQUOTE M4_SYNTAX_RQUOTE all_chars (-1) (-1) in
      let s := if kept then s else set_is_single_quotes s false in
      if (lquote =? -1) || (rquote =? -1)
      then Some (set_is_single_quotes s false)
      else if is_single_quotes s
      then Some (set_quote s
                   (mk_pair (poke (str1 (quote s)) lquote) (len1 (quote s))
                            (poke (str2 (quote s)) rquote) (len2 (quote s))))
      else Some s.

Definition check_is_single_comments (s : m4_syntax_table)
  : option m4_syntax_table :=
  if negb (is_single_comments s) then Some s
  else
    let? _ := assert ((len1 (comm s) =? 1) && (len2 (comm s) =? 1)) in
    if m4_has_syntax s (deref (str1 (comm s))) M4_SYNTAX_BCOMM
       && m4_has_syntax s (deref (str2 (comm s))) M4_SYNTAX_ECOMM
    then Some s
    else
      let '(bcomm, ecomm, kept) :=
        scan_delims s M4_SYNTAX_BCOMM M4_SYNTAX_ECOMM all_chars (-1) (-1) in
      let s := if kept then s else set_is_single_comments s false in
      if (bcomm =? -1) || (ecomm =? -1)
      then Some (set_is_single_comments s false)
      else if is_single_comments s
      then Some (set_comm s
                   (mk_pair (poke (str1 (comm s)) bcomm) (len1 (comm s))
                            (poke (str2 (comm s)) ecomm) (len2 (comm s))))
      else Some s.

Fixpoint scan_escape (s : m4_syntax_table) (n : nat) : bool :=
  match n with
  | O => false
  | S k =>
      if m4_has_syntax s (Z.of_nat k) M4_SYNTAX_ESCAPE then true
      else scan_escape s k
  end.

Definition check_is_macro_escaped (s : m4_syntax_table) : m4_syntax_table :=
  set_is_macro_escaped s (scan_escape s all_chars).

(** ** The quote age *)

Definition quote_unsafe_bits : Z :=
  Z.lor M4_SYNTAX_ALPHA (Z.lor M4_SYNTAX_NUM (Z.lor M4_SYNTAX_OPEN
    (Z.lor M4_SYNTAX_COMMA (Z.lor M4_SYNTAX_CLOSE M4_SYNTAX_SPACE)))).

Definition comment_unsafe_bits : Z :=
  Z.lor M4_SYNTAX_OPEN (Z.lor M4_SYNTAX_COMMA M4_SYNTAX_CLOSE).

(** The first statement of [set_quote_age]: the table after the possible
    [++syntax->syntax_age], and the local variable [local_syntax_age]. *)
Definition age_step (s : m4_syntax_table) (reset change : bool)
  : m4_syntax_table * Z :=
  if reset then (s, 0)
  else if change && (syntax_age s <? 0xffff)
  then let a := to_ushort (syntax_age s + 1) in (set_syntax_age s a, a)
  else (s, syntax_age s).

Definition local_syntax_age (s : m4_syntax_table) (reset change : bool) : Z :=
  snd (age_step s reset change).

(** The test that guards the non-zero quote age, on the age [age]. *)
Definition quotes_safe (s : m4_syntax_table) (age : Z) : bool :=
  (age <? 0xffff)
  && is_single_quotes s
  && negb (m4_has_syntax s (deref (str1 (quote s))) quote_unsafe_bits)
  && negb (m4_has_syntax s (deref (str2 (quote s))) quote_unsafe_bits)
  && negb (deref (str1 (quote s)) =? deref (str2 (quote s)))
  && ((len1 (comm s) =? 0)
      || (negb (deref (str1 (comm s)) =? deref (str2 (quote s)))
          && negb (m4_has_syntax s (deref (str1 (comm s))) comment_unsafe_bits)))
  && m4_has_syntax s (chr ",") M4_SYNTAX_COMMA.

Definition pack_quote_age (s : m4_syntax_table) (age : Z) : Z :=
  to_uint (Z.lor (Z.lor (Z.shiftl age 16)
                        (Z.shiftl (Z.land (deref (str1 (quote s))) 0xff) 8))
                 (Z.land (deref (str2 (quote s))) 0xff)).

Definition set_quote_age (s : m4_syntax_table) (reset change : bool)
  : m4_syntax_table :=
  let '(s, age) := age_step s reset change in
  if quotes_safe s age
  then set_quote_age_field s (pack_quote_age s age)
  else set_quote_age_field s 0.

(** ** Creation and the key mapping *)

(** The [switch] of [m4_syntax_create]: the default category of [ch]. *)
Definition default_code (ch : Z) : Z :=
  if ch =? chr "(" then M4_SYNTAX_OPEN
  else if ch =? chr ")" then M4_SYNTAX_CLOSE
  else if ch =? chr "," then M4_SYNTAX_COMMA
  else if ch =? chr "$" then M4_SYNTAX_DOLLAR
  else if ch =? chr "{" then M4_SYNTAX_LBRACE
  else if ch =? chr "}" then M4_SYNTAX_RBRACE
  else if ch =? chr "`" then M4_SYNTAX_LQUOTE
  else if ch =? chr "#" then M4_SYNTAX_BCOMM
  else if isspace ch then M4_SYNTAX_SPACE
  else if isalpha ch || (ch =? chr "_") then M4_SYNTAX_ALPHA
  else if isdigit ch then M4_SYNTAX_NUM
  else M4_SYNTAX_OTHER.

Definition m4_syntax_code (ch : Z) : Z :=
  if (ch =? chr "I") || (ch =? chr "i") then M4_SYNTAX_IGNORE
  else if ch =? chr "@" then M4_SYNTAX_ESCAPE
  else if (ch =? chr "W") || (ch =? chr "w") then M4_SYNTAX_ALPHA
  else if (ch =? chr "L") || (ch =? chr "l") then M4_SYNTAX_LQUOTE
  else if (ch =? chr "B") || (ch =? chr "b") then M4_SYNTAX_BCOMM
  else if (ch =? chr "O") || (ch =? chr "o") then M4_SYNTAX_OTHER
  else if (ch =? chr "D") || (ch =? chr "d") then M4_SYNTAX_NUM
  else if ch =? chr "$" then M4_SYNTAX_DOLLAR
  else if ch =? chr "{" then M4_SYNTAX_LBRACE
  else if ch =? chr "}" then M4_SYNTAX_RBRACE
  else if (ch =? chr "S") || (ch =? chr "s") then M4_SYNTAX_SPACE
  else if (ch =? chr "A") || (ch =? chr "a") then M4_SYNTAX_ACTIVE
  else if ch =? chr "(" then M4_SYNTAX_OPEN
  else if ch =? chr ")" then M4_SYNTAX_CLOSE
  else if ch =? chr "," then M4_SYNTAX_COMMA
  else if (ch =? chr "R") || (ch =? chr "r") then M4_SYNTAX_RQUOTE
  else if (ch =? chr "E") || (ch =? chr "e") then M4_SYNTAX_ECOMM
  else -1.

(** ** The changesyntax verbs *)

(** [while ((ch = to_uchar ( *chars++ ))) add_syntax_attribute (...)]. *)
Fixpoint add_chars (s : m4_syntax_table) (chars : list Z) (code : Z)
  : m4_syntax_table :=
  match chars with
  | [] => s
  | c :: rest =>
      let ch := to_uchar c in
      if ch =? 0 then s
      else add_chars (add_syntax_attribute s ch code) rest code
  end.

Definition add_syntax_set (s : m4_syntax_table) (chars : list Z) (code : Z)
  : m4_syntax_table :=
  if deref chars =? NUL then s
  else
    let s := if code =? M4_SYNTAX_ESCAPE then set_is_macro_escaped s true
             else s in
    add_chars s chars code.

Fixpoint subtract_chars (s : m4_syntax_table) (chars : list Z) (code : Z)
  : option m4_syntax_table :=
  match chars with
  | [] => Some s
  | c :: rest =>
      let ch := to_uchar c in
      if ch =? 0 then Some s
      else
        let? s' :=
          if negb (Z.land code M4_SYNTAX_MASKS =? 0)
          then remove_syntax_attribute s ch code
          else if m4_has_syntax s ch code
          then Some (add_syntax_attribute s ch M4_SYNTAX_OTHER)
          else Some s in
        subtract_chars s' rest code
  end.

Definition subtract_syntax_set (s : m4_syntax_table) (chars : list Z)
    (code : Z) : option m4_syntax_table :=
  if deref chars =? NUL then Some s
  else
    let? s := subtract_chars s chars code in
    if code =? M4_SYNTAX_ESCAPE
    then Some (if is_macro_escaped s then check_is_macro_escaped s else s)
    else if (code =? M4_SYNTAX_LQUOTE) || (code =? M4_SYNTAX_RQUOTE)
    then (if is_single_quotes s then check_is_single_quotes s else Some s)
    else if (code =? M4_SYNTAX_BCOMM) || (code =? M4_SYNTAX_ECOMM)
    then (if is_single_comments s then check_is_single_comments s else Some s)
    else Some s.

Definition set_syntax_set (s : m4_syntax_table) (chars : list Z) (code : Z)
  : option m4_syntax_table :=
  let? s :=
    for_each_char all_chars
      (fun ch s =>
         if (code =? M4_SYNTAX_RQUOTE) || (code =? M4_SYNTAX_ECOMM)
         then remove_syntax_attribute s ch code
         else if m4_has_syntax s ch code
         then Some (add_syntax_attribute s ch M4_SYNTAX_OTHER)
         else Some s) s in
  let s := add_chars s chars code in
  let s := check_is_macro_escaped s in
  let? s := check_is_single_quotes s in
  check_is_single_comments s.

Definition reset_syntax_set (s : m4_syntax_table) (code : Z)
  : option m4_syntax_table :=
  let? s :=
    for_each_char all_chars
      (fun ch s =>
         if code =? M4_SYNTAX_RQUOTE
         then (if ch =? chr "'"
               then Some (add_syntax_attribute s ch code)
               else remove_syntax_attribute s ch code)
         else if code =? M4_SYNTAX_ECOMM
         then (if ch =? NL
               then Some (add_syntax_attribute s ch code)
               else remove_syntax_attribute s ch code)
         else if (entry (orig s) ch =? code) || m4_has_syntax s ch code
         then Some (add_syntax_attribute s ch (entry (orig s) ch))
         else Some s) s in
  let s := check_is_macro_escaped s in
  let? s := check_is_single_quotes s in
  check_is_single_comments s.

(** [m4_set_syntax]: the new table and the returned [int]. *)
Definition m4_set_syntax (s : m4_syntax_table) (key action : Z)
    (chars : option (list Z)) : option (m4_syntax_table * Z) :=
  let? _ := assert (bool_decide (is_Some chars) || (key =? NUL)) in
  if key =? NUL
  then
    let s := set_table s (orig s) in
    let s := set_quote s (mk_pair DEF_LQUOTE 1 DEF_RQUOTE 1) in
    let s := set_comm s (mk_pair DEF_BCOMM 1 DEF_ECOMM 1) in
    let s := add_syntax_attribute s (to_uchar (deref (str2 (quote s))))
               M4_SYNTAX_RQUOTE in
    let s := add_syntax_attribute s (to_uchar (deref (str2 (comm s))))
               M4_SYNTAX_ECOMM in
    let s := set_is_single_quotes s true in
    let s := set_is_single_comments s true in
    let s := set_is_macro_escaped s false in
    Some (set_quote_age s true false, 0)
  else
    let code := m4_syntax_code key in
    if code <? 0 then Some (s, -1)
    else
      let chars := default [] chars in
      let? s :=
        if action =? chr "+" then Some (add_syntax_set s chars code)
        else if action =? chr "-" then subtract_syntax_set s chars code
        else if action =? chr "=" then set_syntax_set s chars code
        else if action =? NUL then reset_syntax_set s code
        else None in
      Some (m4__quote_uncache (set_quote_age s false true), code).

(** The table as [xzalloc] leaves it: every field zero; the four
    delimiter strings are null pointers, freed and replaced by
    [m4_set_syntax] before they are read. *)
Definition xzalloc : m4_syntax_table :=
  mk_syntax (repeat 0 all_chars) (repeat 0 all_chars)
    (mk_pair [] 0 [] 0) (mk_pair [] 0 [] 0) None 0 0
    (mk_simple RefNull 0 RefNull 0) false false false 0 0.

Definition m4_syntax_create : option m4_syntax_table :=
  let syntax := xzalloc in
  let? syntax :=
    for_each_char all_chars
      (fun ch s => Some (set_orig s (store (orig s) ch (default_code ch))))
      syntax in
  let? (syntax, _) := m4_set_syntax syntax NUL NUL None in
  Some (set_cached_simple syntax
          (mk_simple RefCachedLquote 1 RefCachedRquote 1)).

(** ** The delimiter installers *)

Definition lquote_blockers : Z :=
  Z.lor M4_SYNTAX_IGNORE (Z.lor M4_SYNTAX_ESCAPE
    (Z.lor M4_SYNTAX_ALPHA M4_SYNTAX_NUM)).

Definition bcomm_blockers : Z :=
  Z.lor M4_SYNTAX_IGNORE (Z.lor M4_SYNTAX_ESCAPE
    (Z.lor M4_SYNTAX_ALPHA (Z.lor M4_SYNTAX_NUM M4_SYNTAX_LQUOTE))).

(** The arguments of [m4_set_quotes] after its defaulting rules. *)
Definition quote_args (lq rq : option (list Z)) : list Z * list Z :=
  match lq with
  | None => (DEF_LQUOTE, DEF_RQUOTE)
  | Some l =>
      match rq with
      | None => (l, DEF_RQUOTE)
      | Some r =>
          if truthy (deref l) && negb (truthy (deref r))
          then (l, DEF_RQUOTE)
          else (l, r)
      end
  end.

Definition m4_set_quotes (s : m4_syntax_table) (lq rq : option (list Z))
  : option m4_syntax_table :=
  let '(lq, rq) := quote_args lq rq in
  if streq (str1 (quote s)) lq && streq (str2 (quote s)) rq then Some s
  else
    let s := set_quote s (mk_pair lq (strlen lq) rq (strlen rq)) in
    let s :=
      set_is_single_quotes s
        ((len1 (quote s) =? 1) && (len2 (quote s) =? 1)
         && negb (m4_has_syntax s (deref (str1 (quote s))) lquote_blockers)) in
    let? s :=
      for_each_char all_chars
        (fun ch s =>
           let s :=
             if m4_has_syntax s ch M4_SYNTAX_LQUOTE
             then add_syntax_attribute s ch
                    (if entry (orig s) ch =? M4_SYNTAX_LQUOTE
                     then M4_SYNTAX_OTHER else entry (orig s) ch)
             else s in
           if m4_has_syntax s ch M4_SYNTAX_RQUOTE
           then remove_syntax_attribute s ch M4_SYNTAX_RQUOTE
           else Some s) s in
    let s :=
      if is_single_quotes s
      then
        let s := add_syntax_attribute s (to_uchar (deref (str1 (quote s))))
                   M4_SYNTAX_LQUOTE in
        add_syntax_attribute s (to_uchar (deref (str2 (quote s))))
          M4_SYNTAX_RQUOTE
      else s in
    let s := if is_macro_escaped s then check_is_macro_escaped s else s in
    Some (set_quote_age s false false).

(** The arguments of [m4_set_comment] after its defaulting rules. *)
Definition comment_args (bc ec : option (list Z)) : list Z * list Z :=
  match bc with
  | None => ([], [])
  | Some b =>
      match ec with
      | None => (b, DEF_ECOMM)
      | Some e =>
          if truthy (deref b) && negb (truthy (deref e))
          then (b, DEF_ECOMM)
          else (b, e)
      end
  end.

Definition m4_set_comment (s : m4_syntax_table) (bc ec : option (list Z))
  : option m4_syntax_table :=
  let '(bc, ec) := comment_args bc ec in
  if streq (str1 (comm s)) bc && streq (str2 (comm s)) ec then Some s
  else
    let s := set_comm s (mk_pair bc (strlen bc) ec (strlen ec)) in
    let s :=
      set_is_single_comments s
        ((len1 (comm s) =? 1) && (len2 (comm s) =? 1)
         && negb (m4_has_syntax s (deref (str1 (comm s))) bcomm_blockers)) in
    let? s :=
      for_each_char all_chars
        (fun ch s =>
           let s :=
             if m4_has_syntax s ch M4_SYNTAX_BCOMM
             then add_syntax_attribute s ch
                    (if entry (orig s) ch =? M4_SYNTAX_BCOMM
                     then M4_SYNTAX_OTHER else entry (orig s) ch)
             else s in
           if m4_has_syntax s ch M4_SYNTAX_ECOMM
           then remove_syntax_attribute s ch M4_SYNTAX_ECOMM
           else Some s) s in
    let s :=
      if is_single_comments s
      then
        let s := add_syntax_attribute s (to_uchar (deref (str1 (comm s))))
                   M4_SYNTAX_BCOMM in
        add_syntax_attribute s (to_uchar (deref (str2 (comm s))))
          M4_SYNTAX_ECOMM
      else s in
    let s := if is_macro_escaped s then check_is_macro_escaped s else s in
    Some (set_quote_age s false false).

(** ** The quote cache *)

(** Modelled from the spec: the obstack is an external collaborator, of
    which [m4__quote_cache] needs the size of the object under
    construction and the copying of a struct and of a string onto it. *)
Inductive obstack_object :=
| ObjPair (p : m4_string_pair)
| ObjBytes (l : list Z).

Record m4_obstack := mk_obstack {
  object_size : Z;
  objects : list obstack_object
}.

(** The argument [quotes]: null, [&syntax->quote], or another pair. *)
Inductive quotes_arg :=
| QuotesNull
| QuotesOfSyntax
| QuotesOther (p : m4_string_pair).

(** The returned pointer: null, [&syntax->cached_simple], the argument
    [quotes] itself, or [syntax->cached_quote]. *)
Inductive quotes_result :=
| ResNull
| ResCachedSimple
| ResQuotes
| ResCachedQuote.

Definition is_quotes_of_syntax (q : quotes_arg) : bool :=
  match q with QuotesOfSyntax => true | _ => false end.

Definition m4__quote_cache (s : m4_syntax_table) (obs : option m4_obstack)
    (age : Z) (quotes : quotes_arg)
  : option (m4_syntax_table * option m4_obstack * quotes_result) :=
  match quotes with
  | QuotesNull => Some (s, obs, ResNull)
  | _ =>
      if truthy age
      then Some (set_cached_bytes s (Z.land (Z.shiftr age 8) 0xff)
                                    (Z.land age 0xff),
                 obs, ResCachedSimple)
      else
        match obs with
        | None => Some (s, obs, ResQuotes)
        | Some o =>
            let? _ := assert (is_quotes_of_syntax quotes) in
            match cached_quote s with
            | Some _ => Some (s, obs, ResCachedQuote)
            | None =>
                let? _ := assert (object_size o =? 0) in
                let q := quote s in
                let c1 := firstn (Z.to_nat (len1 q)) (str1 q) in
                let c2 := firstn (Z.to_nat (len2 q)) (str2 q) in
                let copy := mk_pair c1 (len1 q) c2 (len2 q) in
                Some (set_cached_quote s (Some copy),
                      Some (mk_obstack (object_size o)
                              (objects o ++ [ObjPair q; ObjBytes c1; ObjBytes c2])),
                      ResCachedQuote)
            end
        end
  end.

(** ** Operations and reachable tables *)

Inductive operation :=
| SetSyntax (key action : Z) (chars : option (list Z))
| SetQuotes (lq rq : option (list Z))
| SetComment (bc ec : option (list Z))
| QuoteCache (obs : option m4_obstack) (age : Z) (quotes : quotes_arg).

Definition run_op (op : operation) (s : m4_syntax_table)
  : option m4_syntax_table :=
  match op with
  | SetSyntax key action chars =>
      let? (s', _) := m4_set_syntax s key action chars in Some s'
  | SetQuotes lq rq => m4_set_quotes s lq rq
  | SetComment bc ec => m4_set_comment s bc ec
  | QuoteCache obs age quotes =>
      let? (s', _, _) := m4__quote_cache s obs age quotes in Some s'
  end.

Fixpoint run_ops (ops : list operation) (s : m4_syntax_table)
  : option m4_syntax_table :=
  match ops with
  | [] => Some s
  | op :: rest => let? s' := run_op op s in run_ops rest s'
  end.

(** The arguments an operation can receive: every string is a C string,
    of bytes other than NUL. *)
Definition c_char (c : Z) : bool := (0 <? c) && (c <? 256).
Definition c_string (l : list Z) : bool := forallb c_char l.
Definition c_string_opt (o : option (list Z)) : bool :=
  match o with None => true | Some l => c_string l end.

Definition well_formed_op (op : operation) : bool :=
  match op with
  | SetSyntax key action chars => c_string_opt chars
  | SetQuotes lq rq => c_string_opt lq && c_string_opt rq
  | SetComment bc ec => c_string_opt bc && c_string_opt ec
  | QuoteCache _ _ _ => true
  end.

Inductive reachable : m4_syntax_table -> Prop :=
| reachable_create s :
    m4_syntax_create = Some s -> reachable s
| reachable_step s op s' :
    reachable s -> well_formed_op op = true -> run_op op s = Some s' ->
    reachable s'.

(** A changesyntax verb: a call of [m4_set_syntax] with a key that names a
    category. *)
Definition is_verb (op : operation) : bool :=
  match op with
  | SetSyntax key _ _ => negb (key =? NUL) && (0 <=? m4_syntax_code key)
  | _ => false
  end.

Fixpoint count_verbs (ops : list operation) : Z :=
  match ops with
  | [] => 0
  | op :: rest => (if is_verb op then 1 else 0) + count_verbs rest
  end.

(** Strings of the examples. *)
Definition str (l : list ascii) : list Z := map chr l.

(** The table a creation returns. *)
Definition fresh : m4_syntax_table :=
  Eval vm_compute in default xzalloc m4_syntax_create.

(** * Auxiliary definitions of the proofs *)

(** ** Entries *)

Definition has_bits (e bits : Z) : bool := 0 <? Z.land e bits.

Definition add_entry (e code : Z) : Z :=
  if truthy (Z.land code M4_SYNTAX_MASKS)
  then to_ushort (Z.lor e code)
  else to_ushort (Z.lor (Z.land e M4_SYNTAX_MASKS) code).

Definition remove_entry (e code : Z) : Z :=
  to_ushort (Z.land e (Z.lnot code)).

(** ** Sweeps over the 256 characters *)

(** The table a loop over all characters leaves, when its body rewrites
    the entry of the visited character from that entry alone. *)
Fixpoint sweep (n : nat) (g : Z -> Z -> Z) (t : list Z) : list Z :=
  match n with
  | O => t
  | S k =>
      sweep k g (store t (Z.of_nat k) (g (Z.of_nat k) (entry t (Z.of_nat k))))
  end.

(** ** Well-formed entries: one basis code, and any of the two masks *)

Definition basis_codes : list Z :=
  [M4_SYNTAX_IGNORE; M4_SYNTAX_ESCAPE; M4_SYNTAX_ALPHA; M4_SYNTAX_LQUOTE;
   M4_SYNTAX_BCOMM; M4_SYNTAX_OTHER; M4_SYNTAX_NUM; M4_SYNTAX_DOLLAR;
   M4_SYNTAX_LBRACE; M4_SYNTAX_RBRACE; M4_SYNTAX_SPACE; M4_SYNTAX_ACTIVE;
   M4_SYNTAX_OPEN; M4_SYNTAX_CLOSE; M4_SYNTAX_COMMA].

Definition mask_codes : list Z := [M4_SYNTAX_RQUOTE; M4_SYNTAX_ECOMM].

Definition all_codes : list Z := basis_codes ++ mask_codes.

Definition mem (x : Z) (l : list Z) : bool := existsb (Z.eqb x) l.

Definition valid_entry (e : Z) : bool :=
  (0 <=? e) && (e <? 65536) && mem (e mod 16384) basis_codes.

Definition valid_entries : list Z :=
  Eval vm_compute in
    flat_map (fun m => map (fun b => b + m) basis_codes)
      [0; M4_SYNTAX_RQUOTE; M4_SYNTAX_ECOMM; M4_SYNTAX_MASKS].

(** ** The key mapping *)

Definition mapped_keys : list Z :=
  map chr ["I"; "i"; "@"; "W"; "w"; "L"; "l"; "B"; "b"; "O"; "o"; "D"; "d";
           "$"; "{"; "}"; "S"; "s"; "A"; "a"; "("; ")"; ","; "R"; "r";
           "E"; "e"]%char.


(** ** The loops, entry by entry *)

(** The table a loop over the characters of a string leaves, when its
    body rewrites the entry of the visited character by [f]. *)
Fixpoint update_chars (f : Z -> Z) (t : list Z) (chars : list Z) : list Z :=
  match chars with
  | [] => t
  | c :: rest =>
      let ch := to_uchar c in
      if ch =? 0 then t
      else update_chars f (store t ch (f (entry t ch))) rest
  end.

(** What the body of each loop does to the entry [e] of the character
    [ch]: the loops of [subtract_syntax_set], [set_syntax_set],
    [reset_syntax_set], [m4_set_quotes] and [m4_set_comment]. *)
Definition subtract_entry (code e : Z) : Z :=
  if negb (Z.land code M4_SYNTAX_MASKS =? 0) then remove_entry e code
  else if has_bits e code then add_entry e M4_SYNTAX_OTHER
  else e.

Definition clear_entry (code e : Z) : Z :=
  if (code =? M4_SYNTAX_RQUOTE) || (code =? M4_SYNTAX_ECOMM)
  then remove_entry e code
  else if has_bits e code then add_entry e M4_SYNTAX_OTHER
  else e.

(** The body of the loop of [reset_syntax_set], on the code [code], for a
    character of default category [d] that is the apostrophe
    ([apostrophe]) or the newline ([newline]) or neither. *)
Definition reset_core (code : Z) (apostrophe newline : bool) (d e : Z) : Z :=
  if code =? M4_SYNTAX_RQUOTE
  then (if apostrophe then add_entry e code else remove_entry e code)
  else if code =? M4_SYNTAX_ECOMM
  then (if newline then add_entry e code else remove_entry e code)
  else if (d =? code) || has_bits e code
  then add_entry e d
  else e.

Definition reset_entry (o : list Z) (code ch e : Z) : Z :=
  reset_core code (ch =? chr "'") (ch =? NL) (entry o ch) e.

(** The body of the loops of [m4_set_quotes] and [m4_set_comment], on the
    codes of the pair, for a character of default category [d]. *)
Definition undelimit_core (c_start c_end d e : Z) : Z :=
  let e1 :=
    if has_bits e c_start
    then add_entry e (if d =? c_start then M4_SYNTAX_OTHER else d)
    else e in
  if has_bits e1 c_end then remove_entry e1 c_end else e1.

Definition unquote_entry (o : list Z) (ch e : Z) : Z :=
  undelimit_core M4_SYNTAX_LQUOTE M4_SYNTAX_RQUOTE (entry o ch) e.

Definition uncomment_entry (o : list Z) (ch e : Z) : Z :=
  undelimit_core M4_SYNTAX_BCOMM M4_SYNTAX_ECOMM (entry o ch) e.

(** ** Well-formed tables *)

Definition byte_ok (c : Z) : bool := (0 <=? c) && (c <? 256).

(** A delimiter pair whose lengths are the lengths of its strings, made
    of bytes. *)
Definition pair_ok (p : m4_string_pair) : Prop :=
  len1 p = strlen (str1 p) /\ len2 p = strlen (str2 p) /\
  forallb byte_ok (str1 p) = true /\ forallb byte_ok (str2 p) = true.

(** What the assertion of a checker asks of the pair of its flag. *)
Definition single_lengths (flag : bool) (p : m4_string_pair) : Prop :=
  flag = true -> len1 p = 1 /\ len2 p = 1.

Record well_formed (s : m4_syntax_table) : Prop := mk_well_formed {
  wf_length : length (table s) = all_chars;
  wf_entries : forallb valid_entry (table s) = true;
  wf_orig : orig s = orig fresh;
  wf_quote : pair_ok (quote s);
  wf_comm : pair_ok (comm s);
  wf_single_quotes : single_lengths (is_single_quotes s) (quote s);
  wf_single_comments : single_lengths (is_single_comments s) (comm s);
  wf_age : 0 <= syntax_age s <= 0xffff
}.

(** What the scan of a checker knows of a local: it is still -1, or a
    character that carries the code. *)
Definition found (s : m4_syntax_table) (code x : Z) : Prop :=
  x = -1 \/ (0 <= x < 256 /\ m4_has_syntax s x code = true).

(** The flag of a pair is backed by the table: the pair is of two single
    bytes, which carry the codes of the pair. *)
Definition quotes_carried (s : m4_syntax_table) : Prop :=
  is_single_quotes s = true ->
  len1 (quote s) = 1 /\ len2 (quote s) = 1
  /\ m4_has_syntax s (deref (str1 (quote s))) M4_SYNTAX_LQUOTE = true
  /\ m4_has_syntax s (deref (str2 (quote s))) M4_SYNTAX_RQUOTE = true.

Definition comments_carried (s : m4_syntax_table) : Prop :=
  is_single_comments s = true ->
  len1 (comm s) = 1 /\ len2 (comm s) = 1
  /\ m4_has_syntax s (deref (str1 (comm s))) M4_SYNTAX_BCOMM = true
  /\ m4_has_syntax s (deref (str2 (comm s))) M4_SYNTAX_ECOMM = true.

(** The [switch] of [m4_set_syntax] on the action. *)
Definition verb_body (s : m4_syntax_table) (action : Z) (chars : list Z)
    (code : Z) : option m4_syntax_table :=
  if action =? chr "+" then Some (add_syntax_set s chars code)
  else if action =? chr "-" then subtract_syntax_set s chars code
  else if action =? chr "=" then set_syntax_set s chars code
  else if action =? NUL then reset_syntax_set s code
  else None.

(** The branch of [m4_set_syntax] on the null key, up to the call of
    [set_quote_age]. *)
Definition restore_defaults (s : m4_syntax_table) : m4_syntax_table :=
  let s := set_table s (orig s) in
  let s := set_quote s (mk_pair DEF_LQUOTE 1 DEF_RQUOTE 1) in
  let s := set_comm s (mk_pair DEF_BCOMM 1 DEF_ECOMM 1) in
  let s := add_syntax_attribute s (to_uchar (deref (str2 (quote s))))
             M4_SYNTAX_RQUOTE in
  let s := add_syntax_attribute s (to_uchar (deref (str2 (comm s))))
             M4_SYNTAX_ECOMM in
  let s := set_is_single_quotes s true in
  let s := set_is_single_comments s true in
  set_is_macro_escaped s false.

Definition valid_action (action : Z) : bool :=
  (action =? chr "+") || (action =? chr "-") || (action =? chr "=")
  || (action =? NUL).

(** [m4_set_quotes] and [m4_set_comment] between the comparison of the
    strings and the call of [set_quote_age], on the arguments [lq], [rq]
    (or [bc], [ec]) after the defaulting rules. *)
Definition install_quotes (s : m4_syntax_table) (lq rq : list Z)
  : m4_syntax_table :=
  let s := set_quote s (mk_pair lq (strlen lq) rq (strlen rq)) in
  let s :=
    set_is_single_quotes s
      ((len1 (quote s) =? 1) && (len2 (quote s) =? 1)
       && negb (m4_has_syntax s (deref (str1 (quote s))) lquote_blockers)) in
  let s := set_table s (sweep all_chars (unquote_entry (orig s)) (table s)) in
  let s :=
    if is_single_quotes s
    then
      let s := add_syntax_attribute s (to_uchar (deref (str1 (quote s))))
                 M4_SYNTAX_LQUOTE in
      add_syntax_attribute s (to_uchar (deref (str2 (quote s))))
        M4_SYNTAX_RQUOTE
    else s in
  if is_macro_escaped s then check_is_macro_escaped s else s.

Definition install_comment (s : m4_syntax_table) (bc ec : list Z)
  : m4_syntax_table :=
  let s := set_comm s (mk_pair bc (strlen bc) ec (strlen ec)) in
  let s :=
    set_is_single_comments s
      ((len1 (comm s) =? 1) && (len2 (comm s) =? 1)
       && negb (m4_has_syntax s (deref (str1 (comm s))) bcomm_blockers)) in
  let s := set_table s (sweep all_chars (uncomment_entry (orig s)) (table s)) in
  let s :=
    if is_single_comments s
    then
      let s := add_syntax_attribute s (to_uchar (deref (str1 (comm s))))
                 M4_SYNTAX_BCOMM in
      add_syntax_attribute s (to_uchar (deref (str2 (comm s))))
        M4_SYNTAX_ECOMM
    else s in
  if is_macro_escaped s then check_is_macro_escaped s else s.

(** The table [s] with other contents of the quote cache. *)
Definition recache (s : m4_syntax_table) (c : option m4_string_pair)
    (l r : Z) : m4_syntax_table :=
  set_cached_quote (set_cached_bytes s l r) c.

(** ** The statements on the quote age *)

Definition left_quote_byte (s : m4_syntax_table) : Z := deref (str1 (quote s)).
Definition right_quote_byte (s : m4_syntax_table) : Z := deref (str2 (quote s)).
Definition begin_comment_byte (s : m4_syntax_table) : Z := deref (str1 (comm s)).

(** The six safety predicates of the quote age, for the syntax age
    [age]. *)
Definition quote_age_safe (s : m4_syntax_table) (age : Z) : Prop :=
  age < 0xffff
  /\ is_single_quotes s = true
  /\ (forall c,
        In c [M4_SYNTAX_ALPHA; M4_SYNTAX_NUM; M4_SYNTAX_OPEN; M4_SYNTAX_COMMA;
              M4_SYNTAX_CLOSE; M4_SYNTAX_SPACE] ->
        m4_has_syntax s (left_quote_byte s) c = false
        /\ m4_has_syntax s (right_quote_byte s) c = false)
  /\ left_quote_byte s <> right_quote_byte s
  /\ (str1 (comm s) = []
      \/ (begin_comment_byte s <> right_quote_byte s
          /\ forall c,
               In c [M4_SYNTAX_OPEN; M4_SYNTAX_COMMA; M4_SYNTAX_CLOSE] ->
               m4_has_syntax s (begin_comment_byte s) c = false))
  /\ m4_has_syntax s (chr ",") M4_SYNTAX_COMMA = true.

(** The invariant of the quote age: when it is not zero, it packs a
    syntax age under which the table is safe, and that age is 0 or the
    stored counter. *)
Definition quote_age_invariant (s : m4_syntax_table) : Prop :=
  quote_age s <> 0 ->
  exists age,
    0 <= age /\ (age = 0 \/ age = syntax_age s)
    /\ quote_age_safe s age
    /\ quote_age s
       = Z.lor (Z.lor (Z.shiftl age 16) (Z.shiftl (left_quote_byte s) 8))
               (right_quote_byte s).

(** The counter saturates: once it is 0xffff, the quote age has no
    upper half. *)
Definition saturation_invariant (s : m4_syntax_table) : Prop :=
  syntax_age s = 0xffff -> Z.shiftr (quote_age s) 16 = 0.

(** A run of the examples: an escape is added, the quotes become
    brackets, the table is reset, and the exclamation mark becomes the
    only active character. *)
Definition example_run : list operation :=
  [SetSyntax (chr "@") (chr "+") (Some (str ["\"%char]));
   SetQuotes (Some (str ["["%char])) (Some (str ["]"%char]));
   SetSyntax NUL NUL None;
   SetSyntax (chr "A") (chr "=") (Some (str ["!"%char]))].

(** The verb of the examples: the backslash becomes an escape. *)
Definition add_escape : operation :=
  SetSyntax (chr "@") (chr "+") (Some (str ["\"%char])).

(** The add verb that takes LQUOTE away from the stored left quote: it
    adds a basis category other than LQUOTE to a string that holds the
    left-quote byte, while the quotes are single. *)
Definition add_strips_lquote (s : m4_syntax_table) (op : operation) : bool :=
  match op with
  | SetSyntax key action (Some chars) =>
      negb (key =? NUL) && (action =? chr "+")
      && (0 <=? m4_syntax_code key)
      && is_single_quotes s
      && (Z.land (m4_syntax_code key) M4_SYNTAX_MASKS =? 0)
      && negb (m4_syntax_code key =? M4_SYNTAX_LQUOTE)
      && mem (to_uchar (left_quote_byte s)) (map to_uchar chars)
  | _ => false
  end.

(** An entry that is well formed and carries [bits]. *)
Definition valid_with (bits e : Z) : Prop :=
  valid_entry e = true /\ has_bits e bits = true.

(** The table of the examples after an escape was added and the quotes
    became brackets. *)
Definition bracket_table : m4_syntax_table :=
  Eval vm_compute in
    default fresh
      (run_ops [add_escape;
                SetQuotes (Some (str ["["%char])) (Some (str ["]"%char]))]
         fresh).

(** * Further definitions: accessors and invariants *)

(** ** The accessors at the end of [syntax.c] *)

(** Each accessor asserts that [syntax] is not null, which holds of every
    table of the embedding, and returns a field. *)
Definition m4_get_syntax_lquote (s : m4_syntax_table) : list Z := str1 (quote s).
Definition m4_get_syntax_rquote (s : m4_syntax_table) : list Z := str2 (quote s).
Definition m4_get_syntax_quotes (s : m4_syntax_table) : m4_string_pair := quote s.
Definition m4_is_syntax_single_quotes (s : m4_syntax_table) : bool :=
  is_single_quotes s.
Definition m4_get_syntax_bcomm (s : m4_syntax_table) : list Z := str1 (comm s).
Definition m4_get_syntax_ecomm (s : m4_syntax_table) : list Z := str2 (comm s).
Definition m4_get_syntax_comments (s : m4_syntax_table) : m4_string_pair :=
  comm s.
Definition m4_is_syntax_single_comments (s : m4_syntax_table) : bool :=
  is_single_comments s.
Definition m4_is_syntax_macro_escaped (s : m4_syntax_table) : bool :=
  is_macro_escaped s.

(** ** Invariants of the strings *)

(** The stored delimiters are C strings, a pair with a left string has a
    right string, the NUL byte keeps the category OTHER, and
    [cached_simple] points to the two cached bytes. *)
Record strings_ok (s : m4_syntax_table) : Prop := mk_strings_ok {
  so_lquote : c_string (str1 (quote s)) = true;
  so_rquote : c_string (str2 (quote s)) = true;
  so_bcomm : c_string (str1 (comm s)) = true;
  so_ecomm : c_string (str2 (comm s)) = true;
  so_quote_pair : str1 (quote s) <> [] -> str2 (quote s) <> [];
  so_comm_pair : str1 (comm s) <> [] -> str2 (comm s) <> [];
  so_nul : entry (table s) 0 = M4_SYNTAX_OTHER;
  so_simple : cached_simple s = mk_simple RefCachedLquote 1 RefCachedRquote 1
}.

(** ** The flag of the escapes *)

(** The flag [is_macro_escaped] is set whenever a character is an
    escape. *)
Definition escape_noted (s : m4_syntax_table) : Prop :=
  forall ch, 0 <= ch < 256 ->
    m4_has_syntax s ch M4_SYNTAX_ESCAPE = true -> is_macro_escaped s = true.

(** A well-formed entry that is an escape only if [b]. *)
Definition escape_only_if (b : bool) (e : Z) : bool :=
  valid_entry e && implb (has_bits e M4_SYNTAX_ESCAPE) b.

(** ** Entries without a delimiter *)

(** A well-formed entry that carries neither code of a delimiter pair. *)
Definition undelimited (c_start c_end e : Z) : bool :=
  valid_entry e && negb (has_bits e c_start) && negb (has_bits e c_end).

(** The pairs of codes of the two installers. *)
Definition delimiter_codes (c_start c_end : Z) : Prop :=
  (c_start = M4_SYNTAX_LQUOTE /\ c_end = M4_SYNTAX_RQUOTE)
  \/ (c_start = M4_SYNTAX_BCOMM /\ c_end = M4_SYNTAX_ECOMM).

(** ** The characters that carry a code *)

(** [ch] is the only character that carries [code]. *)
Definition only_bearer (s : m4_syntax_table) (code ch : Z) : Prop :=
  0 <= ch < 256
  /\ m4_has_syntax s ch code = true
  /\ forall ch', 0 <= ch' < 256 -> m4_has_syntax s ch' code = true -> ch' = ch.

(** The number of characters below [n] that carry [code]. *)
Fixpoint count_bearers (s : m4_syntax_table) (code : Z) (n : nat) : nat :=
  match n with
  | O => O
  | S k =>
      ((if m4_has_syntax s (Z.of_nat k) code then 1 else 0)
       + count_bearers s code k)%nat
  end.

(** A table whose stored delimiters lost their codes to add verbs, while
    an open bracket became the only left quote and a percent sign the
    only comment starter. *)
Definition adopting_table : m4_syntax_table :=
  Eval vm_compute in
    default fresh
      (run_ops [SetSyntax (chr "L") (chr "+") (Some (str ["["%char]));
                SetSyntax (chr "O") (chr "+") (Some (str ["`"%char]));
                SetSyntax (chr "B") (chr "+") (Some (str ["%"%char]));
                SetSyntax (chr "O") (chr "+") (Some (str ["#"%char]))]
         fresh).

(** ** Resets of the categories, one after the other *)

(** The reset verb (the null action) for each key of a list. *)
Definition reset_ops (keys : list Z) : list operation :=
  map (fun key => SetSyntax key NUL (Some [])) keys.

(** An entry [e] of a character of default category [d], which is the
    apostrophe ([apostrophe]) or the newline ([newline]) or neither, is
    settled for the code [c]: the mask [c] is as in the default table, or
    the basis category [c] is involved only if the entry has its default
    basis category. *)
Definition settled (c : Z) (apostrophe newline : bool) (d e : Z) : bool :=
  if c =? M4_SYNTAX_RQUOTE
  then Bool.eqb (has_bits e M4_SYNTAX_RQUOTE) apostrophe
  else if c =? M4_SYNTAX_ECOMM
  then Bool.eqb (has_bits e M4_SYNTAX_ECOMM) newline
  else implb (has_bits e c || (d =? c)) (e mod 16384 =? d).

(** The entry of such a character in the default table. *)
Definition default_entry (apostrophe newline : bool) (d : Z) : Z :=
  d + (if apostrophe then M4_SYNTAX_RQUOTE else 0)
    + (if newline then M4_SYNTAX_ECOMM else 0).

(** ** The quote age is exact *)

(** The quote age is what [set_quote_age] computes from the table as it
    is, for the syntax age 0 or the stored one. *)
Definition quote_age_exact (s : m4_syntax_table) : Prop :=
  exists age,
    (age = 0 \/ age = syntax_age s)
    /\ quote_age s
       = if quotes_safe s age then pack_quote_age s age else 0.

(** ** The syntax age that an operation packs *)

(** The operation reaches its call of [set_quote_age]: [m4_set_syntax]
    on the null key or on a key of the mapping, and [m4_set_quotes] and
    [m4_set_comment] past the comparison of the strings. *)
Definition reaches_set_quote_age (op : operation) (s : m4_syntax_table)
  : bool :=
  match op with
  | SetSyntax key _ _ => (key =? NUL) || (0 <=? m4_syntax_code key)
  | SetQuotes lq rq =>
      negb (streq (str1 (quote s)) (fst (quote_args lq rq))
            && streq (str2 (quote s)) (snd (quote_args lq rq)))
  | SetComment bc ec =>
      negb (streq (str1 (comm s)) (fst (comment_args bc ec))
            && streq (str2 (comm s)) (snd (comment_args bc ec)))
  | QuoteCache _ _ _ => false
  end.

(** The [local_syntax_age] of that call, read off the table [s'] the
    operation leaves: 0 on the null key ([reset]), and otherwise the
    stored counter, which a verb has just incremented. *)
Definition age_used (op : operation) (s' : m4_syntax_table) : Z :=
  match op with
  | SetSyntax key _ _ => if key =? NUL then 0 else syntax_age s'
  | _ => syntax_age s'
  end.

(** A quote age that is not zero tells that the table is safe for the
    syntax age [age], and packs that age with the two quote bytes. *)
Definition quote_age_of (s : m4_syntax_table) (age : Z) : Prop :=
  quote_age s <> 0 ->
  quote_age_safe s age
  /\ quote_age s
     = Z.lor (Z.lor (Z.shiftl age 16) (Z.shiftl (left_quote_byte s) 8))
             (right_quote_byte s).

(** The table of the examples after an escape was added. *)
Definition escaped_table : m4_syntax_table :=
  Eval vm_compute in default fresh (run_ops [add_escape] fresh).

(** ** What a checker of delimiters leaves *)

(** * Properties *)

(** ** Arrays *)

Lemma entry_store_eq (a : list Z) ch v :
  0 <= ch < Z.of_nat (length a) -> entry (store a ch v) ch = v.
Proof.
  intros H. unfold entry, store.
  rewrite list_lookup_insert_eq by lia. reflexivity.
Qed.

Lemma entry_store_ne (a : list Z) ch ch' v :
  0 <= ch -> 0 <= ch' -> ch <> ch' -> entry (store a ch v) ch' = entry a ch'.
Proof.
  intros H1 H2 H3. unfold entry, store.
  rewrite list_lookup_insert_ne by lia. reflexivity.
Qed.

Lemma store_same (a : list Z) ch : store a ch (entry a ch) = a.
Proof.
  unfold entry, store. destruct (a !! Z.to_nat ch) eqn:E; simpl.
  - apply list_insert_id. exact E.
  - apply list_insert_ge. apply lookup_ge_None. exact E.
Qed.

Lemma length_store (a : list Z) ch v : length (store a ch v) = length a.
Proof. unfold store. apply length_insert. Qed.

Lemma to_uchar_small ch : 0 <= ch < 256 -> to_uchar ch = ch.
Proof. intros H. unfold to_uchar. apply Z.mod_small. exact H. Qed.

Lemma to_uchar_range ch : 0 <= to_uchar ch < 256.
Proof. unfold to_uchar. apply Z.mod_pos_bound. lia. Qed.

Lemma m4_has_syntax_bits s ch bits :
  m4_has_syntax s ch bits = has_bits (m4_syntab s ch) bits.
Proof. reflexivity. Qed.

Lemma set_table_table s : set_table s (table s) = s.
Proof. destruct s; reflexivity. Qed.

Lemma add_syntax_attribute_eq s ch code :
  add_syntax_attribute s ch code
  = set_table s (store (table s) ch (add_entry (entry (table s) ch) code)).
Proof.
  unfold add_syntax_attribute, add_entry.
  destruct (truthy (Z.land code M4_SYNTAX_MASKS)); reflexivity.
Qed.

Lemma remove_syntax_attribute_eq s ch code :
  truthy (Z.land code M4_SYNTAX_MASKS) = true ->
  remove_syntax_attribute s ch code
  = Some (set_table s (store (table s) ch (remove_entry (entry (table s) ch) code))).
Proof.
  intros H. unfold remove_syntax_attribute, remove_entry. rewrite H.
  reflexivity.
Qed.

Lemma length_sweep n g t : length (sweep n g t) = length t.
Proof.
  revert t. induction n as [|k IH]; intros t; simpl; [reflexivity|].
  rewrite IH. apply length_store.
Qed.

Lemma entry_sweep n g t ch :
  (n <= length t)%nat -> 0 <= ch ->
  entry (sweep n g t) ch
  = if ch <? Z.of_nat n then g ch (entry t ch) else entry t ch.
Proof.
  revert t. induction n as [|k IH]; intros t Hn Hch; simpl sweep.
  - destruct (Z.ltb_spec ch (Z.of_nat 0)); [lia | reflexivity].
  - rewrite IH by (rewrite ?length_store; lia).
    destruct (Z.ltb_spec ch (Z.of_nat k)); destruct (Z.ltb_spec ch (Z.of_nat (S k)));
      try lia.
    + rewrite entry_store_ne by lia. reflexivity.
    + assert (ch = Z.of_nat k) as -> by lia.
      rewrite entry_store_eq by lia. reflexivity.
    + rewrite entry_store_ne by lia. reflexivity.
Qed.

Lemma for_each_char_sweep_from n body g s t :
  (forall ch t, 0 <= ch < Z.of_nat n -> length t = length (table s) ->
     body ch (set_table s t)
     = Some (set_table s (store t ch (g ch (entry t ch))))) ->
  length t = length (table s) ->
  for_each_char n body (set_table s t) = Some (set_table s (sweep n g t)).
Proof.
  revert t. induction n as [|k IH]; intros t Hbody Hlen; simpl; [reflexivity|].
  rewrite Hbody by (auto; lia).
  apply IH; [ | rewrite length_store; exact Hlen].
  intros ch t' Hch Ht'. apply Hbody; [lia | exact Ht'].
Qed.

Lemma for_each_char_sweep n body g s :
  (forall ch t, 0 <= ch < Z.of_nat n -> length t = length (table s) ->
     body ch (set_table s t)
     = Some (set_table s (store t ch (g ch (entry t ch))))) ->
  for_each_char n body s = Some (set_table s (sweep n g (table s))).
Proof.
  intros Hbody.
  rewrite <- (set_table_table s) at 1.
  apply for_each_char_sweep_from; [exact Hbody | reflexivity].
Qed.

Lemma mem_In x l : mem x l = true <-> In x l.
Proof.
  unfold mem. rewrite existsb_exists. split.
  - intros (y & Hy & E). apply Z.eqb_eq in E. subst. exact Hy.
  - intros H. exists x. split; [exact H | apply Z.eqb_refl].
Qed.

Lemma valid_entry_cases e : valid_entry e = true -> In e valid_entries.
Proof.
  unfold valid_entry. intros H.
  apply andb_true_iff in H as [H Hb]. apply andb_true_iff in H as [H0 H1].
  apply Z.leb_le in H0. apply Z.ltb_lt in H1. apply mem_In in Hb.
  pose proof (Z.div_mod e 16384 ltac:(lia)) as Hd.
  assert (0 <= e / 16384 < 4) as Hq.
  { split; [apply Z.div_pos; lia | apply Z.div_lt_upper_bound; lia]. }
  set (q := e / 16384) in *. set (r := e mod 16384) in *.
  clearbody q r. clear H0 H1. subst e. apply mem_In.
  assert (q = 0 \/ q = 1 \/ q = 2 \/ q = 3) as Hq' by lia. clear Hq.
  unfold basis_codes in Hb. simpl in Hb.
  repeat (destruct Hb as [<- | Hb]);
    try (destruct Hq' as [-> | [-> | [-> | ->]]]; reflexivity).
  destruct Hb.
Qed.

Lemma valid_entry_forall (P : Z -> bool) :
  forallb P valid_entries = true ->
  forall e, valid_entry e = true -> P e = true.
Proof.
  intros H e He. rewrite forallb_forall in H. apply H.
  apply valid_entry_cases. exact He.
Qed.

Ltac case_key H :=
  repeat match goal with
  | |- context [?k =? ?c] =>
      destruct (Z.eqb_spec k c) as [->|];
      [ try (exfalso; apply H; apply mem_In; reflexivity) | ]
  end.

Lemma m4_syntax_code_unmapped key :
  ~ In key mapped_keys -> m4_syntax_code key = -1.
Proof.
  intros H. unfold m4_syntax_code. case_key H. reflexivity.
Qed.

Lemma m4_syntax_code_mapped key :
  In key mapped_keys -> In (m4_syntax_code key) all_codes.
Proof.
  intros H. apply mem_In in H. apply mem_In.
  unfold mapped_keys in H. simpl in H.
  repeat (apply orb_true_iff in H as [H | H];
          [apply Z.eqb_eq in H; subst key; reflexivity | ]).
  discriminate.
Qed.

Lemma m4_syntax_code_cases key :
  m4_syntax_code key = -1 \/ In (m4_syntax_code key) all_codes.
Proof.
  destruct (mem key mapped_keys) eqn:E.
  - right. apply m4_syntax_code_mapped. apply mem_In. exact E.
  - left. apply m4_syntax_code_unmapped. intros H. apply mem_In in H. congruence.
Qed.


(** ** The loops, entry by entry *)

Lemma m4_syntab_set_table s t ch :
  0 <= ch < 256 -> m4_syntab (set_table s t) ch = entry t ch.
Proof.
  intros H. unfold m4_syntab. simpl. rewrite to_uchar_small by exact H.
  reflexivity.
Qed.

Lemma m4_has_syntax_set_table s t ch bits :
  0 <= ch < 256 ->
  m4_has_syntax (set_table s t) ch bits = has_bits (entry t ch) bits.
Proof.
  intros H. rewrite m4_has_syntax_bits, m4_syntab_set_table by exact H.
  reflexivity.
Qed.

Lemma length_update_chars f t chars :
  length (update_chars f t chars) = length t.
Proof.
  revert t. induction chars as [|c rest IH]; intros t; simpl; [reflexivity|].
  destruct (to_uchar c =? 0); [reflexivity|].
  rewrite IH. apply length_store.
Qed.

Lemma add_chars_eq s chars code :
  add_chars s chars code
  = set_table s (update_chars (fun e => add_entry e code) (table s) chars).
Proof.
  rewrite <- (set_table_table s) at 1. generalize (table s) as t.
  induction chars as [|c rest IH]; intros t; simpl; [reflexivity|].
  destruct (to_uchar c =? 0); [reflexivity|].
  rewrite add_syntax_attribute_eq. simpl. apply IH.
Qed.

Lemma subtract_chars_eq s chars code :
  subtract_chars s chars code
  = Some (set_table s (update_chars (subtract_entry code) (table s) chars)).
Proof.
  rewrite <- (set_table_table s) at 1. generalize (table s) as t.
  induction chars as [|c rest IH]; intros t; simpl; [reflexivity|].
  destruct (Z.eqb_spec (to_uchar c) 0) as [|Hc]; [reflexivity|].
  assert (0 <= to_uchar c < 256) as Hr by apply to_uchar_range.
  rewrite !m4_has_syntax_set_table by exact Hr.
  assert (subtract_entry code (entry t (to_uchar c))
          = if negb (Z.land code M4_SYNTAX_MASKS =? 0)
            then remove_entry (entry t (to_uchar c)) code
            else if has_bits (entry t (to_uchar c)) code
                 then add_entry (entry t (to_uchar c)) M4_SYNTAX_OTHER
                 else entry t (to_uchar c)) as Hf by reflexivity.
  destruct (negb (Z.land code M4_SYNTAX_MASKS =? 0)) eqn:Hm.
  - rewrite remove_syntax_attribute_eq by exact Hm. simpl.
    rewrite Hf. apply IH.
  - destruct (has_bits (entry t (to_uchar c)) code).
    + rewrite add_syntax_attribute_eq. simpl. rewrite Hf. apply IH.
    + rewrite Hf, store_same. apply IH.
Qed.

Lemma sweep_clear s code :
  for_each_char all_chars
    (fun ch s =>
       if (code =? M4_SYNTAX_RQUOTE) || (code =? M4_SYNTAX_ECOMM)
       then remove_syntax_attribute s ch code
       else if m4_has_syntax s ch code
       then Some (add_syntax_attribute s ch M4_SYNTAX_OTHER)
       else Some s) s
  = Some (set_table s (sweep all_chars (fun _ => clear_entry code) (table s))).
Proof.
  apply for_each_char_sweep. intros ch t Hch _.
  change (Z.of_nat all_chars) with 256 in Hch. unfold clear_entry.
  destruct ((code =? M4_SYNTAX_RQUOTE) || (code =? M4_SYNTAX_ECOMM)) eqn:Hm.
  - rewrite remove_syntax_attribute_eq; [reflexivity|].
    apply orb_true_iff in Hm as [Hm | Hm]; apply Z.eqb_eq in Hm; subst code;
      reflexivity.
  - rewrite !m4_has_syntax_set_table by exact Hch.
    destruct (has_bits (entry t ch) code).
    + rewrite add_syntax_attribute_eq. reflexivity.
    + rewrite store_same. reflexivity.
Qed.

Lemma sweep_reset s code :
  for_each_char all_chars
    (fun ch s =>
       if code =? M4_SYNTAX_RQUOTE
       then (if ch =? chr "'"
             then Some (add_syntax_attribute s ch code)
             else remove_syntax_attribute s ch code)
       else if code =? M4_SYNTAX_ECOMM
       then (if ch =? NL
             then Some (add_syntax_attribute s ch code)
             else remove_syntax_attribute s ch code)
       else if (entry (orig s) ch =? code) || m4_has_syntax s ch code
       then Some (add_syntax_attribute s ch (entry (orig s) ch))
       else Some s) s
  = Some (set_table s (sweep all_chars (reset_entry (orig s) code) (table s))).
Proof.
  apply for_each_char_sweep. intros ch t Hch _.
  change (Z.of_nat all_chars) with 256 in Hch. unfold reset_entry, reset_core.
  destruct (Z.eqb_spec code M4_SYNTAX_RQUOTE) as [->|_].
  { destruct (ch =? chr "'").
    - rewrite add_syntax_attribute_eq. reflexivity.
    - rewrite remove_syntax_attribute_eq by reflexivity. reflexivity. }
  destruct (Z.eqb_spec code M4_SYNTAX_ECOMM) as [->|_].
  { destruct (ch =? NL).
    - rewrite add_syntax_attribute_eq. reflexivity.
    - rewrite remove_syntax_attribute_eq by reflexivity. reflexivity. }
  rewrite !m4_has_syntax_set_table by exact Hch. simpl orig.
  destruct ((entry (orig s) ch =? code) || has_bits (entry t ch) code).
  - rewrite add_syntax_attribute_eq. reflexivity.
  - rewrite store_same. reflexivity.
Qed.

Lemma sweep_unquote s :
  length (table s) = all_chars ->
  for_each_char all_chars
    (fun ch s =>
       let s :=
         if m4_has_syntax s ch M4_SYNTAX_LQUOTE
         then add_syntax_attribute s ch
                (if entry (orig s) ch =? M4_SYNTAX_LQUOTE
                 then M4_SYNTAX_OTHER else entry (orig s) ch)
         else s in
       if m4_has_syntax s ch M4_SYNTAX_RQUOTE
       then remove_syntax_attribute s ch M4_SYNTAX_RQUOTE
       else Some s) s
  = Some (set_table s (sweep all_chars (unquote_entry (orig s)) (table s))).
Proof.
  intros Hlen.
  apply for_each_char_sweep. intros ch t Hch Ht.
  change (Z.of_nat all_chars) with 256 in Hch.
  unfold unquote_entry, undelimit_core.
  assert (0 <= ch < Z.of_nat (length t)) as Hin.
  { rewrite Ht, Hlen. exact Hch. }
  rewrite !m4_has_syntax_set_table by exact Hch. simpl orig.
  destruct (has_bits (entry t ch) M4_SYNTAX_LQUOTE).
  - rewrite add_syntax_attribute_eq. simpl.
    rewrite !m4_has_syntax_set_table by exact Hch.
    rewrite entry_store_eq by exact Hin.
    destruct (has_bits _ M4_SYNTAX_RQUOTE).
    + rewrite remove_syntax_attribute_eq by reflexivity. simpl.
      rewrite entry_store_eq by exact Hin.
      unfold store. rewrite list_insert_insert_eq. reflexivity.
    + reflexivity.
  - rewrite !m4_has_syntax_set_table by exact Hch.
    destruct (has_bits _ M4_SYNTAX_RQUOTE).
    + rewrite remove_syntax_attribute_eq by reflexivity. reflexivity.
    + rewrite store_same. reflexivity.
Qed.

Lemma sweep_uncomment s :
  length (table s) = all_chars ->
  for_each_char all_chars
    (fun ch s =>
       let s :=
         if m4_has_syntax s ch M4_SYNTAX_BCOMM
         then add_syntax_attribute s ch
                (if entry (orig s) ch =? M4_SYNTAX_BCOMM
                 then M4_SYNTAX_OTHER else entry (orig s) ch)
         else s in
       if m4_has_syntax s ch M4_SYNTAX_ECOMM
       then remove_syntax_attribute s ch M4_SYNTAX_ECOMM
       else Some s) s
  = Some (set_table s (sweep all_chars (uncomment_entry (orig s)) (table s))).
Proof.
  intros Hlen.
  apply for_each_char_sweep. intros ch t Hch Ht.
  change (Z.of_nat all_chars) with 256 in Hch.
  unfold uncomment_entry, undelimit_core.
  assert (0 <= ch < Z.of_nat (length t)) as Hin.
  { rewrite Ht, Hlen. exact Hch. }
  rewrite !m4_has_syntax_set_table by exact Hch. simpl orig.
  destruct (has_bits (entry t ch) M4_SYNTAX_BCOMM).
  - rewrite add_syntax_attribute_eq. simpl.
    rewrite !m4_has_syntax_set_table by exact Hch.
    rewrite entry_store_eq by exact Hin.
    destruct (has_bits _ M4_SYNTAX_ECOMM).
    + rewrite remove_syntax_attribute_eq by reflexivity. simpl.
      rewrite entry_store_eq by exact Hin.
      unfold store. rewrite list_insert_insert_eq. reflexivity.
    + reflexivity.
  - rewrite !m4_has_syntax_set_table by exact Hch.
    destruct (has_bits _ M4_SYNTAX_ECOMM).
    + rewrite remove_syntax_attribute_eq by reflexivity. reflexivity.
    + rewrite store_same. reflexivity.
Qed.

(** ** Properties of all entries of a table *)

Lemma forallb_store (P : Z -> bool) t ch v :
  forallb P t = true -> P v = true -> forallb P (store t ch v) = true.
Proof.
  unfold store. generalize (Z.to_nat ch) as n. induction t as [|x t IH];
    intros n Ht Hv; [exact Ht|].
  simpl in Ht. apply andb_true_iff in Ht as [Hx Ht].
  destruct n as [|n]; simpl; apply andb_true_iff; split; auto.
Qed.

Lemma entry_forallb (P : Z -> bool) t ch :
  forallb P t = true -> P 0 = true -> P (entry t ch) = true.
Proof.
  intros Ht H0. unfold entry. destruct (t !! Z.to_nat ch) as [x|] eqn:E;
    simpl; [|exact H0].
  rewrite forallb_forall in Ht. apply Ht.
  apply list_elem_of_In. eapply list_elem_of_lookup_2. exact E.
Qed.

Lemma forallb_sweep (P : Z -> bool) n g t :
  (forall ch e, P e = true -> P (g ch e) = true) -> P 0 = true ->
  forallb P t = true -> forallb P (sweep n g t) = true.
Proof.
  intros Hg H0. revert t. induction n as [|k IH]; intros t Ht; simpl;
    [exact Ht|].
  apply IH. apply forallb_store; [exact Ht|].
  apply Hg. apply entry_forallb; assumption.
Qed.

Lemma forallb_update_chars (P : Z -> bool) f t chars :
  (forall e, P e = true -> P (f e) = true) -> P 0 = true ->
  forallb P t = true -> forallb P (update_chars f t chars) = true.
Proof.
  intros Hf H0. revert t. induction chars as [|c rest IH]; intros t Ht; simpl;
    [exact Ht|].
  destruct (to_uchar c =? 0); [exact Ht|].
  apply IH. apply forallb_store; [exact Ht|].
  apply Hf. apply entry_forallb; assumption.
Qed.

(** What a loop over a string does to the entry of one character. *)
Lemma entry_update_chars_closed (P : Z -> Prop) f t chars ch :
  (forall e, P e -> P (f e)) -> 0 <= ch ->
  P (entry t ch) -> P (entry (update_chars f t chars) ch).
Proof.
  intros Hf Hch. revert t. induction chars as [|c rest IH]; intros t Ht; simpl;
    [exact Ht|].
  destruct (to_uchar c =? 0); [exact Ht|].
  apply IH.
  destruct (Z.eq_dec (to_uchar c) ch) as [->|Hne].
  - destruct (Z_lt_dec ch (Z.of_nat (length t))) as [Hlt|Hge].
    + rewrite entry_store_eq by lia. apply Hf. exact Ht.
    + unfold store. rewrite list_insert_ge by lia. exact Ht.
  - pose proof (to_uchar_range c).
    rewrite entry_store_ne by lia. exact Ht.
Qed.

Lemma entry_update_chars_other f t chars ch :
  0 <= ch -> ~ In ch (map to_uchar chars) ->
  entry (update_chars f t chars) ch = entry t ch.
Proof.
  intros Hch. revert t. induction chars as [|c rest IH]; intros t Hin; simpl;
    [reflexivity|].
  destruct (to_uchar c =? 0); [reflexivity|].
  simpl in Hin. rewrite IH by tauto.
  pose proof (to_uchar_range c).
  apply entry_store_ne; [lia | lia | tauto].
Qed.

(** ** Entries, by enumeration *)

Lemma valid_entry_forall2 (P : Z -> Z -> bool) (l : list Z) :
  forallb (fun e => forallb (P e) l) valid_entries = true ->
  forall e c, valid_entry e = true -> In c l -> P e c = true.
Proof.
  intros H e c He Hc.
  pose proof (valid_entry_forall _ H e He) as H1. simpl in H1.
  rewrite forallb_forall in H1. apply H1. exact Hc.
Qed.

Lemma valid_entry_forall3 (P : Z -> Z -> Z -> bool) (l1 l2 : list Z) :
  forallb (fun e => forallb (fun c => forallb (P e c) l2) l1) valid_entries
  = true ->
  forall e c d, valid_entry e = true -> In c l1 -> In d l2 -> P e c d = true.
Proof.
  intros H e c d He Hc Hd.
  pose proof (valid_entry_forall2 _ _ H e c He Hc) as H1. simpl in H1.
  rewrite forallb_forall in H1. apply H1. exact Hd.
Qed.

Lemma add_entry_valid e c :
  valid_entry e = true -> In c all_codes -> valid_entry (add_entry e c) = true.
Proof.
  apply (valid_entry_forall2 (fun e c => valid_entry (add_entry e c))).
  vm_compute. reflexivity.
Qed.

Lemma subtract_entry_valid code e :
  In code all_codes -> valid_entry e = true ->
  valid_entry (subtract_entry code e) = true.
Proof.
  intros Hc He. revert e code He Hc.
  apply (valid_entry_forall2 (fun e c => valid_entry (subtract_entry c e))).
  vm_compute. reflexivity.
Qed.

Lemma clear_entry_valid code e :
  In code all_codes -> valid_entry e = true ->
  valid_entry (clear_entry code e) = true.
Proof.
  intros Hc He. revert e code He Hc.
  apply (valid_entry_forall2 (fun e c => valid_entry (clear_entry c e))).
  vm_compute. reflexivity.
Qed.

Lemma orig_entry_basis ch : In (entry (orig fresh) ch) basis_codes.
Proof.
  apply mem_In.
  apply (entry_forallb (fun x => mem x basis_codes)); reflexivity.
Qed.

Lemma reset_entry_valid code ch e :
  In code all_codes -> valid_entry e = true ->
  valid_entry (reset_entry (orig fresh) code ch e) = true.
Proof.
  intros Hc He. unfold reset_entry.
  pose proof (orig_entry_basis ch) as Hd. revert Hd.
  generalize (entry (orig fresh) ch) as d.
  generalize (ch =? chr "'") as b1. generalize (ch =? NL) as b2.
  intros b2 b1 d Hd. revert e code d He Hc Hd.
  apply (valid_entry_forall3
           (fun e c d => valid_entry (reset_core c b1 b2 d e))).
  destruct b1, b2; vm_compute; reflexivity.
Qed.

Lemma undelimit_core_valid c_start c_end d e :
  In c_start [M4_SYNTAX_LQUOTE; M4_SYNTAX_BCOMM] ->
  In c_end mask_codes ->
  valid_entry e = true -> In d basis_codes ->
  valid_entry (undelimit_core c_start c_end d e) = true.
Proof.
  intros Hs He. revert e d.
  apply (valid_entry_forall2
           (fun e d => valid_entry (undelimit_core c_start c_end d e))).
  destruct Hs as [<- | [<- | []]]; destruct He as [<- | [<- | []]];
    vm_compute; reflexivity.
Qed.

Lemma unquote_entry_valid ch e :
  valid_entry e = true -> valid_entry (unquote_entry (orig fresh) ch e) = true.
Proof.
  intros He. apply undelimit_core_valid;
    [left; reflexivity | left; reflexivity | exact He | apply orig_entry_basis].
Qed.

Lemma uncomment_entry_valid ch e :
  valid_entry e = true ->
  valid_entry (uncomment_entry (orig fresh) ch e) = true.
Proof.
  intros He. apply undelimit_core_valid;
    [right; left; reflexivity | right; left; reflexivity | exact He
    | apply orig_entry_basis].
Qed.

(** ** The quote age *)

Lemma set_quote_age_eq s r c :
  set_quote_age s r c
  = set_quote_age_field
      (set_syntax_age s (if r then syntax_age s else local_syntax_age s r c))
      (if quotes_safe s (local_syntax_age s r c)
       then pack_quote_age s (local_syntax_age s r c) else 0).
Proof.
  unfold set_quote_age, local_syntax_age, age_step.
  destruct r; [|destruct (c && (syntax_age s <? 65535))]; simpl;
    match goal with |- context [quotes_safe ?x ?a] =>
      change (quotes_safe x a) with (quotes_safe s a);
      destruct (quotes_safe s a)
    end; destruct s; reflexivity.
Qed.

Lemma local_syntax_age_reset s c : local_syntax_age s true c = 0.
Proof. reflexivity. Qed.

Lemma local_syntax_age_keep s : local_syntax_age s false false = syntax_age s.
Proof. reflexivity. Qed.

Lemma local_syntax_age_change s :
  0 <= syntax_age s <= 0xffff ->
  local_syntax_age s false true = Z.min (syntax_age s + 1) 0xffff.
Proof.
  intros H. unfold local_syntax_age, age_step. simpl.
  destruct (Z.ltb_spec (syntax_age s) 65535); simpl.
  - unfold to_ushort. rewrite Z.mod_small by lia. lia.
  - lia.
Qed.

Lemma local_syntax_age_range s r c :
  0 <= syntax_age s <= 0xffff -> 0 <= local_syntax_age s r c <= 0xffff.
Proof.
  intros H. destruct r; [rewrite local_syntax_age_reset; lia|].
  destruct c; [rewrite local_syntax_age_change by exact H; lia|].
  rewrite local_syntax_age_keep. exact H.
Qed.

Lemma local_syntax_age_cases s r c :
  0 <= syntax_age s <= 0xffff ->
  local_syntax_age s r c = 0
  \/ local_syntax_age s r c = syntax_age (set_quote_age s r c).
Proof.
  intros H. rewrite set_quote_age_eq. simpl.
  destruct r; [left; reflexivity | right; reflexivity].
Qed.

(** ** Well-formedness is kept *)

Lemma well_formed_set_table s t :
  well_formed s -> length t = all_chars -> forallb valid_entry t = true ->
  well_formed (set_table s t).
Proof. intros [] Hl Hv. constructor; simpl; assumption. Qed.

Lemma well_formed_set_quote_age s r c :
  well_formed s -> well_formed (set_quote_age s r c).
Proof.
  intros []. rewrite set_quote_age_eq. constructor; simpl; try assumption.
  destruct r; [assumption|]. apply local_syntax_age_range. assumption.
Qed.

Lemma well_formed_uncache s :
  well_formed s -> well_formed (m4__quote_uncache s).
Proof. intros []. constructor; simpl; assumption. Qed.

Lemma well_formed_set_is_macro_escaped s b :
  well_formed s -> well_formed (set_is_macro_escaped s b).
Proof. intros []. constructor; simpl; assumption. Qed.

Lemma well_formed_add_syntax_attribute s ch code :
  well_formed s -> In code all_codes ->
  well_formed (add_syntax_attribute s ch code).
Proof.
  intros H Hc. rewrite add_syntax_attribute_eq.
  apply well_formed_set_table; [exact H | | ].
  - rewrite length_store. apply (wf_length _ H).
  - apply forallb_store; [apply (wf_entries _ H)|].
    apply add_entry_valid; [|exact Hc].
    apply entry_forallb; [apply (wf_entries _ H) | reflexivity].
Qed.

(** ** The checkers *)

Lemma scan_delims_found s c1 c2 n lq rq :
  (n <= 256)%nat -> found s c1 lq -> found s c2 rq ->
  found s c1 (fst (fst (scan_delims s c1 c2 n lq rq)))
  /\ found s c2 (snd (fst (scan_delims s c1 c2 n lq rq))).
Proof.
  revert lq rq. induction n as [|k IH]; intros lq rq Hn Hl Hr; simpl;
    [split; assumption|].
  destruct (m4_has_syntax s (Z.of_nat k) c1) eqn:E1; simpl.
  - destruct (negb (lq =? -1)); simpl; [split; assumption|].
    destruct (m4_has_syntax s (Z.of_nat k) c2) eqn:E2; simpl.
    + destruct (negb (rq =? -1)); simpl.
      * split; [right; split; [lia | exact E1] | exact Hr].
      * apply IH; [lia | right; split; [lia | exact E1]
                       | right; split; [lia | exact E2]].
    + apply IH; [lia | right; split; [lia | exact E1] | exact Hr].
  - destruct (m4_has_syntax s (Z.of_nat k) c2) eqn:E2; simpl.
    + destruct (negb (rq =? -1)); simpl; [split; assumption|].
      apply IH; [lia | exact Hl | right; split; [lia | exact E2]].
    + apply IH; [lia | exact Hl | exact Hr].
Qed.

#[local] Arguments sweep : simpl never.
#[local] Arguments for_each_char : simpl never.
#[local] Arguments scan_delims : simpl never.
#[local] Arguments scan_escape : simpl never.
#[local] Arguments all_chars : simpl never.
#[local] Strategy 1000 [sweep for_each_char scan_delims scan_escape all_chars].

Lemma all_chars_le : (all_chars <= 256)%nat.
Proof. exact (le_n 256). Qed.

Ltac split_facts :=
  repeat match goal with |- _ /\ _ => split end;
  try reflexivity; try (intros; discriminate); try (intros; assumption);
  try tauto.

Lemma eta_quote s :
  set_is_single_quotes (set_quote s (quote s)) (is_single_quotes s) = s.
Proof. destruct s; reflexivity. Qed.

Lemma eta_comm s :
  set_is_single_comments (set_comm s (comm s)) (is_single_comments s) = s.
Proof. destruct s; reflexivity. Qed.

Lemma pair_ok_poke p l r :
  pair_ok p -> len1 p = 1 -> len2 p = 1 -> 0 <= l < 256 -> 0 <= r < 256 ->
  pair_ok (mk_pair (poke (str1 p) l) (len1 p) (poke (str2 p) r) (len2 p)).
Proof.
  intros (H1 & H2 & H3 & H4) L1 L2 Hl Hr. unfold pair_ok, strlen in *. simpl.
  destruct (str1 p) as [|x1 [|y1 r1]]; simpl in *; try lia.
  destruct (str2 p) as [|x2 [|y2 r2]]; simpl in *; try lia.
  unfold byte_ok.
  repeat split; try assumption; apply andb_true_iff; split; try reflexivity;
    apply andb_true_iff; split; try (apply Z.leb_le; lia);
    apply Z.ltb_lt; lia.
Qed.

Lemma check_is_single_quotes_spec s :
  single_lengths (is_single_quotes s) (quote s) ->
  exists q b,
    check_is_single_quotes s = Some (set_is_single_quotes (set_quote s q) b)
    /\ len1 q = len1 (quote s) /\ len2 q = len2 (quote s)
    /\ (b = true -> is_single_quotes s = true)
    /\ (b = true ->
        m4_has_syntax s (deref (str1 q)) M4_SYNTAX_LQUOTE = true
        /\ m4_has_syntax s (deref (str2 q)) M4_SYNTAX_RQUOTE = true)
    /\ (pair_ok (quote s) -> pair_ok q).
Proof.
  intros Hlen. unfold check_is_single_quotes.
  destruct (is_single_quotes s) eqn:Hflag; simpl.
  2: { exists (quote s), false. rewrite <- Hflag at 1. rewrite eta_quote.
       split_facts. }
  destruct (Hlen eq_refl) as [L1 L2]. rewrite L1, L2. simpl.
  destruct (m4_has_syntax s (deref (str1 (quote s))) M4_SYNTAX_LQUOTE
            && m4_has_syntax s (deref (str2 (quote s))) M4_SYNTAX_RQUOTE)
    eqn:Hhas.
  { exists (quote s), true. rewrite <- Hflag at 1. rewrite eta_quote.
    apply andb_true_iff in Hhas. split_facts. }
  pose proof (scan_delims_found s M4_SYNTAX_LQUOTE M4_SYNTAX_RQUOTE all_chars
                (-1) (-1) all_chars_le
                (or_introl eq_refl) (or_introl eq_refl)) as [Fl Fr].
  destruct (scan_delims s M4_SYNTAX_LQUOTE M4_SYNTAX_RQUOTE all_chars (-1) (-1))
    as [[lquote rquote] kept]. simpl in Fl, Fr.
  destruct (Z.eqb_spec lquote (-1)) as [El|El]; simpl.
  { exists (quote s), false. destruct kept; split_facts. }
  destruct (Z.eqb_spec rquote (-1)) as [Er|Er]; simpl.
  { exists (quote s), false. destruct kept; split_facts. }
  destruct kept; simpl.
  - rewrite Hflag.
    exists (mk_pair (poke (str1 (quote s)) lquote) (len1 (quote s))
                    (poke (str2 (quote s)) rquote) (len2 (quote s))), true.
    destruct Fl as [|[Rl Fl]]; [contradiction|].
    destruct Fr as [|[Rr Fr]]; [contradiction|].
    split. { rewrite <- Hflag. destruct s; reflexivity. }
    simpl. split_facts.
    + intros _. split.
      * destruct (str1 (quote s)); exact Fl.
      * destruct (str2 (quote s)); exact Fr.
    + intros Hp. apply pair_ok_poke; assumption.
  - exists (quote s), false. split_facts.
Qed.

Lemma check_is_single_comments_spec s :
  single_lengths (is_single_comments s) (comm s) ->
  exists q b,
    check_is_single_comments s
    = Some (set_is_single_comments (set_comm s q) b)
    /\ len1 q = len1 (comm s) /\ len2 q = len2 (comm s)
    /\ (b = true -> is_single_comments s = true)
    /\ (b = true ->
        m4_has_syntax s (deref (str1 q)) M4_SYNTAX_BCOMM = true
        /\ m4_has_syntax s (deref (str2 q)) M4_SYNTAX_ECOMM = true)
    /\ (pair_ok (comm s) -> pair_ok q).
Proof.
  intros Hlen. unfold check_is_single_comments.
  destruct (is_single_comments s) eqn:Hflag; simpl.
  2: { exists (comm s), false. rewrite <- Hflag at 1. rewrite eta_comm.
       split_facts. }
  destruct (Hlen eq_refl) as [L1 L2]. rewrite L1, L2. simpl.
  destruct (m4_has_syntax s (deref (str1 (comm s))) M4_SYNTAX_BCOMM
            && m4_has_syntax s (deref (str2 (comm s))) M4_SYNTAX_ECOMM)
    eqn:Hhas.
  { exists (comm s), true. rewrite <- Hflag at 1. rewrite eta_comm.
    apply andb_true_iff in Hhas. split_facts. }
  pose proof (scan_delims_found s M4_SYNTAX_BCOMM M4_SYNTAX_ECOMM all_chars
                (-1) (-1) all_chars_le
                (or_introl eq_refl) (or_introl eq_refl)) as [Fl Fr].
  destruct (scan_delims s M4_SYNTAX_BCOMM M4_SYNTAX_ECOMM all_chars (-1) (-1))
    as [[bcomm ecomm] kept]. simpl in Fl, Fr.
  destruct (Z.eqb_spec bcomm (-1)) as [El|El]; simpl.
  { exists (comm s), false. destruct kept; split_facts. }
  destruct (Z.eqb_spec ecomm (-1)) as [Er|Er]; simpl.
  { exists (comm s), false. destruct kept; split_facts. }
  destruct kept; simpl.
  - rewrite Hflag.
    exists (mk_pair (poke (str1 (comm s)) bcomm) (len1 (comm s))
                    (poke (str2 (comm s)) ecomm) (len2 (comm s))), true.
    destruct Fl as [|[Rl Fl]]; [contradiction|].
    destruct Fr as [|[Rr Fr]]; [contradiction|].
    split. { rewrite <- Hflag. destruct s; reflexivity. }
    simpl. split_facts.
    + intros _. split.
      * destruct (str1 (comm s)); exact Fl.
      * destruct (str2 (comm s)); exact Fr.
    + intros Hp. apply pair_ok_poke; assumption.
  - exists (comm s), false. split_facts.
Qed.

(** ** The changesyntax verbs *)

Lemma m4_set_syntax_reset s action chars :
  m4_set_syntax s NUL action chars
  = Some (set_quote_age (restore_defaults s) true false, 0).
Proof.
  unfold m4_set_syntax. simpl. rewrite orb_true_r. reflexivity.
Qed.

Lemma m4_set_syntax_unknown s key action chars :
  key <> NUL -> m4_syntax_code key < 0 ->
  m4_set_syntax s key action (Some chars) = Some (s, -1).
Proof.
  intros Hk Hc. unfold m4_set_syntax. simpl.
  destruct (Z.eqb_spec key NUL); [contradiction|].
  destruct (Z.ltb_spec (m4_syntax_code key) 0); [reflexivity | lia].
Qed.

Lemma m4_set_syntax_verb s key action chars :
  key <> NUL -> 0 <= m4_syntax_code key ->
  m4_set_syntax s key action (Some chars)
  = let? s1 := verb_body s action chars (m4_syntax_code key) in
    Some (m4__quote_uncache (set_quote_age s1 false true), m4_syntax_code key).
Proof.
  intros Hk Hc. unfold m4_set_syntax, verb_body. simpl.
  destruct (Z.eqb_spec key NUL); [contradiction|].
  destruct (Z.ltb_spec (m4_syntax_code key) 0); [lia | reflexivity].
Qed.

Lemma well_formed_restore_defaults s :
  well_formed s -> well_formed (restore_defaults s).
Proof.
  intros H. unfold restore_defaults.
  assert (well_formed (set_comm (set_quote (set_table s (orig s))
            (mk_pair DEF_LQUOTE 1 DEF_RQUOTE 1))
            (mk_pair DEF_BCOMM 1 DEF_ECOMM 1))) as H1.
  { destruct H. constructor; simpl; try assumption.
    - rewrite wf_orig0. reflexivity.
    - rewrite wf_orig0. reflexivity.
    - repeat split; reflexivity.
    - repeat split; reflexivity.
    - intros _. split; reflexivity.
    - intros _. split; reflexivity. }
  apply (well_formed_add_syntax_attribute _
           (to_uchar (deref (str2 (quote (set_comm (set_quote
              (set_table s (orig s)) (mk_pair DEF_LQUOTE 1 DEF_RQUOTE 1))
              (mk_pair DEF_BCOMM 1 DEF_ECOMM 1))))))
           M4_SYNTAX_RQUOTE) in H1; [|apply mem_In; reflexivity].
  match type of H1 with well_formed ?x =>
    apply (well_formed_add_syntax_attribute x
             (to_uchar (deref (str2 (comm x)))) M4_SYNTAX_ECOMM) in H1;
      [|apply mem_In; reflexivity]
  end.
  destruct H1. constructor; simpl; try assumption.
  - intros _. split; reflexivity.
  - intros _. split; reflexivity.
Qed.

Lemma add_syntax_set_eq s chars code :
  add_syntax_set s chars code
  = if deref chars =? NUL then s
    else set_table
           (if code =? M4_SYNTAX_ESCAPE then set_is_macro_escaped s true else s)
           (update_chars (fun e => add_entry e code) (table s) chars).
Proof.
  unfold add_syntax_set. destruct (deref chars =? NUL); [reflexivity|].
  rewrite add_chars_eq. destruct (code =? M4_SYNTAX_ESCAPE); reflexivity.
Qed.

Lemma subtract_syntax_set_eq s chars code :
  subtract_syntax_set s chars code
  = if deref chars =? NUL then Some s
    else
      let s := set_table s
                 (update_chars (subtract_entry code) (table s) chars) in
      if code =? M4_SYNTAX_ESCAPE
      then Some (if is_macro_escaped s then check_is_macro_escaped s else s)
      else if (code =? M4_SYNTAX_LQUOTE) || (code =? M4_SYNTAX_RQUOTE)
      then (if is_single_quotes s then check_is_single_quotes s else Some s)
      else if (code =? M4_SYNTAX_BCOMM) || (code =? M4_SYNTAX_ECOMM)
      then (if is_single_comments s then check_is_single_comments s
            else Some s)
      else Some s.
Proof.
  unfold subtract_syntax_set. destruct (deref chars =? NUL); [reflexivity|].
  rewrite subtract_chars_eq. reflexivity.
Qed.

Lemma set_syntax_set_eq s chars code :
  set_syntax_set s chars code
  = let s := check_is_macro_escaped
               (set_table s
                  (update_chars (fun e => add_entry e code)
                     (sweep all_chars (fun _ => clear_entry code) (table s))
                     chars)) in
    let? s := check_is_single_quotes s in
    check_is_single_comments s.
Proof.
  unfold set_syntax_set. rewrite sweep_clear. rewrite add_chars_eq.
  reflexivity.
Qed.

Lemma reset_syntax_set_eq s code :
  reset_syntax_set s code
  = let s := check_is_macro_escaped
               (set_table s
                  (sweep all_chars (reset_entry (orig s) code) (table s))) in
    let? s := check_is_single_quotes s in
    check_is_single_comments s.
Proof.
  unfold reset_syntax_set. rewrite sweep_reset. reflexivity.
Qed.

(** The two checkers of delimiters, run one after the other. *)
Lemma checkers_spec s :
  single_lengths (is_single_quotes s) (quote s) ->
  single_lengths (is_single_comments s) (comm s) ->
  exists q b q' b',
    (let? s1 := check_is_single_quotes s in check_is_single_comments s1)
    = Some (set_is_single_comments
              (set_comm (set_is_single_quotes (set_quote s q) b) q') b')
    /\ (len1 q = len1 (quote s) /\ len2 q = len2 (quote s)
        /\ (b = true -> is_single_quotes s = true)
        /\ (b = true ->
            m4_has_syntax s (deref (str1 q)) M4_SYNTAX_LQUOTE = true
            /\ m4_has_syntax s (deref (str2 q)) M4_SYNTAX_RQUOTE = true)
        /\ (pair_ok (quote s) -> pair_ok q))
    /\ (len1 q' = len1 (comm s) /\ len2 q' = len2 (comm s)
        /\ (b' = true -> is_single_comments s = true)
        /\ (b' = true ->
            m4_has_syntax s (deref (str1 q')) M4_SYNTAX_BCOMM = true
            /\ m4_has_syntax s (deref (str2 q')) M4_SYNTAX_ECOMM = true)
        /\ (pair_ok (comm s) -> pair_ok q')).
Proof.
  intros Hq Hc.
  destruct (check_is_single_quotes_spec s Hq) as (q & b & E & Fq).
  rewrite E.
  destruct (check_is_single_comments_spec
              (set_is_single_quotes (set_quote s q) b) Hc)
    as (q' & b' & E' & Fc).
  rewrite E'. exists q, b, q', b'. split; [reflexivity|].
  split; [exact Fq | exact Fc].
Qed.

Lemma well_formed_checkers s q b q' b' :
  well_formed s ->
  len1 q = len1 (quote s) /\ len2 q = len2 (quote s)
  /\ (b = true -> is_single_quotes s = true)
  /\ (b = true ->
      m4_has_syntax s (deref (str1 q)) M4_SYNTAX_LQUOTE = true
      /\ m4_has_syntax s (deref (str2 q)) M4_SYNTAX_RQUOTE = true)
  /\ (pair_ok (quote s) -> pair_ok q) ->
  len1 q' = len1 (comm s) /\ len2 q' = len2 (comm s)
  /\ (b' = true -> is_single_comments s = true)
  /\ (b' = true ->
      m4_has_syntax s (deref (str1 q')) M4_SYNTAX_BCOMM = true
      /\ m4_has_syntax s (deref (str2 q')) M4_SYNTAX_ECOMM = true)
  /\ (pair_ok (comm s) -> pair_ok q') ->
  well_formed (set_is_single_comments
                 (set_comm (set_is_single_quotes (set_quote s q) b) q') b').
Proof.
  intros [] (L1 & L2 & Hb & _ & Hp) (L1' & L2' & Hb' & _ & Hp').
  constructor; simpl; auto.
  - intros ->. rewrite L1, L2. auto.
  - intros ->. rewrite L1', L2'. auto.
Qed.

Lemma well_formed_check_quotes s q b :
  well_formed s ->
  len1 q = len1 (quote s) /\ len2 q = len2 (quote s)
  /\ (b = true -> is_single_quotes s = true)
  /\ (b = true ->
      m4_has_syntax s (deref (str1 q)) M4_SYNTAX_LQUOTE = true
      /\ m4_has_syntax s (deref (str2 q)) M4_SYNTAX_RQUOTE = true)
  /\ (pair_ok (quote s) -> pair_ok q) ->
  well_formed (set_is_single_quotes (set_quote s q) b).
Proof.
  intros [] (L1 & L2 & Hb & _ & Hp).
  constructor; simpl; auto.
  intros ->. rewrite L1, L2. auto.
Qed.

Lemma well_formed_check_comments s q b :
  well_formed s ->
  len1 q = len1 (comm s) /\ len2 q = len2 (comm s)
  /\ (b = true -> is_single_comments s = true)
  /\ (b = true ->
      m4_has_syntax s (deref (str1 q)) M4_SYNTAX_BCOMM = true
      /\ m4_has_syntax s (deref (str2 q)) M4_SYNTAX_ECOMM = true)
  /\ (pair_ok (comm s) -> pair_ok q) ->
  well_formed (set_is_single_comments (set_comm s q) b).
Proof.
  intros [] (L1 & L2 & Hb & _ & Hp).
  constructor; simpl; auto.
  intros ->. rewrite L1, L2. auto.
Qed.

Lemma well_formed_update_chars s f chars :
  well_formed s ->
  (forall e, valid_entry e = true -> valid_entry (f e) = true) ->
  well_formed (set_table s (update_chars f (table s) chars)).
Proof.
  intros H Hf. apply well_formed_set_table; [exact H | | ].
  - rewrite length_update_chars. apply (wf_length _ H).
  - apply forallb_update_chars; [exact Hf | reflexivity | apply (wf_entries _ H)].
Qed.

Lemma well_formed_sweep s g :
  well_formed s ->
  (forall ch e, valid_entry e = true -> valid_entry (g ch e) = true) ->
  well_formed (set_table s (sweep all_chars g (table s))).
Proof.
  intros H Hg. apply well_formed_set_table; [exact H | | ].
  - rewrite length_sweep. apply (wf_length _ H).
  - apply forallb_sweep; [exact Hg | reflexivity | apply (wf_entries _ H)].
Qed.

Lemma well_formed_add_syntax_set s chars code :
  well_formed s -> In code all_codes ->
  well_formed (add_syntax_set s chars code).
Proof.
  intros H Hc. rewrite add_syntax_set_eq.
  destruct (deref chars =? NUL); [exact H|].
  assert (well_formed (if code =? M4_SYNTAX_ESCAPE
                       then set_is_macro_escaped s true else s)) as H1.
  { destruct (code =? M4_SYNTAX_ESCAPE);
      [apply well_formed_set_is_macro_escaped|]; exact H. }
  replace (table s)
    with (table (if code =? M4_SYNTAX_ESCAPE
                 then set_is_macro_escaped s true else s))
    by (destruct (code =? M4_SYNTAX_ESCAPE); reflexivity).
  apply well_formed_update_chars; [exact H1|].
  intros e He. apply add_entry_valid; assumption.
Qed.

Lemma well_formed_subtract_syntax_set s chars code :
  well_formed s -> In code all_codes ->
  exists s1, subtract_syntax_set s chars code = Some s1 /\ well_formed s1
             /\ syntax_age s1 = syntax_age s.
Proof.
  intros H Hc. rewrite subtract_syntax_set_eq.
  destruct (deref chars =? NUL); [exists s; auto|].
  pose proof (well_formed_update_chars s (subtract_entry code) chars H
                (fun e => subtract_entry_valid code e Hc)) as H1.
  cbv zeta.
  set (x := set_table s (update_chars (subtract_entry code) (table s) chars))
    in *.
  destruct (code =? M4_SYNTAX_ESCAPE).
  { eexists. split; [reflexivity|].
    destruct (is_macro_escaped x); [|split; [exact H1 | reflexivity]].
    split; [|reflexivity].
    apply well_formed_set_is_macro_escaped. exact H1. }
  destruct ((code =? M4_SYNTAX_LQUOTE) || (code =? M4_SYNTAX_RQUOTE)).
  { destruct (is_single_quotes x) eqn:E; [|exists x; auto].
    destruct (check_is_single_quotes_spec x (wf_single_quotes _ H1))
      as (q & b & Eq & F).
    rewrite Eq. eexists. split; [reflexivity|]. split; [|reflexivity].
    apply well_formed_check_quotes; assumption. }
  destruct ((code =? M4_SYNTAX_BCOMM) || (code =? M4_SYNTAX_ECOMM)).
  { destruct (is_single_comments x) eqn:E; [|exists x; auto].
    destruct (check_is_single_comments_spec x (wf_single_comments _ H1))
      as (q & b & Eq & F).
    rewrite Eq. eexists. split; [reflexivity|]. split; [|reflexivity].
    apply well_formed_check_comments; assumption. }
  exists x. auto.
Qed.

Lemma well_formed_after_checkers s :
  well_formed s ->
  exists s1,
    (let? s1 := check_is_single_quotes s in check_is_single_comments s1)
    = Some s1 /\ well_formed s1 /\ syntax_age s1 = syntax_age s.
Proof.
  intros H.
  destruct (checkers_spec s (wf_single_quotes _ H) (wf_single_comments _ H))
    as (q & b & q' & b' & E & Fq & Fc).
  rewrite E. eexists. split; [reflexivity|]. split; [|reflexivity].
  apply well_formed_checkers; assumption.
Qed.

Lemma well_formed_set_syntax_set s chars code :
  well_formed s -> In code all_codes ->
  exists s1, set_syntax_set s chars code = Some s1 /\ well_formed s1
             /\ syntax_age s1 = syntax_age s.
Proof.
  intros H Hc. rewrite set_syntax_set_eq. cbv zeta.
  match goal with |- context [check_is_single_quotes ?x] =>
    change (syntax_age s) with (syntax_age x) end.
  apply well_formed_after_checkers.
  apply well_formed_set_is_macro_escaped.
  pose proof (well_formed_sweep s (fun _ => clear_entry code) H
                (fun _ e => clear_entry_valid code e Hc)) as H1.
  apply (well_formed_update_chars _ (fun e => add_entry e code) chars) in H1.
  - simpl in H1. exact H1.
  - intros e He. apply add_entry_valid; assumption.
Qed.

Lemma well_formed_reset_syntax_set s code :
  well_formed s -> In code all_codes ->
  exists s1, reset_syntax_set s code = Some s1 /\ well_formed s1
             /\ syntax_age s1 = syntax_age s.
Proof.
  intros H Hc. rewrite reset_syntax_set_eq. cbv zeta.
  match goal with |- context [check_is_single_quotes ?x] =>
    change (syntax_age s) with (syntax_age x) end.
  apply well_formed_after_checkers.
  apply well_formed_set_is_macro_escaped.
  apply well_formed_sweep; [exact H|].
  intros ch e He. rewrite (wf_orig _ H).
  apply reset_entry_valid; assumption.
Qed.

Lemma syntax_age_add_syntax_set s chars code :
  syntax_age (add_syntax_set s chars code) = syntax_age s.
Proof.
  rewrite add_syntax_set_eq. destruct (deref chars =? NUL); [reflexivity|].
  destruct (code =? M4_SYNTAX_ESCAPE); reflexivity.
Qed.

Lemma valid_action_cases action :
  valid_action action = true ->
  action = chr "+" \/ action = chr "-" \/ action = chr "=" \/ action = NUL.
Proof.
  unfold valid_action. intros H.
  repeat (apply orb_true_iff in H as [H | H]); apply Z.eqb_eq in H; auto.
Qed.

Lemma verb_body_valid_action s action chars code s1 :
  verb_body s action chars code = Some s1 -> valid_action action = true.
Proof.
  unfold verb_body, valid_action.
  destruct (action =? chr "+"); [reflexivity|].
  destruct (action =? chr "-"); [reflexivity|].
  destruct (action =? chr "="); [reflexivity|].
  destruct (action =? NUL); [reflexivity|]. discriminate.
Qed.

Lemma well_formed_verb_body s action chars code :
  well_formed s -> In code all_codes -> valid_action action = true ->
  exists s1, verb_body s action chars code = Some s1 /\ well_formed s1
             /\ syntax_age s1 = syntax_age s.
Proof.
  intros H Hc Ha. unfold verb_body.
  destruct (valid_action_cases _ Ha) as [-> | [-> | [-> | ->]]]; simpl.
  - eexists. split; [reflexivity|].
    split; [apply well_formed_add_syntax_set; assumption|].
    apply syntax_age_add_syntax_set.
  - apply well_formed_subtract_syntax_set; assumption.
  - apply well_formed_set_syntax_set; assumption.
  - apply well_formed_reset_syntax_set; assumption.
Qed.

(** ** The installers *)

Lemma m4_set_quotes_eq s lq rq :
  length (table s) = all_chars ->
  m4_set_quotes s lq rq
  = if streq (str1 (quote s)) (fst (quote_args lq rq))
       && streq (str2 (quote s)) (snd (quote_args lq rq))
    then Some s
    else Some (set_quote_age
                 (install_quotes s (fst (quote_args lq rq))
                                   (snd (quote_args lq rq))) false false).
Proof.
  intros Hlen. unfold m4_set_quotes, install_quotes.
  destruct (quote_args lq rq) as [l r]. simpl fst. simpl snd.
  destruct (streq (str1 (quote s)) l && streq (str2 (quote s)) r);
    [reflexivity|].
  rewrite sweep_unquote by exact Hlen. reflexivity.
Qed.

Lemma m4_set_comment_eq s bc ec :
  length (table s) = all_chars ->
  m4_set_comment s bc ec
  = if streq (str1 (comm s)) (fst (comment_args bc ec))
       && streq (str2 (comm s)) (snd (comment_args bc ec))
    then Some s
    else Some (set_quote_age
                 (install_comment s (fst (comment_args bc ec))
                                    (snd (comment_args bc ec))) false false).
Proof.
  intros Hlen. unfold m4_set_comment, install_comment.
  destruct (comment_args bc ec) as [b e]. simpl fst. simpl snd.
  destruct (streq (str1 (comm s)) b && streq (str2 (comm s)) e);
    [reflexivity|].
  rewrite sweep_uncomment by exact Hlen. reflexivity.
Qed.

Lemma c_string_bytes l : c_string l = true -> forallb byte_ok l = true.
Proof.
  unfold c_string. rewrite !forallb_forall. intros H x Hx.
  specialize (H x Hx). unfold c_char in H. unfold byte_ok.
  apply andb_true_iff in H as [H1 H2]. apply Z.ltb_lt in H1.
  rewrite H2. apply andb_true_iff. split; [apply Z.leb_le; lia | reflexivity].
Qed.

Lemma quote_args_bytes lq rq :
  c_string_opt lq = true -> c_string_opt rq = true ->
  forallb byte_ok (fst (quote_args lq rq)) = true
  /\ forallb byte_ok (snd (quote_args lq rq)) = true.
Proof.
  intros Hl Hr. unfold quote_args.
  destruct lq as [l|]; [|split; reflexivity].
  destruct rq as [r|]; simpl in *.
  - destruct (truthy (deref l) && negb (truthy (deref r))); simpl;
      split; try reflexivity; apply c_string_bytes; assumption.
  - split; [apply c_string_bytes; assumption | reflexivity].
Qed.

Lemma comment_args_bytes bc ec :
  c_string_opt bc = true -> c_string_opt ec = true ->
  forallb byte_ok (fst (comment_args bc ec)) = true
  /\ forallb byte_ok (snd (comment_args bc ec)) = true.
Proof.
  intros Hl Hr. unfold comment_args.
  destruct bc as [l|]; [|split; reflexivity].
  destruct ec as [r|]; simpl in *.
  - destruct (truthy (deref l) && negb (truthy (deref r))); simpl;
      split; try reflexivity; apply c_string_bytes; assumption.
  - split; [apply c_string_bytes; assumption | reflexivity].
Qed.

Lemma well_formed_install_quotes s lq rq :
  well_formed s ->
  forallb byte_ok lq = true -> forallb byte_ok rq = true ->
  well_formed (install_quotes s lq rq).
Proof.
  intros H Hl Hr. unfold install_quotes.
  set (flag := (len1 (quote (set_quote s (mk_pair lq (strlen lq) rq (strlen rq)))) =? 1)
               && (len2 (quote (set_quote s (mk_pair lq (strlen lq) rq (strlen rq)))) =? 1)
               && negb (m4_has_syntax (set_quote s (mk_pair lq (strlen lq) rq (strlen rq)))
                          (deref (str1 (quote (set_quote s (mk_pair lq (strlen lq) rq (strlen rq))))))
                          lquote_blockers)).
  assert (well_formed (set_is_single_quotes
            (set_quote s (mk_pair lq (strlen lq) rq (strlen rq))) flag)) as H1.
  { destruct H. constructor; simpl; auto.
    - repeat split; assumption.
    - intros Hf. subst flag. simpl in Hf.
      apply andb_true_iff in Hf as [Hf _]. apply andb_true_iff in Hf as [A B].
      apply Z.eqb_eq in A, B. auto. }
  apply (well_formed_sweep _ (unquote_entry (orig s))) in H1.
  2: { intros ch e He. rewrite (wf_orig _ H). apply unquote_entry_valid.
       exact He. }
  cbv zeta. simpl orig. simpl table.
  match type of H1 with well_formed ?x => set (s1 := x) in * end.
  assert (well_formed
    (if is_single_quotes s1
     then add_syntax_attribute
            (add_syntax_attribute s1 (to_uchar (deref (str1 (quote s1))))
               M4_SYNTAX_LQUOTE)
            (to_uchar (deref (str2 (quote
               (add_syntax_attribute s1 (to_uchar (deref (str1 (quote s1))))
                  M4_SYNTAX_LQUOTE)))))
            M4_SYNTAX_RQUOTE
     else s1)) as H2.
  { destruct (is_single_quotes s1); [|exact H1].
    apply well_formed_add_syntax_attribute; [|apply mem_In; reflexivity].
    apply well_formed_add_syntax_attribute; [exact H1|apply mem_In; reflexivity]. }
  match type of H2 with well_formed ?x => set (s2 := x) in * end.
  change (well_formed (if is_macro_escaped s2 then check_is_macro_escaped s2
                       else s2)).
  destruct (is_macro_escaped s2); [|exact H2].
  apply well_formed_set_is_macro_escaped. exact H2.
Qed.

Lemma well_formed_install_comment s bc ec :
  well_formed s ->
  forallb byte_ok bc = true -> forallb byte_ok ec = true ->
  well_formed (install_comment s bc ec).
Proof.
  intros H Hl Hr. unfold install_comment.
  set (flag := (len1 (comm (set_comm s (mk_pair bc (strlen bc) ec (strlen ec)))) =? 1)
               && (len2 (comm (set_comm s (mk_pair bc (strlen bc) ec (strlen ec)))) =? 1)
               && negb (m4_has_syntax (set_comm s (mk_pair bc (strlen bc) ec (strlen ec)))
                          (deref (str1 (comm (set_comm s (mk_pair bc (strlen bc) ec (strlen ec))))))
                          bcomm_blockers)).
  assert (well_formed (set_is_single_comments
            (set_comm s (mk_pair bc (strlen bc) ec (strlen ec))) flag)) as H1.
  { destruct H. constructor; simpl; auto.
    - repeat split; assumption.
    - intros Hf. subst flag. simpl in Hf.
      apply andb_true_iff in Hf as [Hf _]. apply andb_true_iff in Hf as [A B].
      apply Z.eqb_eq in A, B. auto. }
  apply (well_formed_sweep _ (uncomment_entry (orig s))) in H1.
  2: { intros ch e He. rewrite (wf_orig _ H). apply uncomment_entry_valid.
       exact He. }
  cbv zeta. simpl orig. simpl table.
  match type of H1 with well_formed ?x => set (s1 := x) in * end.
  assert (well_formed
    (if is_single_comments s1
     then add_syntax_attribute
            (add_syntax_attribute s1 (to_uchar (deref (str1 (comm s1))))
               M4_SYNTAX_BCOMM)
            (to_uchar (deref (str2 (comm
               (add_syntax_attribute s1 (to_uchar (deref (str1 (comm s1))))
                  M4_SYNTAX_BCOMM)))))
            M4_SYNTAX_ECOMM
     else s1)) as H2.
  { destruct (is_single_comments s1); [|exact H1].
    apply well_formed_add_syntax_attribute; [|apply mem_In; reflexivity].
    apply well_formed_add_syntax_attribute; [exact H1|apply mem_In; reflexivity]. }
  match type of H2 with well_formed ?x => set (s2 := x) in * end.
  change (well_formed (if is_macro_escaped s2 then check_is_macro_escaped s2
                       else s2)).
  destruct (is_macro_escaped s2); [|exact H2].
  apply well_formed_set_is_macro_escaped. exact H2.
Qed.

Lemma syntax_age_install_quotes s lq rq :
  syntax_age (install_quotes s lq rq) = syntax_age s.
Proof.
  unfold install_quotes. cbv zeta.
  repeat match goal with
  | |- context [if ?b then _ else _] => destruct b
  end; rewrite ?add_syntax_attribute_eq; reflexivity.
Qed.

Lemma syntax_age_install_comment s bc ec :
  syntax_age (install_comment s bc ec) = syntax_age s.
Proof.
  unfold install_comment. cbv zeta.
  repeat match goal with
  | |- context [if ?b then _ else _] => destruct b
  end; rewrite ?add_syntax_attribute_eq; reflexivity.
Qed.

Lemma syntax_age_restore_defaults s :
  syntax_age (restore_defaults s) = syntax_age s.
Proof.
  unfold restore_defaults. cbv zeta. rewrite !add_syntax_attribute_eq.
  reflexivity.
Qed.

(** ** Operations *)

Lemma recache_same s :
  recache s (cached_quote s) (cached_lquote s) (cached_rquote s) = s.
Proof. destruct s; reflexivity. Qed.

Lemma well_formed_recache s c l r :
  well_formed s -> well_formed (recache s c l r).
Proof. intros []. constructor; simpl; assumption. Qed.

Lemma recache_bytes s l r :
  set_cached_bytes s l r = recache s (cached_quote s) l r.
Proof. reflexivity. Qed.

Lemma recache_quote s c :
  set_cached_quote s c = recache s c (cached_lquote s) (cached_rquote s).
Proof. reflexivity. Qed.

Lemma m4__quote_cache_recache s obs age q s' o' res :
  m4__quote_cache s obs age q = Some (s', o', res) ->
  exists c l r, s' = recache s c l r.
Proof.
  unfold m4__quote_cache. intros H.
  assert (exists c l r, s = recache s c l r) as Hs.
  { eexists _, _, _. symmetry. apply recache_same. }
  destruct q as [| |p].
  - injection H as <- _ _. exact Hs.
  - destruct (truthy age).
    { injection H as <- _ _. eexists _, _, _. apply recache_bytes. }
    destruct obs as [o|]; [|injection H as <- _ _; exact Hs].
    simpl in H. destruct (cached_quote s) eqn:E.
    { injection H as <- _ _. exact Hs. }
    destruct (object_size o =? 0); simpl in H; [|discriminate].
    injection H as <- _ _. eexists _, _, _. apply recache_quote.
  - destruct (truthy age).
    { injection H as <- _ _. eexists _, _, _. apply recache_bytes. }
    destruct obs as [o|]; [|injection H as <- _ _; exact Hs].
    simpl in H. discriminate.
Qed.

(** Every operation either leaves all but the cache as it was, or ends
    in [set_quote_age] on a well-formed table of the same syntax age. *)
Lemma run_op_cases s op s' :
  well_formed s -> well_formed_op op = true -> run_op op s = Some s' ->
  (is_verb op = false /\ exists c l r, s' = recache s c l r)
  \/ (exists s1 reset c l r,
        well_formed s1 /\ syntax_age s1 = syntax_age s
        /\ (reset = true -> is_verb op = false)
        /\ s' = recache (set_quote_age s1 reset (is_verb op)) c l r).
Proof.
  intros Hwf Hop Hrun.
  assert (exists c l r, s = recache s c l r) as Hs.
  { eexists _, _, _. symmetry. apply recache_same. }
  destruct op as [key action chars | lq rq | bc ec | obs age q]; simpl in *.
  - destruct (Z.eq_dec key NUL) as [->|Hk].
    { rewrite m4_set_syntax_reset in Hrun. injection Hrun as <-.
      right. exists (restore_defaults s), true. eexists _, _, _.
      split; [apply well_formed_restore_defaults; exact Hwf|].
      split; [apply syntax_age_restore_defaults|].
      split; [reflexivity|]. symmetry. apply recache_same. }
    destruct chars as [chars|].
    2: { unfold m4_set_syntax in Hrun. simpl in Hrun.
         destruct (Z.eqb_spec key NUL); [contradiction|]. discriminate. }
    assert ((key =? NUL) = false) as Hk' by (apply Z.eqb_neq; exact Hk).
    rewrite Hk'. simpl.
    destruct (Z_lt_dec (m4_syntax_code key) 0) as [Hc|Hc].
    { rewrite m4_set_syntax_unknown in Hrun by assumption.
      injection Hrun as <-. left. split; [|exact Hs].
      apply Z.leb_gt. exact Hc. }
    rewrite m4_set_syntax_verb in Hrun by lia.
    destruct (verb_body s action chars (m4_syntax_code key)) as [s1|] eqn:Hv;
      [|discriminate].
    injection Hrun as <-.
    assert (In (m4_syntax_code key) all_codes) as Hin.
    { destruct (m4_syntax_code_cases key); [lia | assumption]. }
    destruct (well_formed_verb_body s action chars _ Hwf Hin
                (verb_body_valid_action _ _ _ _ _ Hv)) as (s1' & E & W & A).
    rewrite Hv in E. injection E as <-.
    right. exists s1, false. eexists _, _, _.
    split; [exact W|]. split; [exact A|]. split; [discriminate|].
    assert ((0 <=? m4_syntax_code key) = true) as -> by (apply Z.leb_le; lia).
    unfold m4__quote_uncache.
    rewrite <- (recache_same (set_quote_age s1 false true)) at 1.
    reflexivity.
  - apply andb_true_iff in Hop as [Hl Hr].
    rewrite m4_set_quotes_eq in Hrun by apply (wf_length _ Hwf).
    destruct (streq _ _ && streq _ _).
    { injection Hrun as <-. left. split; [reflexivity | exact Hs]. }
    injection Hrun as <-. right.
    destruct (quote_args_bytes lq rq Hl Hr) as [B1 B2].
    exists (install_quotes s (fst (quote_args lq rq)) (snd (quote_args lq rq))),
      false.
    eexists _, _, _.
    split; [apply well_formed_install_quotes; assumption|].
    split; [apply syntax_age_install_quotes|].
    split; [discriminate|]. symmetry. apply recache_same.
  - apply andb_true_iff in Hop as [Hl Hr].
    rewrite m4_set_comment_eq in Hrun by apply (wf_length _ Hwf).
    destruct (streq _ _ && streq _ _).
    { injection Hrun as <-. left. split; [reflexivity | exact Hs]. }
    injection Hrun as <-. right.
    destruct (comment_args_bytes bc ec Hl Hr) as [B1 B2].
    exists (install_comment s (fst (comment_args bc ec))
              (snd (comment_args bc ec))), false.
    eexists _, _, _.
    split; [apply well_formed_install_comment; assumption|].
    split; [apply syntax_age_install_comment|].
    split; [discriminate|]. symmetry. apply recache_same.
  - destruct (m4__quote_cache s obs age q) as [[[s1 o1] r1]|] eqn:E;
      [|discriminate].
    injection Hrun as <-. left. split; [reflexivity|].
    eapply m4__quote_cache_recache. exact E.
Qed.

Lemma m4_syntax_create_fresh : m4_syntax_create = Some fresh.
Proof. vm_compute. reflexivity. Qed.

Lemma well_formed_fresh : well_formed fresh.
Proof.
  constructor; try reflexivity.
  - repeat split; reflexivity.
  - repeat split; reflexivity.
  - intros _. split; reflexivity.
  - intros _. split; reflexivity.
  - simpl. lia.
Qed.

Lemma run_op_well_formed s op s' :
  well_formed s -> well_formed_op op = true -> run_op op s = Some s' ->
  well_formed s'.
Proof.
  intros Hwf Hop Hrun.
  destruct (run_op_cases s op s' Hwf Hop Hrun)
    as [(_ & c & l & r & ->) | (s1 & reset & c & l & r & W & _ & _ & ->)].
  - apply well_formed_recache. exact Hwf.
  - apply well_formed_recache. apply well_formed_set_quote_age. exact W.
Qed.

Lemma reachable_well_formed s : reachable s -> well_formed s.
Proof.
  induction 1 as [s Hs | s op s' _ IH Hop Hrun].
  - rewrite m4_syntax_create_fresh in Hs. injection Hs as <-.
    apply well_formed_fresh.
  - eapply run_op_well_formed; eassumption.
Qed.

(** ** Bits *)

Lemma lor_bound a b n :
  0 < n -> 0 <= a < 2 ^ n -> 0 <= b < 2 ^ n -> 0 <= Z.lor a b < 2 ^ n.
Proof.
  intros Hn Ha Hb. split; [apply Z.lor_nonneg; lia|].
  destruct (Z.eq_dec (Z.lor a b) 0) as [->|Hne]; [lia|].
  assert (0 <= Z.lor a b) by (apply Z.lor_nonneg; lia).
  apply Z.log2_lt_pow2; [lia|].
  rewrite Z.log2_lor by lia.
  apply Z.max_lub_lt.
  - destruct (Z.eq_dec a 0) as [->|]; [simpl; lia|].
    apply Z.log2_lt_pow2; lia.
  - destruct (Z.eq_dec b 0) as [->|]; [simpl; lia|].
    apply Z.log2_lt_pow2; lia.
Qed.

Lemma land_byte c : 0 <= c < 256 -> Z.land c 0xff = c.
Proof.
  intros H. change 0xff with (Z.ones 8). rewrite Z.land_ones by lia.
  apply Z.mod_small. exact H.
Qed.

Lemma pack_quote_age_eq s age :
  0 <= age < 0xffff ->
  0 <= left_quote_byte s < 256 -> 0 <= right_quote_byte s < 256 ->
  pack_quote_age s age
  = Z.lor (Z.lor (Z.shiftl age 16) (Z.shiftl (left_quote_byte s) 8))
          (right_quote_byte s).
Proof.
  intros Ha Hl Hr. unfold pack_quote_age, left_quote_byte, right_quote_byte in *.
  rewrite !land_byte by assumption.
  unfold to_uint. apply Z.mod_small.
  change 4294967296 with (2 ^ 32).
  apply lor_bound; [lia | | lia].
  apply lor_bound; [lia | | ]; rewrite Z.shiftl_mul_pow2 by lia; lia.
Qed.

Lemma upper_bits_pack age l r :
  0 <= age -> 0 <= l < 256 -> 0 <= r < 256 ->
  Z.shiftr (Z.lor (Z.lor (Z.shiftl age 16) (Z.shiftl l 8)) r) 16 = age.
Proof.
  intros Ha Hl Hr.
  rewrite !Z.shiftr_lor.
  rewrite (Z.shiftr_shiftl_l age 16 16) by lia.
  rewrite (Z.shiftr_shiftl_r l 8 16) by lia.
  rewrite Z.sub_diag, Z.shiftl_0_r.
  rewrite !Z.shiftr_div_pow2 by lia.
  change (2 ^ (16 - 8)) with 256. change (2 ^ 16) with 65536.
  rewrite (Z.div_small l) by lia. rewrite (Z.div_small r) by lia.
  rewrite !Z.lor_0_r. reflexivity.
Qed.

(** ** The invariant of the quote age *)

Lemma single_byte p :
  pair_ok p -> len1 p = 1 -> len2 p = 1 ->
  0 <= deref (str1 p) < 256 /\ 0 <= deref (str2 p) < 256.
Proof.
  intros (H1 & H2 & H3 & H4) L1 L2. unfold strlen in *.
  destruct (str1 p) as [|x1 r1]; simpl in *; [lia|].
  destruct (str2 p) as [|x2 r2]; simpl in *; [lia|].
  apply andb_true_iff in H3 as [H3 _]. apply andb_true_iff in H4 as [H4 _].
  unfold byte_ok in *.
  apply andb_true_iff in H3 as [A B]. apply andb_true_iff in H4 as [C D].
  apply Z.leb_le in A, C. apply Z.ltb_lt in B, D. lia.
Qed.

Lemma has_unsafe_bits e c :
  valid_entry e = true -> has_bits e quote_unsafe_bits = false ->
  In c [M4_SYNTAX_ALPHA; M4_SYNTAX_NUM; M4_SYNTAX_OPEN; M4_SYNTAX_COMMA;
        M4_SYNTAX_CLOSE; M4_SYNTAX_SPACE] ->
  has_bits e c = false.
Proof.
  intros He Hb Hc.
  pose proof (valid_entry_forall2
    (fun e c => implb (negb (has_bits e quote_unsafe_bits)) (negb (has_bits e c)))
    [M4_SYNTAX_ALPHA; M4_SYNTAX_NUM; M4_SYNTAX_OPEN; M4_SYNTAX_COMMA;
     M4_SYNTAX_CLOSE; M4_SYNTAX_SPACE] eq_refl e c He Hc) as H.
  simpl in H. rewrite Hb in H. simpl in H.
  apply negb_true_iff in H. exact H.
Qed.

Lemma has_comment_unsafe_bits e c :
  valid_entry e = true -> has_bits e comment_unsafe_bits = false ->
  In c [M4_SYNTAX_OPEN; M4_SYNTAX_COMMA; M4_SYNTAX_CLOSE] ->
  has_bits e c = false.
Proof.
  intros He Hb Hc.
  pose proof (valid_entry_forall2
    (fun e c => implb (negb (has_bits e comment_unsafe_bits))
                      (negb (has_bits e c)))
    [M4_SYNTAX_OPEN; M4_SYNTAX_COMMA; M4_SYNTAX_CLOSE] eq_refl e c He Hc) as H.
  simpl in H. rewrite Hb in H. simpl in H.
  apply negb_true_iff in H. exact H.
Qed.

Lemma m4_syntab_valid s ch :
  well_formed s -> valid_entry (m4_syntab s ch) = true.
Proof.
  intros H. unfold m4_syntab.
  apply entry_forallb; [apply (wf_entries _ H) | reflexivity].
Qed.

Lemma quotes_safe_sound s age :
  well_formed s -> quotes_safe s age = true -> quote_age_safe s age.
Proof.
  intros Hwf H. unfold quotes_safe in H.
  repeat (apply andb_true_iff in H as [H ?]).
  match goal with X : m4_has_syntax s (chr ",") _ = true |- _ =>
    rename X into Hcomma end.
  match goal with X : (len1 (comm s) =? 0) || _ = true |- _ =>
    rename X into Hcomm end.
  match goal with X : negb (deref (str1 (quote s)) =? _) = true |- _ =>
    rename X into Hne end.
  match goal with
    X : negb (m4_has_syntax s (deref (str2 (quote s))) _) = true |- _ =>
    rename X into Hr end.
  match goal with
    X : negb (m4_has_syntax s (deref (str1 (quote s))) _) = true |- _ =>
    rename X into Hl end.
  apply Z.ltb_lt in H.
  apply negb_true_iff in Hl, Hr, Hne. apply Z.eqb_neq in Hne.
  unfold quote_age_safe, left_quote_byte, right_quote_byte, begin_comment_byte.
  split; [exact H|]. split; [assumption|].
  split.
  { intros c Hc. split.
    - apply has_unsafe_bits; [apply m4_syntab_valid; exact Hwf | exact Hl | exact Hc].
    - apply has_unsafe_bits; [apply m4_syntab_valid; exact Hwf | exact Hr | exact Hc]. }
  split; [exact Hne|]. split; [|exact Hcomma].
  apply orb_true_iff in Hcomm as [Hc | Hc].
  - left. apply Z.eqb_eq in Hc.
    destruct (wf_comm _ Hwf) as (L1 & _). rewrite L1 in Hc. unfold strlen in Hc.
    destruct (str1 (comm s)); [reflexivity | simpl in Hc; lia].
  - right. apply andb_true_iff in Hc as [Hc1 Hc2].
    apply negb_true_iff in Hc1, Hc2. apply Z.eqb_neq in Hc1.
    split; [exact Hc1|]. intros c Hc.
    apply has_comment_unsafe_bits;
      [apply m4_syntab_valid; exact Hwf | exact Hc2 | exact Hc].
Qed.

Lemma quote_age_safe_frame s s' age :
  table s' = table s -> quote s' = quote s -> comm s' = comm s ->
  is_single_quotes s' = is_single_quotes s ->
  quote_age_safe s age -> quote_age_safe s' age.
Proof.
  unfold quote_age_safe, left_quote_byte, right_quote_byte, begin_comment_byte,
    m4_has_syntax, m4_syntab.
  intros -> -> -> ->. auto.
Qed.

Lemma quote_age_invariant_recache s c l r :
  quote_age_invariant s -> quote_age_invariant (recache s c l r).
Proof.
  unfold quote_age_invariant. simpl. intros H Hq.
  destruct (H Hq) as (age & A & B & C & D). exists age.
  split; [exact A|]. split; [exact B|]. split; [|exact D].
  eapply quote_age_safe_frame; [.. | exact C]; reflexivity.
Qed.

Lemma quote_age_invariant_set_quote_age s r c :
  well_formed s -> quote_age_invariant (set_quote_age s r c).
Proof.
  intros Hwf Hq. exists (local_syntax_age s r c).
  pose proof (local_syntax_age_range s r c (wf_age _ Hwf)) as Hr.
  pose proof (local_syntax_age_cases s r c (wf_age _ Hwf)) as Hc.
  split; [lia|]. split; [exact Hc|].
  rewrite set_quote_age_eq in Hq |- *. simpl in Hq.
  destruct (quotes_safe s (local_syntax_age s r c)) eqn:Hs; [|contradiction].
  pose proof (quotes_safe_sound s _ Hwf Hs) as Hsafe.
  split.
  { eapply quote_age_safe_frame; [.. | exact Hsafe]; reflexivity. }
  simpl. destruct Hsafe as (Hlt & Hsingle & _).
  destruct (wf_single_quotes _ Hwf Hsingle) as [L1 L2].
  destruct (single_byte _ (wf_quote _ Hwf) L1 L2) as [B1 B2].
  rewrite (pack_quote_age_eq s) by (try exact B1; try exact B2; lia).
  reflexivity.
Qed.

(** ** The syntax age along a run *)

Lemma upper_bits_set_quote_age s r c :
  well_formed s ->
  quote_age (set_quote_age s r c) = 0
  \/ (local_syntax_age s r c < 0xffff
      /\ Z.shiftr (quote_age (set_quote_age s r c)) 16
         = local_syntax_age s r c).
Proof.
  intros Hwf. rewrite set_quote_age_eq. simpl.
  destruct (quotes_safe s (local_syntax_age s r c)) eqn:Hs; [|left; reflexivity].
  right.
  pose proof (local_syntax_age_range s r c (wf_age _ Hwf)) as Hr.
  destruct (quotes_safe_sound s _ Hwf Hs) as (Hlt & Hsingle & _).
  destruct (wf_single_quotes _ Hwf Hsingle) as [L1 L2].
  destruct (single_byte _ (wf_quote _ Hwf) L1 L2) as [B1 B2].
  split; [exact Hlt|].
  rewrite (pack_quote_age_eq s) by (try exact B1; try exact B2; lia).
  apply upper_bits_pack; [lia | exact B1 | exact B2].
Qed.

Lemma saturation_set_quote_age s r c :
  well_formed s -> saturation_invariant (set_quote_age s r c).
Proof.
  intros Hwf Hsat.
  destruct (upper_bits_set_quote_age s r c Hwf) as [-> | [Hlt ->]];
    [reflexivity|].
  rewrite set_quote_age_eq in Hsat. simpl in Hsat.
  destruct r; [reflexivity | lia].
Qed.

Lemma syntax_age_set_quote_age s r c :
  syntax_age (set_quote_age s r c)
  = if r then syntax_age s else local_syntax_age s r c.
Proof. rewrite set_quote_age_eq. reflexivity. Qed.

Lemma run_op_syntax_age s op s' :
  well_formed s -> well_formed_op op = true -> run_op op s = Some s' ->
  syntax_age s'
  = if is_verb op then Z.min (syntax_age s + 1) 0xffff else syntax_age s.
Proof.
  intros Hwf Hop Hrun.
  destruct (run_op_cases s op s' Hwf Hop Hrun)
    as [(Hv & c & l & r & ->) | (s1 & reset & c & l & r & W & A & Hr & ->)].
  - rewrite Hv. reflexivity.
  - change (syntax_age (recache (set_quote_age s1 reset (is_verb op)) c l r))
      with (syntax_age (set_quote_age s1 reset (is_verb op))).
    rewrite syntax_age_set_quote_age.
    destruct reset.
    + rewrite (Hr eq_refl). exact A.
    + destruct (is_verb op).
      * rewrite local_syntax_age_change by apply (wf_age _ W).
        rewrite A. reflexivity.
      * rewrite local_syntax_age_keep. exact A.
Qed.

Lemma run_op_saturation s op s' :
  well_formed s -> well_formed_op op = true -> run_op op s = Some s' ->
  saturation_invariant s -> saturation_invariant s'.
Proof.
  intros Hwf Hop Hrun Hsat.
  destruct (run_op_cases s op s' Hwf Hop Hrun)
    as [(Hv & c & l & r & ->) | (s1 & reset & c & l & r & W & A & Hr & ->)].
  - exact Hsat.
  - exact (saturation_set_quote_age s1 reset (is_verb op) W).
Qed.

Lemma run_ops_syntax_age ops s0 s :
  well_formed s0 -> saturation_invariant s0 ->
  forallb well_formed_op ops = true -> run_ops ops s0 = Some s ->
  well_formed s /\ saturation_invariant s
  /\ syntax_age s = Z.min (syntax_age s0 + count_verbs ops) 0xffff.
Proof.
  revert s0. induction ops as [|op rest IH]; intros s0 Hwf Hsat Hops Hrun.
  - injection Hrun as <-. split; [exact Hwf|]. split; [exact Hsat|].
    simpl. pose proof (wf_age _ Hwf). lia.
  - simpl in Hops, Hrun. apply andb_true_iff in Hops as [Hop Hops].
    destruct (run_op op s0) as [s1|] eqn:E; [|discriminate].
    destruct (IH s1 (run_op_well_formed _ _ _ Hwf Hop E)
                (run_op_saturation _ _ _ Hwf Hop E Hsat) Hops Hrun)
      as (W & S & A).
    split; [exact W|]. split; [exact S|].
    rewrite A, (run_op_syntax_age _ _ _ Hwf Hop E).
    pose proof (wf_age _ Hwf).
    assert (0 <= count_verbs rest).
    { clear. induction rest as [|o r IH]; simpl; [lia|].
      destruct (is_verb o); lia. }
    simpl. destruct (is_verb op); lia.
Qed.

Lemma run_ops_reachable ops s0 s :
  reachable s0 -> forallb well_formed_op ops = true ->
  run_ops ops s0 = Some s -> reachable s.
Proof.
  revert s0. induction ops as [|op rest IH]; intros s0 Hr Hops Hrun.
  - injection Hrun as <-. exact Hr.
  - simpl in Hops, Hrun. apply andb_true_iff in Hops as [Hop Hops].
    destruct (run_op op s0) as [s1|] eqn:E; [|discriminate].
    apply (IH s1); [|assumption..].
    eapply reachable_step; eassumption.
Qed.

(** A verb on a well-formed table returns, with the code of its key. *)
Lemma m4_set_syntax_verb_returns s key action chars :
  well_formed s -> key <> NUL -> 0 <= m4_syntax_code key ->
  valid_action action = true ->
  exists s1,
    verb_body s action chars (m4_syntax_code key) = Some s1
    /\ well_formed s1 /\ syntax_age s1 = syntax_age s
    /\ m4_set_syntax s key action (Some chars)
       = Some (m4__quote_uncache (set_quote_age s1 false true),
               m4_syntax_code key).
Proof.
  intros Hwf Hk Hc Ha.
  assert (In (m4_syntax_code key) all_codes) as Hin.
  { destruct (m4_syntax_code_cases key); [lia | assumption]. }
  destruct (well_formed_verb_body s action chars _ Hwf Hin Ha)
    as (s1 & E & W & A).
  exists s1. split; [exact E|]. split; [exact W|]. split; [exact A|].
  rewrite m4_set_syntax_verb by assumption. rewrite E. reflexivity.
Qed.

(** ** What the installers leave *)

(** The flag [m4_set_quotes] computes for the new pair. *)
Lemma install_quotes_fields s lq rq :
  let flag := (strlen lq =? 1) && (strlen rq =? 1)
              && negb (m4_has_syntax s (deref lq) lquote_blockers) in
  let t := sweep all_chars (unquote_entry (orig s)) (table s) in
  let t1 := store t (to_uchar (deref lq))
              (add_entry (entry t (to_uchar (deref lq))) M4_SYNTAX_LQUOTE) in
  quote (install_quotes s lq rq) = mk_pair lq (strlen lq) rq (strlen rq)
  /\ comm (install_quotes s lq rq) = comm s
  /\ is_single_quotes (install_quotes s lq rq) = flag
  /\ is_single_comments (install_quotes s lq rq) = is_single_comments s
  /\ table (install_quotes s lq rq)
     = if flag
       then store t1 (to_uchar (deref rq))
              (add_entry (entry t1 (to_uchar (deref rq))) M4_SYNTAX_RQUOTE)
       else t.
Proof.
  cbv zeta. unfold install_quotes. cbv zeta. simpl quote. simpl len1.
  simpl len2. simpl str1. simpl str2. simpl is_single_quotes. simpl orig.
  simpl table.
  change (m4_has_syntax (set_quote s (mk_pair lq (strlen lq) rq (strlen rq)))
            (deref lq) lquote_blockers)
    with (m4_has_syntax s (deref lq) lquote_blockers).
  destruct ((strlen lq =? 1) && (strlen rq =? 1)
            && negb (m4_has_syntax s (deref lq) lquote_blockers)).
  - rewrite !add_syntax_attribute_eq. simpl.
    match goal with |- context [if ?b then _ else _] => destruct b end;
      repeat split; reflexivity.
  - match goal with |- context [if ?b then _ else _] => destruct b end;
      repeat split; reflexivity.
Qed.

Lemma install_comment_fields s bc ec :
  let flag := (strlen bc =? 1) && (strlen ec =? 1)
              && negb (m4_has_syntax s (deref bc) bcomm_blockers) in
  let t := sweep all_chars (uncomment_entry (orig s)) (table s) in
  let t1 := store t (to_uchar (deref bc))
              (add_entry (entry t (to_uchar (deref bc))) M4_SYNTAX_BCOMM) in
  comm (install_comment s bc ec) = mk_pair bc (strlen bc) ec (strlen ec)
  /\ quote (install_comment s bc ec) = quote s
  /\ is_single_comments (install_comment s bc ec) = flag
  /\ is_single_quotes (install_comment s bc ec) = is_single_quotes s
  /\ table (install_comment s bc ec)
     = if flag
       then store t1 (to_uchar (deref ec))
              (add_entry (entry t1 (to_uchar (deref ec))) M4_SYNTAX_ECOMM)
       else t.
Proof.
  cbv zeta. unfold install_comment. cbv zeta. simpl comm. simpl len1.
  simpl len2. simpl str1. simpl str2. simpl is_single_comments. simpl orig.
  simpl table.
  change (m4_has_syntax (set_comm s (mk_pair bc (strlen bc) ec (strlen ec)))
            (deref bc) bcomm_blockers)
    with (m4_has_syntax s (deref bc) bcomm_blockers).
  destruct ((strlen bc =? 1) && (strlen ec =? 1)
            && negb (m4_has_syntax s (deref bc) bcomm_blockers)).
  - rewrite !add_syntax_attribute_eq. simpl.
    match goal with |- context [if ?b then _ else _] => destruct b end;
      repeat split; reflexivity.
  - match goal with |- context [if ?b then _ else _] => destruct b end;
      repeat split; reflexivity.
Qed.

Lemma entry_sweep_all g t ch :
  length t = all_chars -> 0 <= ch < 256 ->
  entry (sweep all_chars g t) ch = g ch (entry t ch).
Proof.
  intros Hl Hch. rewrite entry_sweep by lia.
  change (Z.of_nat all_chars) with 256.
  destruct (Z.ltb_spec ch 256); [reflexivity | lia].
Qed.

Lemma unquote_entry_clears ch e :
  valid_entry e = true ->
  has_bits (unquote_entry (orig fresh) ch e) M4_SYNTAX_LQUOTE = false
  /\ has_bits (unquote_entry (orig fresh) ch e) M4_SYNTAX_RQUOTE = false.
Proof.
  intros He. unfold unquote_entry.
  pose proof (orig_entry_basis ch) as Hd. revert Hd.
  generalize (entry (orig fresh) ch) as d. intros d Hd.
  pose proof (valid_entry_forall2
    (fun e d =>
       negb (has_bits (undelimit_core M4_SYNTAX_LQUOTE M4_SYNTAX_RQUOTE d e)
               M4_SYNTAX_LQUOTE)
       && negb (has_bits (undelimit_core M4_SYNTAX_LQUOTE M4_SYNTAX_RQUOTE d e)
                  M4_SYNTAX_RQUOTE))
    basis_codes eq_refl e d He Hd) as H.
  simpl in H. apply andb_true_iff in H as [H1 H2].
  apply negb_true_iff in H1, H2. split; assumption.
Qed.

(** ** Facts on all characters, by enumeration *)

Lemma range_forall (P : Z -> bool) :
  forallb P (map Z.of_nat (seq 0 256)) = true ->
  forall ch, 0 <= ch < 256 -> P ch = true.
Proof.
  intros H ch Hch. rewrite forallb_forall in H. apply H.
  apply in_map_iff. exists (Z.to_nat ch). split; [lia|].
  apply in_seq. lia.
Qed.

Lemma orig_default ch :
  0 <= ch < 256 -> entry (orig fresh) ch = default_code ch.
Proof.
  intros H. apply Z.eqb_eq. revert ch H.
  apply (range_forall (fun ch => entry (orig fresh) ch =? default_code ch)).
  vm_compute. reflexivity.
Qed.


(** ** The flags after the checkers *)

Lemma scan_escape_S s k :
  scan_escape s (S k)
  = if m4_has_syntax s (Z.of_nat k) M4_SYNTAX_ESCAPE then true
    else scan_escape s k.
Proof. reflexivity. Qed.

Lemma scan_escape_spec s n :
  scan_escape s n = true
  <-> exists ch, 0 <= ch < Z.of_nat n
                 /\ m4_has_syntax s ch M4_SYNTAX_ESCAPE = true.
Proof.
  induction n as [|k IH].
  - split; [discriminate|]. intros (ch & H & _). lia.
  - rewrite scan_escape_S.
    destruct (m4_has_syntax s (Z.of_nat k) M4_SYNTAX_ESCAPE) eqn:E.
    + split; [|reflexivity]. intros _. exists (Z.of_nat k). split; [lia|exact E].
    + rewrite IH. split.
      * intros (ch & H & Hc). exists ch. split; [lia | exact Hc].
      * intros (ch & H & Hc). exists ch. split; [|exact Hc].
        destruct (Z.eq_dec ch (Z.of_nat k)) as [->|]; [congruence | lia].
Qed.

Lemma quotes_carried_frame s s' :
  table s' = table s -> quote s' = quote s ->
  is_single_quotes s' = is_single_quotes s ->
  quotes_carried s -> quotes_carried s'.
Proof.
  unfold quotes_carried, m4_has_syntax, m4_syntab. intros -> -> ->. auto.
Qed.


Lemma checkers_carried s :
  well_formed s ->
  exists s1,
    (let? s1 := check_is_single_quotes s in check_is_single_comments s1)
    = Some s1
    /\ well_formed s1
    /\ table s1 = table s /\ orig s1 = orig s
    /\ is_macro_escaped s1 = is_macro_escaped s
    /\ syntax_age s1 = syntax_age s
    /\ quotes_carried s1 /\ comments_carried s1.
Proof.
  intros H.
  destruct (checkers_spec s (wf_single_quotes _ H) (wf_single_comments _ H))
    as (q & b & q' & b' & E & Fq & Fc).
  rewrite E. eexists. split; [reflexivity|].
  split; [apply well_formed_checkers; assumption|].
  repeat (split; [reflexivity|]).
  destruct Fq as (L1 & L2 & Hb & Hh & _).
  destruct Fc as (L1' & L2' & Hb' & Hh' & _).
  split.
  - intros Hf. simpl in Hf. subst b. simpl.
    destruct (wf_single_quotes _ H (Hb eq_refl)) as [A B].
    rewrite L1, L2. split; [exact A|]. split; [exact B|].
    exact (Hh eq_refl).
  - intros Hf. simpl in Hf. subst b'. simpl.
    destruct (wf_single_comments _ H (Hb' eq_refl)) as [A B].
    rewrite L1', L2'. split; [exact A|]. split; [exact B|].
    exact (Hh' eq_refl).
Qed.

(** What the end of a verb, [set_quote_age] and [m4__quote_uncache],
    leaves as it was. *)
Lemma finish_fields s r c :
  let s' := m4__quote_uncache (set_quote_age s r c) in
  table s' = table s /\ orig s' = orig s /\ quote s' = quote s
  /\ comm s' = comm s /\ is_single_quotes s' = is_single_quotes s
  /\ is_single_comments s' = is_single_comments s
  /\ is_macro_escaped s' = is_macro_escaped s.
Proof. cbv zeta. rewrite set_quote_age_eq. repeat split; reflexivity. Qed.

Lemma set_quote_age_fields s r c :
  let s' := set_quote_age s r c in
  table s' = table s /\ orig s' = orig s /\ quote s' = quote s
  /\ comm s' = comm s /\ is_single_quotes s' = is_single_quotes s
  /\ is_single_comments s' = is_single_comments s
  /\ is_macro_escaped s' = is_macro_escaped s.
Proof. cbv zeta. rewrite set_quote_age_eq. repeat split; reflexivity. Qed.

(** ** The body of the reset loop *)





(** ** What keeps the codes of the quotes on a byte *)

Lemma implb_true (a b : bool) : implb a b = true -> a = true -> b = true.
Proof. destruct a, b; simpl; congruence. Qed.

Lemma add_entry_keeps_rquote code e :
  In code all_codes -> valid_with M4_SYNTAX_RQUOTE e ->
  valid_with M4_SYNTAX_RQUOTE (add_entry e code).
Proof.
  intros Hc [He Hb]. split; [apply add_entry_valid; assumption|].
  revert Hb. apply implb_true. revert e code He Hc.
  apply (valid_entry_forall2 (fun e c =>
    implb (has_bits e M4_SYNTAX_RQUOTE)
          (has_bits (add_entry e c) M4_SYNTAX_RQUOTE))).
  vm_compute. reflexivity.
Qed.

Lemma add_entry_keeps_lquote code e :
  In code [M4_SYNTAX_LQUOTE; M4_SYNTAX_RQUOTE; M4_SYNTAX_ECOMM] ->
  valid_with M4_SYNTAX_LQUOTE e ->
  valid_with M4_SYNTAX_LQUOTE (add_entry e code).
Proof.
  intros Hc [He Hb]. split.
  { apply add_entry_valid; [exact He|]. apply mem_In.
    destruct Hc as [<- | [<- | [<- | []]]]; reflexivity. }
  revert Hb. apply implb_true. revert e code He Hc.
  apply (valid_entry_forall2 (fun e c =>
    implb (has_bits e M4_SYNTAX_LQUOTE)
          (has_bits (add_entry e c) M4_SYNTAX_LQUOTE))).
  vm_compute. reflexivity.
Qed.

Lemma add_entry_sets code e :
  In code [M4_SYNTAX_LQUOTE; M4_SYNTAX_RQUOTE] -> valid_entry e = true ->
  valid_with code (add_entry e code).
Proof.
  intros Hc He. split.
  { apply add_entry_valid; [exact He|]. apply mem_In.
    destruct Hc as [<- | [<- | []]]; reflexivity. }
  revert e code He Hc.
  apply (valid_entry_forall2 (fun e c => has_bits (add_entry e c) c)).
  vm_compute. reflexivity.
Qed.

Lemma subtract_entry_keeps bits code e :
  In bits [M4_SYNTAX_LQUOTE; M4_SYNTAX_RQUOTE] ->
  In code all_codes -> code <> M4_SYNTAX_LQUOTE -> code <> M4_SYNTAX_RQUOTE ->
  valid_with bits e -> valid_with bits (subtract_entry code e).
Proof.
  intros Hbits Hc N1 N2 [He Hb].
  split; [apply subtract_entry_valid; assumption|].
  assert (((code =? M4_SYNTAX_LQUOTE) || (code =? M4_SYNTAX_RQUOTE)) = false)
    as Hn.
  { apply orb_false_iff. split; apply Z.eqb_neq; assumption. }
  pose proof (valid_entry_forall2 (fun e c =>
    (c =? M4_SYNTAX_LQUOTE) || (c =? M4_SYNTAX_RQUOTE)
    || implb (has_bits e bits) (has_bits (subtract_entry c e) bits))
    all_codes
    ltac:(destruct Hbits as [<- | [<- | []]]; vm_compute; reflexivity)
    e code He Hc) as H.
  simpl in H. rewrite Hn in H. simpl in H.
  exact (implb_true _ _ H Hb).
Qed.

Lemma uncomment_keeps bits d e :
  In bits [M4_SYNTAX_LQUOTE; M4_SYNTAX_RQUOTE] -> In d basis_codes ->
  valid_with bits e ->
  valid_with bits (undelimit_core M4_SYNTAX_BCOMM M4_SYNTAX_ECOMM d e).
Proof.
  intros Hbits Hd [He Hb]. split.
  { apply undelimit_core_valid;
      [right; left; reflexivity | right; left; reflexivity | exact He
      | exact Hd]. }
  revert Hb. apply implb_true. revert e d He Hd.
  apply (valid_entry_forall2 (fun e d =>
    implb (has_bits e bits)
          (has_bits (undelimit_core M4_SYNTAX_BCOMM M4_SYNTAX_ECOMM d e) bits))).
  destruct Hbits as [<- | [<- | []]]; vm_compute; reflexivity.
Qed.

Lemma blockers_exclude_lquote e :
  valid_entry e = true -> has_bits e bcomm_blockers = false ->
  has_bits e M4_SYNTAX_LQUOTE = false.
Proof.
  intros He Hb.
  pose proof (valid_entry_forall (fun e =>
    implb (has_bits e M4_SYNTAX_LQUOTE) (has_bits e bcomm_blockers))
    eq_refl e He) as H.
  simpl in H. destruct (has_bits e M4_SYNTAX_LQUOTE); [|reflexivity].
  simpl in H. congruence.
Qed.

(** A property of entries kept by a store. *)
Lemma entry_store_closed (P : Z -> Prop) t a v ch :
  0 <= a -> 0 <= ch ->
  (a = ch -> P v) -> P (entry t ch) -> P (entry (store t a v) ch).
Proof.
  intros Ha Hch Hv Ht.
  destruct (Z.eq_dec a ch) as [->|Hne].
  - destruct (Z_lt_dec ch (Z.of_nat (length t))) as [Hlt|Hge].
    + rewrite entry_store_eq by lia. apply Hv. reflexivity.
    + unfold store. rewrite list_insert_ge by lia. exact Ht.
  - rewrite entry_store_ne by lia. exact Ht.
Qed.

Lemma quotes_carried_table s :
  quotes_carried s <->
  (is_single_quotes s = true ->
   len1 (quote s) = 1 /\ len2 (quote s) = 1
   /\ has_bits (entry (table s) (to_uchar (deref (str1 (quote s)))))
        M4_SYNTAX_LQUOTE = true
   /\ has_bits (entry (table s) (to_uchar (deref (str2 (quote s)))))
        M4_SYNTAX_RQUOTE = true).
Proof. reflexivity. Qed.

Lemma entry_valid s ch :
  well_formed s -> valid_entry (entry (table s) ch) = true.
Proof.
  intros H. apply entry_forallb; [apply (wf_entries _ H) | reflexivity].
Qed.

Lemma table_restore_defaults s :
  orig s = orig fresh -> table (restore_defaults s) = table fresh.
Proof.
  intros H. unfold restore_defaults. cbv zeta.
  rewrite !add_syntax_attribute_eq. simpl. rewrite H.
  vm_compute. reflexivity.
Qed.

Lemma quotes_carried_restore_defaults s :
  well_formed s -> quotes_carried (restore_defaults s).
Proof.
  intros H. apply quotes_carried_table. intros _.
  rewrite (table_restore_defaults s (wf_orig _ H)).
  assert (quote (restore_defaults s) = mk_pair DEF_LQUOTE 1 DEF_RQUOTE 1)
    as ->.
  { unfold restore_defaults. cbv zeta. rewrite !add_syntax_attribute_eq.
    reflexivity. }
  repeat split; reflexivity.
Qed.

Lemma mask_code_cases code :
  In code all_codes -> (Z.land code M4_SYNTAX_MASKS =? 0) = false ->
  In code [M4_SYNTAX_RQUOTE; M4_SYNTAX_ECOMM].
Proof.
  intros Hc Hm. apply mem_In.
  assert (forallb (fun c => (Z.land c M4_SYNTAX_MASKS =? 0)
                            || mem c [M4_SYNTAX_RQUOTE; M4_SYNTAX_ECOMM])
            all_codes = true) as A by reflexivity.
  rewrite forallb_forall in A. specialize (A code Hc).
  rewrite Hm in A. exact A.
Qed.

Lemma quotes_carried_add_syntax_set s chars code :
  well_formed s -> In code all_codes -> quotes_carried s ->
  (is_single_quotes s = true ->
   (Z.land code M4_SYNTAX_MASKS =? 0) && negb (code =? M4_SYNTAX_LQUOTE)
   && mem (to_uchar (left_quote_byte s)) (map to_uchar chars) = false) ->
  quotes_carried (add_syntax_set s chars code).
Proof.
  intros Hwf Hc Hq Hcond. rewrite add_syntax_set_eq.
  destruct (deref chars =? NUL); [exact Hq|].
  apply quotes_carried_table.
  assert (forall x, quote (set_table (if code =? M4_SYNTAX_ESCAPE
                                      then set_is_macro_escaped s true else s) x)
                    = quote s) as Eq
    by (intros x; destruct (code =? M4_SYNTAX_ESCAPE); reflexivity).
  assert (forall x, is_single_quotes
                      (set_table (if code =? M4_SYNTAX_ESCAPE
                                  then set_is_macro_escaped s true else s) x)
                    = is_single_quotes s) as Ef
    by (intros x; destruct (code =? M4_SYNTAX_ESCAPE); reflexivity).
  rewrite Eq, Ef. simpl table. intros Hf.
  destruct (Hq Hf) as (L1 & L2 & HL & HR).
  rewrite m4_has_syntax_bits in HL, HR. unfold m4_syntab in HL, HR.
  split; [exact L1|]. split; [exact L2|].
  pose proof (to_uchar_range (deref (str1 (quote s)))) as Ra.
  pose proof (to_uchar_range (deref (str2 (quote s)))) as Rb.
  split.
  - specialize (Hcond Hf).
    destruct (Z.land code M4_SYNTAX_MASKS =? 0) eqn:Hm; simpl in Hcond.
    + destruct (Z.eqb_spec code M4_SYNTAX_LQUOTE) as [->|Hn]; simpl in Hcond.
      * apply (entry_update_chars_closed (valid_with M4_SYNTAX_LQUOTE));
          [ | lia | split; [apply entry_valid; exact Hwf | exact HL]].
        intros e. apply add_entry_keeps_lquote. left. reflexivity.
      * rewrite entry_update_chars_other; [exact HL | lia |].
        intros Hin. apply mem_In in Hin. unfold left_quote_byte in Hcond.
        congruence.
    + apply (entry_update_chars_closed (valid_with M4_SYNTAX_LQUOTE));
        [ | lia | split; [apply entry_valid; exact Hwf | exact HL]].
      intros e. apply add_entry_keeps_lquote.
      right. apply mask_code_cases; assumption.
  - apply (entry_update_chars_closed (valid_with M4_SYNTAX_RQUOTE));
      [ | lia | split; [apply entry_valid; exact Hwf | exact HR]].
    intros e. apply add_entry_keeps_rquote. exact Hc.
Qed.

Lemma quotes_carried_update_subtract s chars code :
  well_formed s -> In code all_codes ->
  code <> M4_SYNTAX_LQUOTE -> code <> M4_SYNTAX_RQUOTE ->
  quotes_carried s ->
  quotes_carried
    (set_table s (update_chars (subtract_entry code) (table s) chars)).
Proof.
  intros Hwf Hc N1 N2 Hq. apply quotes_carried_table. simpl. intros Hf.
  destruct (Hq Hf) as (L1 & L2 & HL & HR).
  rewrite m4_has_syntax_bits in HL, HR. unfold m4_syntab in HL, HR.
  split; [exact L1|]. split; [exact L2|].
  pose proof (to_uchar_range (deref (str1 (quote s)))) as Ra.
  pose proof (to_uchar_range (deref (str2 (quote s)))) as Rb.
  split.
  - apply (entry_update_chars_closed (valid_with M4_SYNTAX_LQUOTE));
      [ | lia | split; [apply entry_valid; exact Hwf | exact HL]].
    intros e. apply subtract_entry_keeps; try assumption. left. reflexivity.
  - apply (entry_update_chars_closed (valid_with M4_SYNTAX_RQUOTE));
      [ | lia | split; [apply entry_valid; exact Hwf | exact HR]].
    intros e. apply subtract_entry_keeps; try assumption.
    right. left. reflexivity.
Qed.

Lemma quotes_carried_check_quotes s s1 :
  well_formed s -> check_is_single_quotes s = Some s1 -> quotes_carried s1.
Proof.
  intros Hwf E.
  destruct (check_is_single_quotes_spec s (wf_single_quotes _ Hwf))
    as (q & b & Eq & L1 & L2 & Hb & Hh & _).
  rewrite Eq in E. injection E as <-.
  intros Hf. simpl in Hf. subst b. simpl.
  destruct (wf_single_quotes _ Hwf (Hb eq_refl)) as [A B].
  rewrite L1, L2. split; [exact A|]. split; [exact B|]. exact (Hh eq_refl).
Qed.

Lemma quotes_carried_subtract_syntax_set s chars code s1 :
  well_formed s -> In code all_codes -> quotes_carried s ->
  subtract_syntax_set s chars code = Some s1 -> quotes_carried s1.
Proof.
  intros Hwf Hc Hq. rewrite subtract_syntax_set_eq.
  destruct (deref chars =? NUL); [intros E; injection E as <-; exact Hq|].
  cbv zeta.
  pose proof (well_formed_update_chars s (subtract_entry code) chars Hwf
                (fun e => subtract_entry_valid code e Hc)) as Hwx.
  set (x := set_table s (update_chars (subtract_entry code) (table s) chars))
    in *.
  destruct (Z.eqb_spec code M4_SYNTAX_ESCAPE) as [He|He].
  { intros E. injection E as <-.
    assert (quotes_carried x) as Hx.
    { apply quotes_carried_update_subtract; try assumption;
        subst code; discriminate. }
    match goal with |- context [if ?b then _ else _] => destruct b end;
      [|exact Hx].
    eapply quotes_carried_frame; [.. | exact Hx]; reflexivity. }
  destruct ((code =? M4_SYNTAX_LQUOTE) || (code =? M4_SYNTAX_RQUOTE)) eqn:Hlr.
  { destruct (is_single_quotes x) eqn:F.
    - apply quotes_carried_check_quotes. exact Hwx.
    - intros E. injection E as <-. intros Hf. congruence. }
  apply orb_false_iff in Hlr as [N1 N2]. apply Z.eqb_neq in N1, N2.
  assert (quotes_carried x) as Hx
    by (apply quotes_carried_update_subtract; assumption).
  destruct ((code =? M4_SYNTAX_BCOMM) || (code =? M4_SYNTAX_ECOMM)).
  { destruct (is_single_comments x) eqn:F.
    - destruct (check_is_single_comments_spec x (wf_single_comments _ Hwx))
        as (q & b & Eq & _).
      rewrite Eq. intros E. injection E as <-.
      eapply quotes_carried_frame; [.. | exact Hx]; reflexivity.
    - intros E. injection E as <-. exact Hx. }
  intros E. injection E as <-. exact Hx.
Qed.

Lemma quotes_carried_verb_body s action chars code s1 :
  well_formed s -> In code all_codes -> quotes_carried s ->
  (action = chr "+" -> is_single_quotes s = true ->
   (Z.land code M4_SYNTAX_MASKS =? 0) && negb (code =? M4_SYNTAX_LQUOTE)
   && mem (to_uchar (left_quote_byte s)) (map to_uchar chars) = false) ->
  verb_body s action chars code = Some s1 -> quotes_carried s1.
Proof.
  intros Hwf Hc Hq Hcond. unfold verb_body.
  destruct (Z.eqb_spec action (chr "+")) as [Ha|_].
  { intros E. injection E as <-.
    apply quotes_carried_add_syntax_set; auto. }
  destruct (action =? chr "-").
  { apply quotes_carried_subtract_syntax_set; assumption. }
  destruct (action =? chr "=").
  { rewrite set_syntax_set_eq. cbv zeta. intros E.
    match type of E with
      (let? s1 := check_is_single_quotes ?y in _) = _ =>
        assert (well_formed y) as Hwy
    end.
    { apply well_formed_set_is_macro_escaped.
      pose proof (well_formed_sweep s (fun _ => clear_entry code) Hwf
                    (fun _ e => clear_entry_valid code e Hc)) as H1.
      apply (well_formed_update_chars _ (fun e => add_entry e code) chars)
        in H1; [simpl in H1; exact H1|].
      intros e He. apply add_entry_valid; assumption. }
    destruct (checkers_carried _ Hwy) as (f & Ef & _ & _ & _ & _ & _ & Qf & _).
    rewrite Ef in E. injection E as <-. exact Qf. }
  destruct (action =? NUL); [|discriminate].
  rewrite reset_syntax_set_eq. cbv zeta. intros E.
  match type of E with
    (let? s1 := check_is_single_quotes ?y in _) = _ =>
      assert (well_formed y) as Hwy
  end.
  { apply well_formed_set_is_macro_escaped. apply well_formed_sweep;
      [exact Hwf|].
    intros ch e He. rewrite (wf_orig _ Hwf).
    apply reset_entry_valid; assumption. }
  destruct (checkers_carried _ Hwy) as (f & Ef & _ & _ & _ & _ & _ & Qf & _).
  rewrite Ef in E. injection E as <-. exact Qf.
Qed.

Lemma sweep_valid s g :
  well_formed s ->
  (forall ch e, valid_entry e = true -> valid_entry (g ch e) = true) ->
  length (sweep all_chars g (table s)) = all_chars
  /\ forallb valid_entry (sweep all_chars g (table s)) = true.
Proof.
  intros Hwf Hg. split.
  - rewrite length_sweep. apply (wf_length _ Hwf).
  - apply forallb_sweep; [exact Hg | reflexivity | apply (wf_entries _ Hwf)].
Qed.

Lemma quotes_carried_install_quotes s lq rq :
  well_formed s -> quotes_carried (install_quotes s lq rq).
Proof.
  intros Hwf. apply quotes_carried_table.
  destruct (install_quotes_fields s lq rq) as (Q & _ & F & _ & T).
  cbv zeta in Q, F, T. rewrite Q, F, T. simpl. intros Hf. rewrite Hf.
  apply andb_true_iff in Hf as [Hf _]. apply andb_true_iff in Hf as [A B].
  apply Z.eqb_eq in A, B. split; [exact A|]. split; [exact B|].
  destruct (sweep_valid s (unquote_entry (orig s)) Hwf) as [Hl Hv].
  { intros ch e He. rewrite (wf_orig _ Hwf). apply unquote_entry_valid.
    exact He. }
  set (t := sweep all_chars (unquote_entry (orig s)) (table s)) in *.
  pose proof (to_uchar_range (deref lq)) as Ra.
  pose proof (to_uchar_range (deref rq)) as Rb.
  set (a := to_uchar (deref lq)) in *. set (b := to_uchar (deref rq)) in *.
  assert (valid_with M4_SYNTAX_LQUOTE
            (entry (store t a (add_entry (entry t a) M4_SYNTAX_LQUOTE)) a))
    as H1.
  { rewrite entry_store_eq by (rewrite Hl; exact Ra).
    apply add_entry_sets; [left; reflexivity|].
    apply entry_forallb; [exact Hv | reflexivity]. }
  split.
  - apply (entry_store_closed (valid_with M4_SYNTAX_LQUOTE));
      [lia | lia | | exact H1].
    intros ->. apply add_entry_keeps_lquote; [|exact H1].
    right. left. reflexivity.
  - rewrite entry_store_eq by (rewrite length_store, Hl; exact Rb).
    apply add_entry_sets; [right; left; reflexivity|].
    apply entry_forallb; [|reflexivity].
    apply forallb_store; [exact Hv|].
    apply add_entry_valid; [|apply mem_In; reflexivity].
    apply entry_forallb; [exact Hv | reflexivity].
Qed.

Lemma quotes_carried_install_comment s bc ec :
  well_formed s -> quotes_carried s ->
  quotes_carried (install_comment s bc ec).
Proof.
  intros Hwf Hq. apply quotes_carried_table.
  destruct (install_comment_fields s bc ec) as (_ & Q & F & SQ & T).
  cbv zeta in Q, F, SQ, T. rewrite Q, SQ, T. intros Hf.
  destruct (Hq Hf) as (L1 & L2 & HL & HR).
  rewrite m4_has_syntax_bits in HL, HR. unfold m4_syntab in HL, HR.
  split; [exact L1|]. split; [exact L2|].
  destruct (sweep_valid s (uncomment_entry (orig s)) Hwf) as [Hl Hv].
  { intros ch e He. rewrite (wf_orig _ Hwf). apply uncomment_entry_valid.
    exact He. }
  pose proof (to_uchar_range (deref (str1 (quote s)))) as Ra.
  pose proof (to_uchar_range (deref (str2 (quote s)))) as Rb.
  pose proof (to_uchar_range (deref bc)) as Ra'.
  pose proof (to_uchar_range (deref ec)) as Rb'.
  set (a := to_uchar (deref (str1 (quote s)))) in *.
  set (b := to_uchar (deref (str2 (quote s)))) in *.
  assert (valid_with M4_SYNTAX_LQUOTE
            (entry (sweep all_chars (uncomment_entry (orig s)) (table s)) a))
    as HLt.
  { rewrite entry_sweep_all by (try apply (wf_length _ Hwf); exact Ra).
    apply uncomment_keeps;
      [left; reflexivity | rewrite (wf_orig _ Hwf); apply orig_entry_basis |].
    split; [apply entry_valid; exact Hwf | exact HL]. }
  assert (valid_with M4_SYNTAX_RQUOTE
            (entry (sweep all_chars (uncomment_entry (orig s)) (table s)) b))
    as HRt.
  { rewrite entry_sweep_all by (try apply (wf_length _ Hwf); exact Rb).
    apply uncomment_keeps;
      [right; left; reflexivity
      | rewrite (wf_orig _ Hwf); apply orig_entry_basis |].
    split; [apply entry_valid; exact Hwf | exact HR]. }
  set (t := sweep all_chars (uncomment_entry (orig s)) (table s)) in *.
  destruct ((strlen bc =? 1) && (strlen ec =? 1)
            && negb (m4_has_syntax s (deref bc) bcomm_blockers)) eqn:Hflag;
    [|split; [apply HLt | apply HRt]].
  apply andb_true_iff in Hflag as [_ Hblock].
  apply negb_true_iff in Hblock.
  rewrite m4_has_syntax_bits in Hblock. unfold m4_syntab in Hblock.
  apply blockers_exclude_lquote in Hblock; [|apply entry_valid; exact Hwf].
  set (a' := to_uchar (deref bc)) in *. set (b' := to_uchar (deref ec)) in *.
  assert (a' <> a) as Hne by (intros E; rewrite E in Hblock; congruence).
  split.
  - apply (entry_store_closed (valid_with M4_SYNTAX_LQUOTE));
      [lia | lia | | ].
    + intros E. apply add_entry_keeps_lquote;
        [right; right; left; reflexivity|].
      rewrite E. rewrite entry_store_ne by lia. exact HLt.
    + rewrite entry_store_ne by lia. exact HLt.
  - assert (valid_with M4_SYNTAX_RQUOTE
              (entry (store t a' (add_entry (entry t a') M4_SYNTAX_BCOMM)) b))
      as H1.
    { apply (entry_store_closed (valid_with M4_SYNTAX_RQUOTE));
        [lia | lia | | exact HRt].
      intros E. rewrite E. apply add_entry_keeps_rquote; [|exact HRt].
      apply mem_In. reflexivity. }
    apply (entry_store_closed (valid_with M4_SYNTAX_RQUOTE));
      [lia | lia | | exact H1].
    intros E. rewrite E. apply add_entry_keeps_rquote; [|exact H1].
    apply mem_In. reflexivity.
Qed.

(** * The claims *)

(** C6: a freshly created table has the left quote backtick, the right
    quote apostrophe, the begin comment '#' and the end comment newline;
    its quotes and comments are single and macros are not escaped; its
    quote age is not zero, with upper 16 bits 0 and lower 16 bits
    [(0x60 << 8) | 0x27]. *)
Theorem fresh_table_defaults :
  exists s,
    m4_syntax_create = Some s
    /\ str1 (quote s) = [chr "`"] /\ len1 (quote s) = 1
    /\ str2 (quote s) = [chr "'"] /\ len2 (quote s) = 1
    /\ str1 (comm s) = [chr "#"] /\ len1 (comm s) = 1
    /\ str2 (comm s) = [NL] /\ len2 (comm s) = 1
    /\ is_single_quotes s = true
    /\ is_single_comments s = true
    /\ is_macro_escaped s = false
    /\ quote_age s <> 0
    /\ Z.shiftr (quote_age s) 16 = 0
    /\ Z.land (quote_age s) 0xffff = Z.lor (Z.shiftl 0x60 8) 0x27.
Proof.
  exists fresh. split; [exact m4_syntax_create_fresh|].
  repeat split; try reflexivity. vm_compute. discriminate.
Qed.

(** C10: whatever the age and the obstack (null or not), [m4__quote_cache]
    called with a null pair of quotes returns null and leaves the syntax
    table (and the obstack) as it was. *)
Theorem quote_cache_null_quotes s obs age :
  m4__quote_cache s obs age QuotesNull = Some (s, obs, ResNull).
Proof. reflexivity. Qed.

(** C9, as stated, fails on the null key: it is outside the key mapping,
    yet [m4_set_syntax] takes it for the full reset, returns 0 and
    rewrites the table (here after a change of quotes to brackets). *)
Lemma unknown_key_null_counterexample :
  ~ In NUL mapped_keys
  /\ exists s1 s2,
       m4_set_quotes fresh (Some (str ["["%char])) (Some (str ["]"%char]))
       = Some s1
       /\ m4_set_syntax s1 NUL (chr "+") (Some (str ["a"%char]))
          = Some (s2, 0)
       /\ ~ (0 < 0) /\ s2 <> s1.
Proof.
  split.
  - intros H. apply mem_In in H. vm_compute in H. discriminate.
  - eexists. eexists. split; [vm_compute; reflexivity|].
    split; [vm_compute; reflexivity|]. split; [lia|].
    intros H. apply (f_equal (fun s => str1 (quote s))) in H.
    vm_compute in H. discriminate.
Qed.

(** C9, amended: for every key byte other than NUL outside the key
    mapping, every action and every non-null string, [m4_set_syntax]
    returns the negative sentinel -1 and leaves the whole table as it was;
    [m4_syntax_code] returns -1 for every key outside the mapping, NUL
    included. *)
Theorem unknown_key_rejected :
  (forall key, ~ In key mapped_keys -> m4_syntax_code key = -1)
  /\ (forall s key action chars,
        ~ In key mapped_keys -> key <> NUL ->
        m4_set_syntax s key action (Some chars) = Some (s, -1)).
Proof.
  split.
  - exact m4_syntax_code_unmapped.
  - intros s key action chars Hk Hn.
    apply m4_set_syntax_unknown; [exact Hn|].
    rewrite m4_syntax_code_unmapped by exact Hk. lia.
Qed.

Lemma unknown_key_rejected_witness :
  m4_syntax_code (chr "x") = -1
  /\ m4_set_syntax fresh (chr "x") (chr "+") (Some (str ["a"%char]))
     = Some (fresh, -1).
Proof.
  assert (~ In (chr "x") mapped_keys) as H.
  { intros H. apply mem_In in H. vm_compute in H. discriminate. }
  split.
  - apply (proj1 unknown_key_rejected). exact H.
  - apply (proj2 unknown_key_rejected); [exact H|].
    vm_compute. discriminate.
Defined.

(** C8, as stated, fails on a byte that carries the mask already: on a
    fresh table the apostrophe carries RQUOTE, and adding then removing
    RQUOTE leaves it without. *)
Lemma add_remove_mask_counterexample :
  exists s2,
    remove_syntax_attribute
      (add_syntax_attribute fresh (chr "'") M4_SYNTAX_RQUOTE)
      (chr "'") M4_SYNTAX_RQUOTE = Some s2
    /\ m4_syntab fresh (chr "'") = Z.lor M4_SYNTAX_OTHER M4_SYNTAX_RQUOTE
    /\ m4_syntab s2 (chr "'") = M4_SYNTAX_OTHER
    /\ m4_syntab s2 (chr "'") <> m4_syntab fresh (chr "'").
Proof.
  eexists. split; [vm_compute; reflexivity|].
  split; [reflexivity|]. split; [reflexivity|].
  vm_compute. discriminate.
Qed.

Lemma to_ushort_land x : to_ushort x = Z.land x 0xffff.
Proof.
  unfold to_ushort. change 0xffff with (Z.ones 16).
  rewrite Z.land_ones by lia. reflexivity.
Qed.

Lemma land_ushort e : 0 <= e < 65536 -> Z.land e 0xffff = e.
Proof.
  intros H. rewrite <- to_ushort_land. unfold to_ushort.
  apply Z.mod_small. exact H.
Qed.

Lemma add_remove_entry e m :
  0 <= e < 65536 ->
  to_ushort (Z.land (to_ushort (Z.lor e m)) (Z.lnot m)) = Z.land e (Z.lnot m).
Proof.
  intros He. rewrite !to_ushort_land.
  rewrite <- (land_ushort e He) at 2.
  apply Z.bits_inj'. intros n Hn.
  repeat (rewrite ?Z.land_spec, ?Z.lor_spec; rewrite ?Z.lnot_spec by exact Hn).
  destruct (Z.testbit e n), (Z.testbit m n), (Z.testbit 65535 n); reflexivity.
Qed.

Lemma land_lnot_without e m :
  0 <= m -> has_bits e m = false -> Z.land e (Z.lnot m) = e.
Proof.
  intros Hm H. unfold has_bits in H. apply Z.ltb_ge in H.
  assert (0 <= Z.land e m) as Hge by (apply Z.land_nonneg; right; exact Hm).
  assert (Z.land e m = 0) as H0 by lia.
  apply Z.bits_inj'. intros n Hn.
  rewrite Z.land_spec, Z.lnot_spec by exact Hn.
  apply (f_equal (fun x => Z.testbit x n)) in H0.
  rewrite Z.land_spec, Z.bits_0 in H0.
  destruct (Z.testbit e n), (Z.testbit m n); simpl in *; congruence.
Qed.

(** C8, amended: for every byte, every mask code (RQUOTE or ECOMM) and
    every table, [add] followed by [remove] of the mask on the byte leaves
    the entry of the byte with the mask cleared and its other bits as they
    were, and the other entries as they were; it restores the entry when
    the byte did not carry the mask before. *)
Theorem add_remove_mask s b m :
  In m mask_codes -> 0 <= b < 256 ->
  length (table s) = all_chars -> 0 <= m4_syntab s b < 65536 ->
  exists s2,
    remove_syntax_attribute (add_syntax_attribute s b m) b m = Some s2
    /\ m4_syntab s2 b = Z.land (m4_syntab s b) (Z.lnot m)
    /\ (m4_has_syntax s b m = false -> m4_syntab s2 b = m4_syntab s b)
    /\ (forall b', 0 <= b' < 256 -> b' <> b ->
          m4_syntab s2 b' = m4_syntab s b').
Proof.
  intros Hm Hb Hlen He.
  assert (truthy (Z.land m M4_SYNTAX_MASKS) = true /\ 0 <= m) as [Ht Hm0].
  { destruct Hm as [<- | [<- | []]]; split; try reflexivity;
      vm_compute; discriminate. }
  rewrite add_syntax_attribute_eq, remove_syntax_attribute_eq by exact Ht.
  eexists. split; [reflexivity|].
  assert (0 <= b < Z.of_nat (length (table s))) as Hin.
  { rewrite Hlen. exact Hb. }
  unfold m4_has_syntax, m4_syntab in *. rewrite to_uchar_small in * by exact Hb.
  simpl table.
  rewrite !entry_store_eq by (rewrite ?length_store; exact Hin).
  unfold remove_entry, add_entry. rewrite Ht.
  rewrite add_remove_entry by exact He.
  split; [reflexivity|]. split.
  - intros Hno. apply land_lnot_without; assumption.
  - intros b' Hb' Hne. rewrite to_uchar_small by exact Hb'.
    rewrite !entry_store_ne by lia. reflexivity.
Qed.

Lemma add_remove_mask_witness :
  exists s2,
    remove_syntax_attribute
      (add_syntax_attribute fresh (chr "]") M4_SYNTAX_RQUOTE)
      (chr "]") M4_SYNTAX_RQUOTE = Some s2
    /\ m4_syntab s2 (chr "]")
       = Z.land (m4_syntab fresh (chr "]")) (Z.lnot M4_SYNTAX_RQUOTE)
    /\ (m4_has_syntax fresh (chr "]") M4_SYNTAX_RQUOTE = false ->
        m4_syntab s2 (chr "]") = m4_syntab fresh (chr "]"))
    /\ (forall b', 0 <= b' < 256 -> b' <> chr "]" ->
          m4_syntab s2 b' = m4_syntab fresh b').
Proof.
  apply (add_remove_mask fresh (chr "]") M4_SYNTAX_RQUOTE).
  - left. reflexivity.
  - change (chr "]") with 93. lia.
  - reflexivity.
  - change (m4_syntab fresh (chr "]")) with 16. lia.
Defined.

(** C3, as stated, fails: [set_quote_age] called with [reset] uses the
    age 0 for the quote age but leaves the stored counter alone.  After
    one verb and a full reset the counter is 1, not 0, and the next verb
    yields a quote age whose upper 16 bits are 2, not 1. *)
Lemma reset_keeps_counter_counterexample :
  exists s1 s2 s3,
    m4_set_syntax fresh (chr "@") (chr "+") (Some (str ["\"%char]))
    = Some (s1, M4_SYNTAX_ESCAPE)
    /\ syntax_age (set_quote_age s1 true false)
       <> local_syntax_age s1 true false
    /\ m4_set_syntax s1 NUL NUL None = Some (s2, 0)
    /\ syntax_age s2 = 1
    /\ m4_set_syntax s2 (chr "@") (chr "+") (Some (str ["\"%char]))
       = Some (s3, M4_SYNTAX_ESCAPE)
    /\ Z.shiftr (quote_age s3) 16 = 2.
Proof.
  eexists. eexists. eexists.
  split; [vm_compute; reflexivity|].
  split; [vm_compute; discriminate|].
  split; [vm_compute; reflexivity|].
  split; [reflexivity|].
  split; [vm_compute; reflexivity|].
  reflexivity.
Qed.

(** C3, amended: [set_quote_age] stores the locally computed syntax age
    into the counter except when called with [reset], where the counter
    keeps its value; so the full reset (changesyntax with the null key)
    leaves the counter as it was, and the first verb run after it sets the
    counter to one more than its value before the reset, saturating at
    0xffff, and yields a quote age that is zero or has that successor in
    its upper 16 bits. *)
Theorem reset_keeps_counter :
  (forall s reset change,
     syntax_age (set_quote_age s reset change)
     = if reset then syntax_age s else local_syntax_age s reset change)
  /\ (forall s action chars key action' chars',
        reachable s ->
        key <> NUL -> 0 <= m4_syntax_code key ->
        valid_action action' = true ->
        exists s1 s2,
          m4_set_syntax s NUL action chars = Some (s1, 0)
          /\ syntax_age s1 = syntax_age s
          /\ m4_set_syntax s1 key action' (Some chars')
             = Some (s2, m4_syntax_code key)
          /\ syntax_age s2 = Z.min (syntax_age s + 1) 0xffff
          /\ (quote_age s2 = 0
              \/ Z.shiftr (quote_age s2) 16 = syntax_age s + 1)).
Proof.
  split; [exact syntax_age_set_quote_age|].
  intros s action chars key action' chars' Hr Hk Hc Ha.
  pose proof (reachable_well_formed s Hr) as Hwf.
  rewrite m4_set_syntax_reset.
  set (s1 := set_quote_age (restore_defaults s) true false).
  assert (well_formed s1) as Hwf1.
  { apply well_formed_set_quote_age. apply well_formed_restore_defaults.
    exact Hwf. }
  assert (syntax_age s1 = syntax_age s) as Hage1.
  { unfold s1. rewrite syntax_age_set_quote_age.
    apply syntax_age_restore_defaults. }
  destruct (m4_set_syntax_verb_returns s1 key action' chars' Hwf1 Hk Hc Ha)
    as (v & _ & Wv & Av & E).
  exists s1. eexists. split; [reflexivity|]. split; [exact Hage1|].
  split; [exact E|].
  change (syntax_age (m4__quote_uncache (set_quote_age v false true)))
    with (syntax_age (set_quote_age v false true)).
  change (quote_age (m4__quote_uncache (set_quote_age v false true)))
    with (quote_age (set_quote_age v false true)).
  rewrite syntax_age_set_quote_age.
  rewrite local_syntax_age_change by apply (wf_age _ Wv).
  rewrite Av, Hage1. split; [reflexivity|].
  destruct (upper_bits_set_quote_age v false true Wv) as [Hz | [Hlt Hup]];
    [left; exact Hz|].
  right. rewrite Hup.
  rewrite local_syntax_age_change in Hlt |- * by apply (wf_age _ Wv).
  rewrite Av, Hage1 in Hlt |- *. lia.
Qed.

Lemma reset_keeps_counter_witness :
  exists s1 s2,
    m4_set_syntax fresh NUL NUL None = Some (s1, 0)
    /\ syntax_age s1 = syntax_age fresh
    /\ m4_set_syntax s1 (chr "@") (chr "+") (Some (str ["\"%char]))
       = Some (s2, m4_syntax_code (chr "@"))
    /\ syntax_age s2 = Z.min (syntax_age fresh + 1) 0xffff
    /\ (quote_age s2 = 0
        \/ Z.shiftr (quote_age s2) 16 = syntax_age fresh + 1).
Proof.
  apply (proj2 reset_keeps_counter fresh NUL None (chr "@") (chr "+")).
  - apply reachable_create. vm_compute. reflexivity.
  - vm_compute. discriminate.
  - vm_compute. discriminate.
  - reflexivity.
Defined.

(** C7: the stored syntax-age counter never exceeds 0xffff; after a run
    of operations from creation it is the number of verbs run, saturated
    at 0xffff; once 0xffff verbs have run, the upper 16 bits of the quote
    age are zero, and every further verb returns the code of its key and
    leaves the counter at 0xffff, with a quote age of zero. *)
Theorem syntax_age_saturates ops s0 s :
  m4_syntax_create = Some s0 ->
  forallb well_formed_op ops = true -> run_ops ops s0 = Some s ->
  syntax_age s <= 0xffff
  /\ syntax_age s = Z.min (count_verbs ops) 0xffff
  /\ (0xffff <= count_verbs ops ->
      syntax_age s = 0xffff
      /\ Z.shiftr (quote_age s) 16 = 0
      /\ forall key action chars,
           key <> NUL -> 0 <= m4_syntax_code key ->
           valid_action action = true ->
           exists s',
             m4_set_syntax s key action (Some chars)
             = Some (s', m4_syntax_code key)
             /\ syntax_age s' = 0xffff
             /\ quote_age s' = 0).
Proof.
  intros Hc Hops Hrun.
  rewrite m4_syntax_create_fresh in Hc. injection Hc as <-.
  assert (saturation_invariant fresh) as Hs0.
  { intros H. vm_compute in H. discriminate. }
  destruct (run_ops_syntax_age ops fresh s well_formed_fresh Hs0 Hops Hrun)
    as (Hwf & Hsat & Hage).
  change (syntax_age fresh) with 0 in Hage. rewrite Z.add_0_l in Hage.
  split; [lia|]. split; [exact Hage|].
  intros Hn. assert (syntax_age s = 0xffff) as Hfull by lia.
  split; [exact Hfull|]. split; [exact (Hsat Hfull)|].
  intros key action chars Hk Hcode Ha.
  destruct (m4_set_syntax_verb_returns s key action chars Hwf Hk Hcode Ha)
    as (v & _ & Wv & Av & E).
  eexists. split; [exact E|].
  change (syntax_age (m4__quote_uncache (set_quote_age v false true)))
    with (syntax_age (set_quote_age v false true)).
  change (quote_age (m4__quote_uncache (set_quote_age v false true)))
    with (quote_age (set_quote_age v false true)).
  rewrite syntax_age_set_quote_age.
  rewrite local_syntax_age_change by apply (wf_age _ Wv).
  rewrite Av, Hfull. split; [reflexivity|].
  destruct (upper_bits_set_quote_age v false true Wv) as [Hz | [Hlt _]];
    [exact Hz|].
  rewrite local_syntax_age_change in Hlt by apply (wf_age _ Wv).
  rewrite Av, Hfull in Hlt. simpl in Hlt. lia.
Qed.

Lemma run_add_escape n s :
  well_formed s ->
  exists s', run_ops (repeat add_escape n) s = Some s'.
Proof.
  revert s. induction n as [|n IH]; intros s Hwf.
  - exists s. reflexivity.
  - change (run_ops (repeat add_escape (S n)) s)
      with (let? s' :=
              (let? (s', _) := m4_set_syntax s (chr "@") (chr "+")
                                 (Some (str ["\"%char])) in Some s') in
            run_ops (repeat add_escape n) s').
    destruct (m4_set_syntax_verb_returns s (chr "@") (chr "+")
                (str ["\"%char]) Hwf) as (v & _ & Wv & _ & E);
      [vm_compute; discriminate | vm_compute; discriminate | reflexivity |].
    rewrite E.
    apply IH. apply well_formed_uncache. apply well_formed_set_quote_age.
    exact Wv.
Qed.

Lemma count_verbs_add_escape n :
  count_verbs (repeat add_escape n) = Z.of_nat n.
Proof.
  induction n as [|n IH]; [reflexivity|].
  change (count_verbs (repeat add_escape (S n)))
    with (1 + count_verbs (repeat add_escape n)).
  rewrite IH. lia.
Qed.

Lemma well_formed_add_escape n :
  forallb well_formed_op (repeat add_escape n) = true.
Proof. induction n as [|n IH]; [reflexivity | exact IH]. Qed.

Lemma syntax_age_saturates_witness :
  (exists s,
     run_ops example_run fresh = Some s
     /\ syntax_age s <= 0xffff
     /\ syntax_age s = Z.min (count_verbs example_run) 0xffff
     /\ (0xffff <= count_verbs example_run ->
         syntax_age s = 0xffff
         /\ Z.shiftr (quote_age s) 16 = 0
         /\ forall key action chars,
              key <> NUL -> 0 <= m4_syntax_code key ->
              valid_action action = true ->
              exists s',
                m4_set_syntax s key action (Some chars)
                = Some (s', m4_syntax_code key)
                /\ syntax_age s' = 0xffff
                /\ quote_age s' = 0))
  /\ (exists s,
        run_ops (repeat add_escape (Z.to_nat 0xffff)) fresh = Some s
        /\ syntax_age s = 0xffff
        /\ Z.shiftr (quote_age s) 16 = 0).
Proof.
  split.
  - destruct (run_ops example_run fresh) as [s|] eqn:E;
      [|vm_compute in E; discriminate].
    exists s. split; [reflexivity|].
    apply (syntax_age_saturates example_run fresh s).
    + vm_compute. reflexivity.
    + vm_compute. reflexivity.
    + exact E.
  - destruct (run_add_escape (Z.to_nat 0xffff) fresh well_formed_fresh)
      as [s E].
    exists s. split; [exact E|].
    destruct (syntax_age_saturates (repeat add_escape (Z.to_nat 0xffff))
                fresh s m4_syntax_create_fresh (well_formed_add_escape _) E)
      as (_ & _ & H).
    rewrite count_verbs_add_escape in H.
    destruct (H ltac:(lia)) as (H1 & H2 & _). split; assumption.
Defined.

(** C4, as stated, fails twice.  The right string is kept as given, or
    becomes the apostrophe when it is null: after [set_quotes("", NULL)]
    on a fresh table it is the apostrophe, of length 1.  And when the
    stored pair is already the one asked for, [m4_set_quotes] returns at
    once: a byte made a left quote by changesyntax in between still
    carries LQUOTE. *)
Lemma empty_left_quote_counterexample :
  exists s1 s2 s3,
    m4_set_quotes fresh (Some []) None = Some s1
    /\ str2 (quote s1) = [chr "'"] /\ len2 (quote s1) = 1
    /\ m4_set_syntax s1 (chr "L") (chr "+") (Some (str ["["%char]))
       = Some (s2, M4_SYNTAX_LQUOTE)
    /\ m4_set_quotes s2 (Some []) None = Some s3
    /\ m4_has_syntax s3 (chr "[") M4_SYNTAX_LQUOTE = true.
Proof.
  eexists. eexists. eexists.
  split; [vm_compute; reflexivity|].
  split; [reflexivity|]. split; [reflexivity|].
  split; [vm_compute; reflexivity|].
  split; [vm_compute; reflexivity|].
  reflexivity.
Qed.

(** C4, amended: for every right-quote argument, [m4_set_quotes] with an
    empty, non-null left quote leaves the left string empty (length 0),
    the right string the one given (the apostrophe when the argument is
    null), and [is_single_quotes] false; and unless the stored pair was
    that pair already, no byte carries LQUOTE or RQUOTE afterwards. *)
Theorem empty_left_quote_disables s rq :
  reachable s -> c_string_opt rq = true ->
  exists s',
    m4_set_quotes s (Some []) rq = Some s'
    /\ str1 (quote s') = [] /\ len1 (quote s') = 0
    /\ str2 (quote s') = default DEF_RQUOTE rq
    /\ len2 (quote s') = strlen (default DEF_RQUOTE rq)
    /\ is_single_quotes s' = false
    /\ (str1 (quote s) <> [] \/ str2 (quote s) <> default DEF_RQUOTE rq ->
        forall ch, 0 <= ch < 256 ->
          m4_has_syntax s' ch M4_SYNTAX_LQUOTE = false
          /\ m4_has_syntax s' ch M4_SYNTAX_RQUOTE = false).
Proof.
  intros Hr Hrq. pose proof (reachable_well_formed s Hr) as Hwf.
  rewrite m4_set_quotes_eq by apply (wf_length _ Hwf).
  assert (quote_args (Some []) rq = ([], default DEF_RQUOTE rq)) as ->.
  { destruct rq; reflexivity. }
  cbv beta iota delta [fst snd]. unfold streq.
  destruct (decide (str1 (quote s) = []
                    /\ str2 (quote s) = default DEF_RQUOTE rq))
    as [[E1 E2] | N].
  - rewrite !bool_decide_eq_true_2 by assumption. simpl.
    exists s. split; [reflexivity|].
    destruct (wf_quote _ Hwf) as (L1 & L2 & _).
    rewrite E1 in L1. rewrite E2 in L2.
    split; [exact E1|]. split; [exact L1|]. split; [exact E2|].
    split; [exact L2|]. split; [|tauto].
    destruct (is_single_quotes s) eqn:F; [|reflexivity].
    destruct (wf_single_quotes _ Hwf F) as [A _].
    rewrite L1 in A. discriminate.
  - match goal with |- context [if ?c then _ else _] =>
      assert (c = false) as ->
    end.
    { apply andb_false_iff.
      destruct (decide (str1 (quote s) = [])) as [E1|N1].
      - right. apply bool_decide_eq_false_2. tauto.
      - left. apply bool_decide_eq_false_2. exact N1. }
    eexists. split; [reflexivity|]. rewrite set_quote_age_eq. simpl.
    destruct (install_quotes_fields s [] (default DEF_RQUOTE rq))
      as (Q & _ & F & _ & T).
    rewrite Q, F. simpl. repeat split; try reflexivity.
    + unfold m4_has_syntax, m4_syntab. simpl table. rewrite T. simpl.
      rewrite to_uchar_small, entry_sweep_all, (wf_orig _ Hwf)
        by (try apply (wf_length _ Hwf); assumption).
      apply unquote_entry_clears.
      apply entry_forallb; [apply (wf_entries _ Hwf) | reflexivity].
    + unfold m4_has_syntax, m4_syntab. simpl table. rewrite T. simpl.
      rewrite to_uchar_small, entry_sweep_all, (wf_orig _ Hwf)
        by (try apply (wf_length _ Hwf); assumption).
      apply unquote_entry_clears.
      apply entry_forallb; [apply (wf_entries _ Hwf) | reflexivity].
Qed.

Lemma empty_left_quote_disables_witness :
  exists s',
    m4_set_quotes fresh (Some []) (Some (str ["]"%char])) = Some s'
    /\ str1 (quote s') = [] /\ len1 (quote s') = 0
    /\ str2 (quote s') = default DEF_RQUOTE (Some (str ["]"%char]))
    /\ len2 (quote s') = strlen (default DEF_RQUOTE (Some (str ["]"%char])))
    /\ is_single_quotes s' = false
    /\ (str1 (quote fresh) <> []
        \/ str2 (quote fresh) <> default DEF_RQUOTE (Some (str ["]"%char])) ->
        forall ch, 0 <= ch < 256 ->
          m4_has_syntax s' ch M4_SYNTAX_LQUOTE = false
          /\ m4_has_syntax s' ch M4_SYNTAX_RQUOTE = false).
Proof.
  apply (empty_left_quote_disables fresh (Some (str ["]"%char]))).
  - apply reachable_create. vm_compute. reflexivity.
  - reflexivity.
Defined.

(** C2, as stated, fails in both directions.  The flag can be set while
    the stored left quote does not carry LQUOTE: on a fresh table,
    changesyntax adds OTHER to the backtick, and [add_syntax_set] runs no
    checker.  And the flag can be clear while both strings have length 1
    and their bytes carry LQUOTE and RQUOTE: [m4_set_quotes] refuses the
    letter a as a single quote, and the checkers leave a clear flag clear
    when changesyntax later sets LQUOTE on a and RQUOTE on b. *)
Lemma single_quotes_iff_counterexample :
  (exists s1,
     m4_set_syntax fresh (chr "O") (chr "+") (Some (str ["`"%char]))
     = Some (s1, M4_SYNTAX_OTHER)
     /\ is_single_quotes s1 = true
     /\ m4_has_syntax s1 (left_quote_byte s1) M4_SYNTAX_LQUOTE = false)
  /\ (exists s1 s2 s3,
        m4_set_quotes fresh (Some (str ["a"%char])) (Some (str ["b"%char]))
        = Some s1
        /\ m4_set_syntax s1 (chr "L") (chr "=") (Some (str ["a"%char]))
           = Some (s2, M4_SYNTAX_LQUOTE)
        /\ m4_set_syntax s2 (chr "R") (chr "=") (Some (str ["b"%char]))
           = Some (s3, M4_SYNTAX_RQUOTE)
        /\ is_single_quotes s3 = false
        /\ len1 (quote s3) = 1 /\ len2 (quote s3) = 1
        /\ m4_has_syntax s3 (left_quote_byte s3) M4_SYNTAX_LQUOTE = true
        /\ m4_has_syntax s3 (right_quote_byte s3) M4_SYNTAX_RQUOTE = true).
Proof.
  split.
  - eexists. split; [vm_compute; reflexivity|]. split; reflexivity.
  - eexists. eexists. eexists.
    split; [vm_compute; reflexivity|].
    split; [vm_compute; reflexivity|].
    split; [vm_compute; reflexivity|].
    repeat split; reflexivity.
Qed.

(** C2, amended: [is_single_quotes] implies that both stored quote
    strings have length 1 and that the stored left-quote byte carries
    LQUOTE and the stored right-quote byte carries RQUOTE in the current
    table: this holds after creation, and every operation keeps it, other
    than the changesyntax add of a basis category other than LQUOTE to
    the stored left-quote byte.  (The converse does not hold: a clear flag
    stays clear until [m4_set_quotes] or a full reset sets it.) *)
Theorem single_quotes_backed :
  (forall s, m4_syntax_create = Some s -> quotes_carried s)
  /\ (forall s op s',
        reachable s -> quotes_carried s ->
        well_formed_op op = true -> add_strips_lquote s op = false ->
        run_op op s = Some s' ->
        is_single_quotes s' = true ->
        len1 (quote s') = 1 /\ len2 (quote s') = 1
        /\ m4_has_syntax s' (left_quote_byte s') M4_SYNTAX_LQUOTE = true
        /\ m4_has_syntax s' (right_quote_byte s') M4_SYNTAX_RQUOTE = true).
Proof.
  split.
  { intros s Hs. rewrite m4_syntax_create_fresh in Hs. injection Hs as <-.
    intros _. repeat split; reflexivity. }
  intros s op s' Hr Hq Hop Hadd Hrun.
  change (quotes_carried s').
  pose proof (reachable_well_formed s Hr) as Hwf.
  destruct op as [key action chars | lq rq | bc ec | obs age q];
    simpl in Hop, Hrun.
  - destruct (Z.eq_dec key NUL) as [->|Hk].
    { rewrite m4_set_syntax_reset in Hrun. injection Hrun as <-.
      destruct (set_quote_age_fields (restore_defaults s) true false)
        as (T & _ & Q & _ & F & _).
      eapply quotes_carried_frame; [exact T | exact Q | exact F |].
      apply quotes_carried_restore_defaults. exact Hwf. }
    destruct chars as [chars|].
    2: { unfold m4_set_syntax in Hrun. simpl in Hrun.
         destruct (Z.eqb_spec key NUL); [contradiction|]. discriminate. }
    destruct (Z_lt_dec (m4_syntax_code key) 0) as [Hc|Hc].
    { rewrite m4_set_syntax_unknown in Hrun by assumption.
      injection Hrun as <-. exact Hq. }
    rewrite m4_set_syntax_verb in Hrun by lia.
    destruct (verb_body s action chars (m4_syntax_code key)) as [v|] eqn:Hv;
      [|discriminate].
    injection Hrun as <-.
    assert (In (m4_syntax_code key) all_codes) as Hin.
    { destruct (m4_syntax_code_cases key); [lia | assumption]. }
    destruct (finish_fields v false true) as (T & _ & Q & _ & F & _).
    eapply quotes_carried_frame; [exact T | exact Q | exact F |].
    eapply quotes_carried_verb_body; [exact Hwf | exact Hin | exact Hq | | exact Hv].
    intros Ha Hf. simpl in Hadd. subst action.
    assert ((key =? NUL) = false) as Hk' by (apply Z.eqb_neq; exact Hk).
    assert ((0 <=? m4_syntax_code key) = true) as Hc' by (apply Z.leb_le; lia).
    rewrite Hk', Hc', Hf, Z.eqb_refl in Hadd. simpl in Hadd. exact Hadd.
  - rewrite m4_set_quotes_eq in Hrun by apply (wf_length _ Hwf).
    destruct (streq _ _ && streq _ _).
    { injection Hrun as <-. exact Hq. }
    injection Hrun as <-.
    match goal with |- quotes_carried (set_quote_age ?x _ _) =>
      destruct (set_quote_age_fields x false false) as (T & _ & Q & _ & F & _);
      eapply quotes_carried_frame; [exact T | exact Q | exact F |]
    end.
    apply quotes_carried_install_quotes. exact Hwf.
  - rewrite m4_set_comment_eq in Hrun by apply (wf_length _ Hwf).
    destruct (streq _ _ && streq _ _).
    { injection Hrun as <-. exact Hq. }
    injection Hrun as <-.
    match goal with |- quotes_carried (set_quote_age ?x _ _) =>
      destruct (set_quote_age_fields x false false) as (T & _ & Q & _ & F & _);
      eapply quotes_carried_frame; [exact T | exact Q | exact F |]
    end.
    apply quotes_carried_install_comment; assumption.
  - destruct (m4__quote_cache s obs age q) as [[[s1 o1] r1]|] eqn:E;
      [|discriminate].
    injection Hrun as <-.
    destruct (m4__quote_cache_recache _ _ _ _ _ _ _ E) as (c & l & r & ->).
    eapply quotes_carried_frame; [.. | exact Hq]; reflexivity.
Qed.

Lemma single_quotes_backed_witness :
  exists s',
    run_op (SetQuotes (Some (str ["["%char])) (Some (str ["]"%char]))) fresh
    = Some s'
    /\ (is_single_quotes s' = true ->
        len1 (quote s') = 1 /\ len2 (quote s') = 1
        /\ m4_has_syntax s' (left_quote_byte s') M4_SYNTAX_LQUOTE = true
        /\ m4_has_syntax s' (right_quote_byte s') M4_SYNTAX_RQUOTE = true).
Proof.
  destruct (run_op (SetQuotes (Some (str ["["%char])) (Some (str ["]"%char])))
              fresh) as [s'|] eqn:E; [|vm_compute in E; discriminate].
  exists s'. split; [reflexivity|].
  apply (proj2 single_quotes_backed fresh
           (SetQuotes (Some (str ["["%char])) (Some (str ["]"%char]))) s').
  - apply reachable_create. vm_compute. reflexivity.
  - apply (proj1 single_quotes_backed fresh). vm_compute. reflexivity.
  - reflexivity.
  - reflexivity.
  - exact E.
Defined.

(** * Further properties *)

(** ** Invariants of reachable tables, by the shape of the operations *)

Lemma quote_args_c_string lq rq :
  c_string_opt lq = true -> c_string_opt rq = true ->
  c_string (fst (quote_args lq rq)) = true
  /\ c_string (snd (quote_args lq rq)) = true.
Proof.
  intros Hl Hr. unfold quote_args.
  destruct lq as [l|]; [|split; reflexivity].
  destruct rq as [r|]; simpl in *.
  - destruct (truthy (deref l) && negb (truthy (deref r))); simpl;
      split; try reflexivity; assumption.
  - split; [assumption | reflexivity].
Qed.

Lemma comment_args_c_string bc ec :
  c_string_opt bc = true -> c_string_opt ec = true ->
  c_string (fst (comment_args bc ec)) = true
  /\ c_string (snd (comment_args bc ec)) = true.
Proof.
  intros Hl Hr. unfold comment_args.
  destruct bc as [l|]; [|split; reflexivity].
  destruct ec as [r|]; simpl in *.
  - destruct (truthy (deref l) && negb (truthy (deref r))); simpl;
      split; try reflexivity; assumption.
  - split; [assumption | reflexivity].
Qed.

Lemma c_string_truthy l :
  c_string l = true -> truthy (deref l) = true <-> l <> [].
Proof.
  intros H. destruct l as [|c l]; simpl.
  - split; [discriminate | congruence].
  - simpl in H. apply andb_true_iff in H as [H _]. unfold c_char in H.
    apply andb_true_iff in H as [H _]. apply Z.ltb_lt in H.
    unfold truthy. destruct (Z.eqb_spec c 0); [lia|].
    split; [discriminate | reflexivity].
Qed.

Lemma quote_args_pair lq rq :
  c_string_opt lq = true -> c_string_opt rq = true ->
  fst (quote_args lq rq) <> [] -> snd (quote_args lq rq) <> [].
Proof.
  intros Hl Hr. unfold quote_args.
  destruct lq as [l|]; [|discriminate].
  destruct rq as [r|]; [|discriminate]. simpl in Hl, Hr.
  destruct (truthy (deref l) && negb (truthy (deref r))) eqn:E;
    cbv beta iota delta [fst snd]; [discriminate|].
  intros Hne. apply (c_string_truthy l Hl) in Hne. rewrite Hne in E.
  simpl in E. apply negb_false_iff in E. apply (c_string_truthy r Hr) in E.
  exact E.
Qed.

Lemma comment_args_pair bc ec :
  c_string_opt bc = true -> c_string_opt ec = true ->
  fst (comment_args bc ec) <> [] -> snd (comment_args bc ec) <> [].
Proof.
  intros Hl Hr. unfold comment_args.
  destruct bc as [l|]; [|intros H; exact H].
  destruct ec as [r|]; [|discriminate]. simpl in Hl, Hr.
  destruct (truthy (deref l) && negb (truthy (deref r))) eqn:E;
    cbv beta iota delta [fst snd]; [discriminate|].
  intros Hne. apply (c_string_truthy l Hl) in Hne. rewrite Hne in E.
  simpl in E. apply negb_false_iff in E. apply (c_string_truthy r Hr) in E.
  exact E.
Qed.

(** An invariant of reachable tables is a property of the fresh table
    that each stage of an operation keeps. *)
Lemma reachable_invariant (I : m4_syntax_table -> Prop) :
  I fresh ->
  (forall s c l r, I s -> I (recache s c l r)) ->
  (forall s r c, well_formed s -> I s -> I (set_quote_age s r c)) ->
  (forall s, well_formed s -> I s -> I (restore_defaults s)) ->
  (forall s action chars code v,
     well_formed s -> I s -> In code all_codes -> c_string chars = true ->
     verb_body s action chars code = Some v -> I v) ->
  (forall s lq rq,
     well_formed s -> I s -> c_string lq = true -> c_string rq = true ->
     (lq <> [] -> rq <> []) ->
     I (install_quotes s lq rq)) ->
  (forall s bc ec,
     well_formed s -> I s -> c_string bc = true -> c_string ec = true ->
     (bc <> [] -> ec <> []) ->
     I (install_comment s bc ec)) ->
  forall s, reachable s -> I s.
Proof.
  intros Hfresh Hcache Hage Hreset Hverb Hquotes Hcomment s Hr.
  induction Hr as [s Hs | s op s' Hr IH Hop Hrun].
  { rewrite m4_syntax_create_fresh in Hs. injection Hs as <-. exact Hfresh. }
  pose proof (reachable_well_formed s Hr) as Hwf.
  destruct op as [key action chars | lq rq | bc ec | obs age q];
    simpl in Hop, Hrun.
  - destruct (Z.eq_dec key NUL) as [->|Hk].
    { rewrite m4_set_syntax_reset in Hrun. injection Hrun as <-.
      apply Hage; [apply well_formed_restore_defaults; exact Hwf|].
      apply Hreset; assumption. }
    destruct chars as [chars|].
    2: { unfold m4_set_syntax in Hrun. simpl in Hrun.
         destruct (Z.eqb_spec key NUL); [contradiction|]. discriminate. }
    destruct (Z_lt_dec (m4_syntax_code key) 0) as [Hc|Hc].
    { rewrite m4_set_syntax_unknown in Hrun by assumption.
      injection Hrun as <-. exact IH. }
    rewrite m4_set_syntax_verb in Hrun by lia.
    destruct (verb_body s action chars (m4_syntax_code key)) as [v|] eqn:Hv;
      [|discriminate].
    injection Hrun as <-.
    assert (In (m4_syntax_code key) all_codes) as Hin.
    { destruct (m4_syntax_code_cases key); [lia | assumption]. }
    destruct (well_formed_verb_body s action chars _ Hwf Hin
                (verb_body_valid_action _ _ _ _ _ Hv)) as (v' & E & W & _).
    rewrite Hv in E. injection E as <-.
    unfold m4__quote_uncache. rewrite recache_quote. apply Hcache.
    apply Hage; [exact W|].
    apply (Hverb s action chars (m4_syntax_code key) v Hwf IH Hin Hop Hv).
  - apply andb_true_iff in Hop as [Hl Hq].
    rewrite m4_set_quotes_eq in Hrun by apply (wf_length _ Hwf).
    destruct (streq _ _ && streq _ _).
    { injection Hrun as <-. exact IH. }
    injection Hrun as <-.
    destruct (quote_args_c_string lq rq Hl Hq) as [C1 C2].
    destruct (quote_args_bytes lq rq Hl Hq) as [B1 B2].
    apply Hage; [apply well_formed_install_quotes; assumption|].
    apply Hquotes; try assumption.
    apply quote_args_pair; assumption.
  - apply andb_true_iff in Hop as [Hl Hq].
    rewrite m4_set_comment_eq in Hrun by apply (wf_length _ Hwf).
    destruct (streq _ _ && streq _ _).
    { injection Hrun as <-. exact IH. }
    injection Hrun as <-.
    destruct (comment_args_c_string bc ec Hl Hq) as [C1 C2].
    destruct (comment_args_bytes bc ec Hl Hq) as [B1 B2].
    apply Hage; [apply well_formed_install_comment; assumption|].
    apply Hcomment; try assumption.
    apply comment_args_pair; assumption.
  - destruct (m4__quote_cache s obs age q) as [[[s1 o1] r1]|] eqn:E;
      [|discriminate].
    injection Hrun as <-.
    destruct (m4__quote_cache_recache _ _ _ _ _ _ _ E) as (c & l & r & ->).
    apply Hcache. exact IH.
Qed.

(** ** What a checker leaves *)

(** A checker leaves the table as it is, or clears its flag, or rewrites
    the first bytes of its pair to two characters that carry the codes. *)
Lemma check_is_single_quotes_cases s :
  single_lengths (is_single_quotes s) (quote s) ->
  check_is_single_quotes s = Some s
  \/ check_is_single_quotes s = Some (set_is_single_quotes s false)
  \/ exists l r,
       (0 <= l < 256 /\ m4_has_syntax s l M4_SYNTAX_LQUOTE = true)
       /\ (0 <= r < 256 /\ m4_has_syntax s r M4_SYNTAX_RQUOTE = true)
       /\ is_single_quotes s = true
       /\ check_is_single_quotes s
          = Some (set_quote s
                    (mk_pair (poke (str1 (quote s)) l) (len1 (quote s))
                             (poke (str2 (quote s)) r) (len2 (quote s)))).
Proof.
  intros Hlen. unfold check_is_single_quotes.
  destruct (is_single_quotes s) eqn:Hflag; simpl; [|left; reflexivity].
  destruct (Hlen eq_refl) as [L1 L2]. rewrite L1, L2. simpl.
  destruct (m4_has_syntax s (deref (str1 (quote s))) M4_SYNTAX_LQUOTE
            && m4_has_syntax s (deref (str2 (quote s))) M4_SYNTAX_RQUOTE);
    [left; reflexivity|].
  pose proof (scan_delims_found s M4_SYNTAX_LQUOTE M4_SYNTAX_RQUOTE all_chars
                (-1) (-1) all_chars_le
                (or_introl eq_refl) (or_introl eq_refl)) as [Fl Fr].
  destruct (scan_delims s M4_SYNTAX_LQUOTE M4_SYNTAX_RQUOTE all_chars (-1) (-1))
    as [[lquote rquote] kept]. simpl in Fl, Fr.
  destruct (Z.eqb_spec lquote (-1)) as [El|El]; simpl.
  { right; left. destruct kept; reflexivity. }
  destruct (Z.eqb_spec rquote (-1)) as [Er|Er]; simpl.
  { right; left. destruct kept; reflexivity. }
  destruct kept; simpl.
  - rewrite Hflag. right; right. exists lquote, rquote.
    destruct Fl as [|Fl]; [contradiction|].
    destruct Fr as [|Fr]; [contradiction|].
    rewrite L1, L2. repeat split; try tauto.
  - right; left. reflexivity.
Qed.

Lemma check_is_single_comments_cases s :
  single_lengths (is_single_comments s) (comm s) ->
  check_is_single_comments s = Some s
  \/ check_is_single_comments s = Some (set_is_single_comments s false)
  \/ exists l r,
       (0 <= l < 256 /\ m4_has_syntax s l M4_SYNTAX_BCOMM = true)
       /\ (0 <= r < 256 /\ m4_has_syntax s r M4_SYNTAX_ECOMM = true)
       /\ is_single_comments s = true
       /\ check_is_single_comments s
          = Some (set_comm s
                    (mk_pair (poke (str1 (comm s)) l) (len1 (comm s))
                             (poke (str2 (comm s)) r) (len2 (comm s)))).
Proof.
  intros Hlen. unfold check_is_single_comments.
  destruct (is_single_comments s) eqn:Hflag; simpl; [|left; reflexivity].
  destruct (Hlen eq_refl) as [L1 L2]. rewrite L1, L2. simpl.
  destruct (m4_has_syntax s (deref (str1 (comm s))) M4_SYNTAX_BCOMM
            && m4_has_syntax s (deref (str2 (comm s))) M4_SYNTAX_ECOMM);
    [left; reflexivity|].
  pose proof (scan_delims_found s M4_SYNTAX_BCOMM M4_SYNTAX_ECOMM all_chars
                (-1) (-1) all_chars_le
                (or_introl eq_refl) (or_introl eq_refl)) as [Fl Fr].
  destruct (scan_delims s M4_SYNTAX_BCOMM M4_SYNTAX_ECOMM all_chars (-1) (-1))
    as [[bcomm ecomm] kept]. simpl in Fl, Fr.
  destruct (Z.eqb_spec bcomm (-1)) as [El|El]; simpl.
  { right; left. destruct kept; reflexivity. }
  destruct (Z.eqb_spec ecomm (-1)) as [Er|Er]; simpl.
  { right; left. destruct kept; reflexivity. }
  destruct kept; simpl.
  - rewrite Hflag. right; right. exists bcomm, ecomm.
    destruct Fl as [|Fl]; [contradiction|].
    destruct Fr as [|Fr]; [contradiction|].
    rewrite L1, L2. repeat split; try tauto.
  - right; left. reflexivity.
Qed.

(** ** The stored strings are C strings, and NUL stays OTHER *)

Lemma strings_ok_frame s s' :
  quote s' = quote s -> comm s' = comm s ->
  entry (table s') 0 = entry (table s) 0 ->
  cached_simple s' = cached_simple s ->
  strings_ok s -> strings_ok s'.
Proof.
  intros Hq Hc Ht Hs []. constructor; rewrite ?Hq, ?Hc, ?Ht, ?Hs; assumption.
Qed.

Lemma c_string_not_nul chars :
  c_string chars = true -> ~ In 0 (map to_uchar chars).
Proof.
  intros H Hin. apply in_map_iff in Hin as (c & E & Hc).
  unfold c_string in H. rewrite forallb_forall in H. specialize (H c Hc).
  unfold c_char in H. apply andb_true_iff in H as [H1 H2].
  apply Z.ltb_lt in H1, H2. rewrite to_uchar_small in E by lia. lia.
Qed.

Lemma c_string_single l :
  c_string l = true -> strlen l = 1 ->
  0 < deref l < 256 /\ l = [deref l].
Proof.
  intros H L. unfold strlen in L.
  destruct l as [|c [|]]; simpl in L; try lia. simpl in H.
  apply andb_true_iff in H as [H _]. unfold c_char in H.
  apply andb_true_iff in H as [H1 H2]. apply Z.ltb_lt in H1, H2.
  simpl. split; [lia | reflexivity].
Qed.

Lemma c_string_poke l v :
  c_string l = true -> 0 < v < 256 -> c_string (poke l v) = true.
Proof.
  intros H Hv. assert (c_char v = true) as Hc.
  { unfold c_char. apply andb_true_iff. split; apply Z.ltb_lt; lia. }
  destruct l as [|c l]; simpl in *; rewrite Hc; [reflexivity|].
  apply andb_true_iff in H as [_ H]. exact H.
Qed.

Lemma poke_not_empty l v : poke l v <> [].
Proof. destruct l; discriminate. Qed.

Lemma nul_carries_nothing s code :
  entry (table s) 0 = M4_SYNTAX_OTHER ->
  In code [M4_SYNTAX_LQUOTE; M4_SYNTAX_RQUOTE; M4_SYNTAX_BCOMM;
           M4_SYNTAX_ECOMM; M4_SYNTAX_ESCAPE] ->
  m4_has_syntax s 0 code = false.
Proof.
  intros H Hc. unfold m4_has_syntax, m4_syntab.
  change (to_uchar 0) with 0. rewrite H.
  simpl in Hc. destruct Hc as [<-|[<-|[<-|[<-|[<-|[]]]]]]; reflexivity.
Qed.

Lemma strings_ok_check_quotes s s' :
  single_lengths (is_single_quotes s) (quote s) ->
  check_is_single_quotes s = Some s' -> strings_ok s -> strings_ok s'.
Proof.
  intros Hlen Hc Hok.
  destruct (check_is_single_quotes_cases s Hlen)
    as [E | [E | (l & r & [Rl Hl] & [Rr Hr] & _ & E)]];
    rewrite E in Hc; injection Hc as <-.
  - exact Hok.
  - revert Hok. apply strings_ok_frame; reflexivity.
  - assert (l <> 0) as Nl.
    { intros ->. rewrite nul_carries_nothing in Hl; [discriminate| |].
      - apply (so_nul _ Hok).
      - simpl. tauto. }
    assert (r <> 0) as Nr.
    { intros ->. rewrite nul_carries_nothing in Hr; [discriminate| |].
      - apply (so_nul _ Hok).
      - simpl. tauto. }
    destruct Hok. constructor; simpl; try assumption.
    + apply c_string_poke; [assumption | lia].
    + apply c_string_poke; [assumption | lia].
    + intros _. apply poke_not_empty.
Qed.

Lemma strings_ok_check_comments s s' :
  single_lengths (is_single_comments s) (comm s) ->
  check_is_single_comments s = Some s' -> strings_ok s -> strings_ok s'.
Proof.
  intros Hlen Hc Hok.
  destruct (check_is_single_comments_cases s Hlen)
    as [E | [E | (l & r & [Rl Hl] & [Rr Hr] & _ & E)]];
    rewrite E in Hc; injection Hc as <-.
  - exact Hok.
  - revert Hok. apply strings_ok_frame; reflexivity.
  - assert (l <> 0) as Nl.
    { intros ->. rewrite nul_carries_nothing in Hl; [discriminate| |].
      - apply (so_nul _ Hok).
      - simpl. tauto. }
    assert (r <> 0) as Nr.
    { intros ->. rewrite nul_carries_nothing in Hr; [discriminate| |].
      - apply (so_nul _ Hok).
      - simpl. tauto. }
    destruct Hok. constructor; simpl; try assumption.
    + apply c_string_poke; [assumption | lia].
    + apply c_string_poke; [assumption | lia].
    + intros _. apply poke_not_empty.
Qed.

(** The two checkers in a row, as [set_syntax_set] and [reset_syntax_set]
    call them. *)
Lemma strings_ok_checkers s s' :
  well_formed s ->
  (let? s1 := check_is_single_quotes s in check_is_single_comments s1)
  = Some s' ->
  strings_ok s -> strings_ok s'.
Proof.
  intros Hwf Hc Hok.
  destruct (check_is_single_quotes s) as [s1|] eqn:E1; [|discriminate].
  simpl in Hc.
  pose proof (strings_ok_check_quotes s s1 (wf_single_quotes _ Hwf) E1 Hok)
    as Hok1.
  destruct (check_is_single_quotes_spec s (wf_single_quotes _ Hwf))
    as (q & b & E & F).
  rewrite E in E1. injection E1 as <-.
  eapply strings_ok_check_comments; [|exact Hc | exact Hok1].
  apply (wf_single_comments _ Hwf).
Qed.

Lemma strings_ok_update_chars s f chars :
  c_string chars = true -> strings_ok s ->
  strings_ok (set_table s (update_chars f (table s) chars)).
Proof.
  intros Hc. apply strings_ok_frame; try reflexivity. simpl.
  apply entry_update_chars_other; [lia | apply c_string_not_nul; exact Hc].
Qed.

Lemma strings_ok_sweep s g :
  length (table s) = all_chars ->
  g 0 M4_SYNTAX_OTHER = M4_SYNTAX_OTHER -> strings_ok s ->
  strings_ok (set_table s (sweep all_chars g (table s))).
Proof.
  intros Hl Hg Hok. pose proof (so_nul _ Hok) as Hn. revert Hok.
  apply strings_ok_frame; try reflexivity.
  simpl. rewrite entry_sweep_all by (assumption || lia).
  rewrite Hn. exact Hg.
Qed.

Lemma clear_entry_other code :
  In code all_codes -> clear_entry code M4_SYNTAX_OTHER = M4_SYNTAX_OTHER.
Proof.
  intros H. apply Z.eqb_eq. revert code H.
  apply (proj1 (forallb_forall
                  (fun c => clear_entry c M4_SYNTAX_OTHER =? M4_SYNTAX_OTHER)
                  all_codes)).
  vm_compute. reflexivity.
Qed.

Lemma reset_entry_nul code :
  In code all_codes ->
  reset_entry (orig fresh) code 0 M4_SYNTAX_OTHER = M4_SYNTAX_OTHER.
Proof.
  intros H. apply Z.eqb_eq. revert code H.
  apply (proj1 (forallb_forall
                  (fun c => reset_entry (orig fresh) c 0 M4_SYNTAX_OTHER
                            =? M4_SYNTAX_OTHER)
                  all_codes)).
  vm_compute. reflexivity.
Qed.

Lemma strings_ok_set_is_macro_escaped s b :
  strings_ok s -> strings_ok (set_is_macro_escaped s b).
Proof. apply strings_ok_frame; reflexivity. Qed.

Lemma strings_ok_check_is_macro_escaped s :
  strings_ok s -> strings_ok (check_is_macro_escaped s).
Proof. apply strings_ok_set_is_macro_escaped. Qed.

Lemma strings_ok_verb_body s action chars code v :
  well_formed s -> In code all_codes -> c_string chars = true ->
  verb_body s action chars code = Some v -> strings_ok s -> strings_ok v.
Proof.
  intros Hwf Hc Hs Hv Hok. unfold verb_body in Hv.
  destruct (action =? chr "+").
  { injection Hv as <-. rewrite add_syntax_set_eq.
    destruct (deref chars =? NUL); [exact Hok|].
    assert (strings_ok (if code =? M4_SYNTAX_ESCAPE
                        then set_is_macro_escaped s true else s)) as H1.
    { destruct (code =? M4_SYNTAX_ESCAPE); [|exact Hok].
      apply strings_ok_set_is_macro_escaped. exact Hok. }
    replace (table s)
      with (table (if code =? M4_SYNTAX_ESCAPE
                   then set_is_macro_escaped s true else s))
      by (destruct (code =? M4_SYNTAX_ESCAPE); reflexivity).
    apply strings_ok_update_chars; assumption. }
  destruct (action =? chr "-").
  { rewrite subtract_syntax_set_eq in Hv.
    destruct (deref chars =? NUL); [injection Hv as <-; exact Hok|].
    cbv zeta in Hv.
    pose proof (well_formed_update_chars s (subtract_entry code) chars Hwf
                  (fun e => subtract_entry_valid code e Hc)) as Hwx.
    pose proof (strings_ok_update_chars s (subtract_entry code) chars Hs Hok)
      as Hx.
    set (x := set_table s (update_chars (subtract_entry code) (table s) chars))
      in *.
    destruct (code =? M4_SYNTAX_ESCAPE).
    { injection Hv as <-.
      match goal with |- context [if ?b then _ else _] => destruct b end;
        [|exact Hx].
      apply strings_ok_check_is_macro_escaped. exact Hx. }
    destruct ((code =? M4_SYNTAX_LQUOTE) || (code =? M4_SYNTAX_RQUOTE)).
    { destruct (is_single_quotes x); [|injection Hv as <-; exact Hx].
      eapply strings_ok_check_quotes; [|exact Hv | exact Hx].
      apply (wf_single_quotes _ Hwx). }
    destruct ((code =? M4_SYNTAX_BCOMM) || (code =? M4_SYNTAX_ECOMM)).
    { destruct (is_single_comments x); [|injection Hv as <-; exact Hx].
      eapply strings_ok_check_comments; [|exact Hv | exact Hx].
      apply (wf_single_comments _ Hwx). }
    injection Hv as <-. exact Hx. }
  destruct (action =? chr "=").
  { rewrite set_syntax_set_eq in Hv. cbv zeta in Hv.
    pose proof (well_formed_sweep s (fun _ => clear_entry code) Hwf
                  (fun _ e => clear_entry_valid code e Hc)) as H1.
    pose proof (strings_ok_sweep s (fun _ => clear_entry code)
                  (wf_length _ Hwf) (clear_entry_other code Hc) Hok) as K1.
    apply (well_formed_update_chars _ (fun e => add_entry e code) chars)
      in H1; [|intros e He; apply add_entry_valid; assumption].
    apply (strings_ok_update_chars _ (fun e => add_entry e code) chars Hs)
      in K1.
    simpl in H1, K1.
    eapply strings_ok_checkers; [| exact Hv |].
    - apply well_formed_set_is_macro_escaped. exact H1.
    - apply strings_ok_check_is_macro_escaped. exact K1. }
  destruct (action =? NUL); [|discriminate].
  rewrite reset_syntax_set_eq in Hv. cbv zeta in Hv.
  eapply strings_ok_checkers; [| exact Hv |].
  - apply well_formed_set_is_macro_escaped. apply well_formed_sweep;
      [exact Hwf|].
    intros ch e He. rewrite (wf_orig _ Hwf).
    apply reset_entry_valid; assumption.
  - assert (strings_ok (set_table s
              (sweep all_chars (reset_entry (orig s) code) (table s)))) as K.
    { apply strings_ok_sweep; [apply (wf_length _ Hwf) | | exact Hok].
      rewrite (wf_orig _ Hwf). apply reset_entry_nul. exact Hc. }
    apply strings_ok_check_is_macro_escaped. exact K.
Qed.

(** The fields that the installers, the full reset and [set_quote_age]
    leave alone. *)
Lemma install_quotes_cache s lq rq :
  cached_simple (install_quotes s lq rq) = cached_simple s
  /\ cached_quote (install_quotes s lq rq) = cached_quote s
  /\ cached_lquote (install_quotes s lq rq) = cached_lquote s
  /\ cached_rquote (install_quotes s lq rq) = cached_rquote s
  /\ orig (install_quotes s lq rq) = orig s
  /\ quote_age (install_quotes s lq rq) = quote_age s.
Proof.
  unfold install_quotes. cbv zeta.
  repeat match goal with
  | |- context [if ?b then _ else _] => destruct b
  end; rewrite ?add_syntax_attribute_eq; repeat split; reflexivity.
Qed.

Lemma install_comment_cache s bc ec :
  cached_simple (install_comment s bc ec) = cached_simple s
  /\ cached_quote (install_comment s bc ec) = cached_quote s
  /\ cached_lquote (install_comment s bc ec) = cached_lquote s
  /\ cached_rquote (install_comment s bc ec) = cached_rquote s
  /\ orig (install_comment s bc ec) = orig s
  /\ quote_age (install_comment s bc ec) = quote_age s.
Proof.
  unfold install_comment. cbv zeta.
  repeat match goal with
  | |- context [if ?b then _ else _] => destruct b
  end; rewrite ?add_syntax_attribute_eq; repeat split; reflexivity.
Qed.

Lemma restore_defaults_fields s :
  quote (restore_defaults s) = mk_pair DEF_LQUOTE 1 DEF_RQUOTE 1
  /\ comm (restore_defaults s) = mk_pair DEF_BCOMM 1 DEF_ECOMM 1
  /\ is_single_quotes (restore_defaults s) = true
  /\ is_single_comments (restore_defaults s) = true
  /\ is_macro_escaped (restore_defaults s) = false
  /\ orig (restore_defaults s) = orig s
  /\ cached_simple (restore_defaults s) = cached_simple s
  /\ cached_quote (restore_defaults s) = cached_quote s
  /\ cached_lquote (restore_defaults s) = cached_lquote s
  /\ cached_rquote (restore_defaults s) = cached_rquote s
  /\ quote_age (restore_defaults s) = quote_age s.
Proof.
  unfold restore_defaults. cbv zeta. rewrite !add_syntax_attribute_eq.
  repeat split; reflexivity.
Qed.

Lemma set_quote_age_cache s r c :
  cached_simple (set_quote_age s r c) = cached_simple s
  /\ cached_quote (set_quote_age s r c) = cached_quote s
  /\ cached_lquote (set_quote_age s r c) = cached_lquote s
  /\ cached_rquote (set_quote_age s r c) = cached_rquote s.
Proof. rewrite set_quote_age_eq. repeat split; reflexivity. Qed.

Lemma entry_store_other (t : list Z) a v :
  a <> 0 -> 0 <= a -> entry (store t a v) 0 = entry t 0.
Proof. intros H Ha. apply entry_store_ne; lia. Qed.

Lemma undelimit_core_other c_start c_end :
  In c_start [M4_SYNTAX_LQUOTE; M4_SYNTAX_BCOMM] ->
  In c_end [M4_SYNTAX_RQUOTE; M4_SYNTAX_ECOMM] ->
  undelimit_core c_start c_end M4_SYNTAX_OTHER M4_SYNTAX_OTHER
  = M4_SYNTAX_OTHER.
Proof.
  simpl. intros [<-|[<-|[]]] [<-|[<-|[]]]; reflexivity.
Qed.

Lemma strings_ok_install_quotes s lq rq :
  well_formed s -> c_string lq = true -> c_string rq = true ->
  (lq <> [] -> rq <> []) ->
  strings_ok s -> strings_ok (install_quotes s lq rq).
Proof.
  intros Hwf Hl Hr Hp Hok.
  destruct (install_quotes_fields s lq rq) as (Q & C & F & _ & T).
  destruct (install_quotes_cache s lq rq) as (S1 & _).
  pose proof (so_nul _ Hok) as Hn.
  assert (entry (sweep all_chars (unquote_entry (orig s)) (table s)) 0
          = M4_SYNTAX_OTHER) as Hsw.
  { rewrite entry_sweep_all by (apply (wf_length _ Hwf) || lia).
    rewrite Hn, (wf_orig _ Hwf). unfold unquote_entry.
    change (entry (orig fresh) 0) with M4_SYNTAX_OTHER.
    apply undelimit_core_other; simpl; tauto. }
  destruct Hok. constructor; rewrite ?Q, ?C, ?S1; simpl; try assumption.
  rewrite T.
  destruct ((strlen lq =? 1) && (strlen rq =? 1)
            && negb (m4_has_syntax s (deref lq) lquote_blockers)) eqn:E;
    [|exact Hsw].
  apply andb_true_iff in E as [E _]. apply andb_true_iff in E as [E1 E2].
  apply Z.eqb_eq in E1, E2.
  destruct (c_string_single lq Hl E1) as [R1 _].
  destruct (c_string_single rq Hr E2) as [R2 _].
  rewrite !to_uchar_small by lia.
  rewrite !entry_store_other by lia. exact Hsw.
Qed.

Lemma strings_ok_install_comment s bc ec :
  well_formed s -> c_string bc = true -> c_string ec = true ->
  (bc <> [] -> ec <> []) ->
  strings_ok s -> strings_ok (install_comment s bc ec).
Proof.
  intros Hwf Hl Hr Hp Hok.
  destruct (install_comment_fields s bc ec) as (Q & C & F & _ & T).
  destruct (install_comment_cache s bc ec) as (S1 & _).
  pose proof (so_nul _ Hok) as Hn.
  assert (entry (sweep all_chars (uncomment_entry (orig s)) (table s)) 0
          = M4_SYNTAX_OTHER) as Hsw.
  { rewrite entry_sweep_all by (apply (wf_length _ Hwf) || lia).
    rewrite Hn, (wf_orig _ Hwf). unfold uncomment_entry.
    change (entry (orig fresh) 0) with M4_SYNTAX_OTHER.
    apply undelimit_core_other; simpl; tauto. }
  destruct Hok. constructor; rewrite ?Q, ?C, ?S1; simpl; try assumption.
  rewrite T.
  destruct ((strlen bc =? 1) && (strlen ec =? 1)
            && negb (m4_has_syntax s (deref bc) bcomm_blockers)) eqn:E;
    [|exact Hsw].
  apply andb_true_iff in E as [E _]. apply andb_true_iff in E as [E1 E2].
  apply Z.eqb_eq in E1, E2.
  destruct (c_string_single bc Hl E1) as [R1 _].
  destruct (c_string_single ec Hr E2) as [R2 _].
  rewrite !to_uchar_small by lia.
  rewrite !entry_store_other by lia. exact Hsw.
Qed.

Lemma strings_ok_restore_defaults s :
  well_formed s -> strings_ok s -> strings_ok (restore_defaults s).
Proof.
  intros Hwf Hok.
  destruct (restore_defaults_fields s)
    as (Q & C & _ & _ & _ & _ & S1 & _).
  pose proof (table_restore_defaults s (wf_orig _ Hwf)) as T.
  destruct Hok. constructor; rewrite ?Q, ?C, ?S1, ?T; try assumption;
    try reflexivity; discriminate.
Qed.

Lemma strings_ok_fresh : strings_ok fresh.
Proof. constructor; try reflexivity; discriminate. Qed.

Lemma reachable_strings_ok s : reachable s -> strings_ok s.
Proof.
  apply reachable_invariant.
  - apply strings_ok_fresh.
  - intros x c l r. apply strings_ok_frame; reflexivity.
  - intros x r c _.
    destruct (set_quote_age_fields x r c) as (T & _ & Q & C & _).
    destruct (set_quote_age_cache x r c) as (S1 & _).
    apply strings_ok_frame; [exact Q | exact C | | exact S1].
    cbv zeta in T. rewrite T. reflexivity.
  - apply strings_ok_restore_defaults.
  - intros x action chars code v Hwf Hok Hc Hs Hv.
    exact (strings_ok_verb_body x action chars code v Hwf Hc Hs Hv Hok).
  - intros x lq rq Hwf Hok Hl Hr Hp.
    apply strings_ok_install_quotes; assumption.
  - intros x bc ec Hwf Hok Hl Hr Hp.
    apply strings_ok_install_comment; assumption.
Qed.

(** ** The flag of the escapes never misses an escape *)

Lemma escape_only_if_self e :
  valid_entry e = true ->
  escape_only_if (has_bits e M4_SYNTAX_ESCAPE) e = true.
Proof.
  intros H. unfold escape_only_if. rewrite H.
  destruct (has_bits e M4_SYNTAX_ESCAPE); reflexivity.
Qed.

Lemma escape_only_if_valid b e :
  escape_only_if b e = true -> valid_entry e = true.
Proof. intros H. apply andb_true_iff in H as [H _]. exact H. Qed.

Lemma escape_only_if_add b c e :
  In c all_codes -> c <> M4_SYNTAX_ESCAPE ->
  escape_only_if b e = true -> escape_only_if b (add_entry e c) = true.
Proof.
  intros Hc Hne H. pose proof (escape_only_if_valid _ _ H) as Hv.
  pose proof (valid_entry_forall2
    (fun e c => (c =? M4_SYNTAX_ESCAPE)
                || implb (escape_only_if b e)
                         (escape_only_if b (add_entry e c)))
    all_codes) as K.
  specialize (K ltac:(destruct b; vm_compute; reflexivity) e c Hv Hc).
  simpl in K. rewrite H in K.
  destruct (Z.eqb_spec c M4_SYNTAX_ESCAPE); [contradiction | exact K].
Qed.

Lemma escape_only_if_subtract b c e :
  In c all_codes ->
  escape_only_if b e = true -> escape_only_if b (subtract_entry c e) = true.
Proof.
  intros Hc H. pose proof (escape_only_if_valid _ _ H) as Hv.
  pose proof (valid_entry_forall2
    (fun e c => implb (escape_only_if b e)
                      (escape_only_if b (subtract_entry c e)))
    all_codes) as K.
  specialize (K ltac:(destruct b; vm_compute; reflexivity) e c Hv Hc).
  simpl in K. rewrite H in K. exact K.
Qed.

Lemma escape_only_if_undelimit b c_start c_end d e :
  In c_start [M4_SYNTAX_LQUOTE; M4_SYNTAX_BCOMM] ->
  In c_end mask_codes -> In d basis_codes -> d <> M4_SYNTAX_ESCAPE ->
  escape_only_if b e = true ->
  escape_only_if b (undelimit_core c_start c_end d e) = true.
Proof.
  intros Hs He Hd Hne H. pose proof (escape_only_if_valid _ _ H) as Hv.
  assert (forall c_start c_end,
            In c_start [M4_SYNTAX_LQUOTE; M4_SYNTAX_BCOMM] ->
            In c_end mask_codes ->
            forallb (fun e => forallb (fun d =>
              (d =? M4_SYNTAX_ESCAPE)
              || implb (escape_only_if b e)
                   (escape_only_if b (undelimit_core c_start c_end d e)))
              basis_codes) valid_entries = true) as K.
  { intros cs ce Hcs Hce. simpl in Hcs, Hce.
    destruct Hcs as [<-|[<-|[]]]; destruct Hce as [<-|[<-|[]]];
      destruct b; vm_compute; reflexivity. }
  specialize (K c_start c_end Hs He).
  pose proof (valid_entry_forall2 _ _ K e d Hv Hd) as K1.
  simpl in K1. rewrite H in K1.
  destruct (Z.eqb_spec d M4_SYNTAX_ESCAPE); [contradiction | exact K1].
Qed.

Lemma orig_not_escape ch : entry (orig fresh) ch <> M4_SYNTAX_ESCAPE.
Proof.
  destruct (Z_lt_dec ch 0) as [Hn|Hn].
  { unfold entry. replace (Z.to_nat ch) with 0%nat by lia. discriminate. }
  destruct (Z_lt_dec ch 256) as [Hlt|Hge].
  - apply Z.eqb_neq. apply negb_true_iff. revert ch Hn Hlt.
    intros ch Hn Hlt.
    apply (range_forall
             (fun ch => negb (entry (orig fresh) ch =? M4_SYNTAX_ESCAPE)));
      [vm_compute; reflexivity | lia].
  - unfold entry. rewrite (proj2 (lookup_ge_None _ _)); [discriminate|].
    change (length (orig fresh)) with 256%nat. lia.
Qed.

(** A table whose entries add no escape to those of a table with the
    invariant, under the same flag, has the invariant. *)
Lemma escape_noted_table s s' :
  (forall ch, 0 <= ch < 256 ->
     escape_only_if (has_bits (entry (table s) ch) M4_SYNTAX_ESCAPE)
       (entry (table s') ch) = true) ->
  is_macro_escaped s' = is_macro_escaped s ->
  escape_noted s -> escape_noted s'.
Proof.
  intros Ht Hf Hn ch Hch Hhas. rewrite Hf. apply (Hn ch Hch).
  specialize (Ht ch Hch). apply andb_true_iff in Ht as [_ Ht].
  unfold m4_has_syntax, m4_syntab in *.
  rewrite to_uchar_small in * by exact Hch.
  unfold has_bits in Ht. rewrite Hhas in Ht. exact Ht.
Qed.

Lemma escape_noted_flag s s' :
  table s' = table s -> is_macro_escaped s' = true -> escape_noted s'.
Proof. intros _ H ch _ _. exact H. Qed.

Lemma escape_noted_check s : escape_noted (check_is_macro_escaped s).
Proof.
  intros ch Hch Hhas. unfold check_is_macro_escaped. simpl.
  apply scan_escape_spec. exists ch. split; [exact Hch | exact Hhas].
Qed.

Lemma escape_noted_frame s s' :
  table s' = table s -> is_macro_escaped s' = is_macro_escaped s ->
  escape_noted s -> escape_noted s'.
Proof.
  intros Ht Hf Hn ch Hch Hhas. rewrite Hf. apply (Hn ch Hch).
  unfold m4_has_syntax, m4_syntab in *. rewrite <- Ht. exact Hhas.
Qed.

Lemma escape_only_if_update_chars s f chars ch :
  well_formed s ->
  (forall b e, escape_only_if b e = true -> escape_only_if b (f e) = true) ->
  0 <= ch < 256 ->
  escape_only_if (has_bits (entry (table s) ch) M4_SYNTAX_ESCAPE)
    (entry (update_chars f (table s) chars) ch) = true.
Proof.
  intros Hwf Hf Hch.
  apply (entry_update_chars_closed
           (fun e => escape_only_if
                       (has_bits (entry (table s) ch) M4_SYNTAX_ESCAPE) e
                     = true));
    [apply Hf | lia |].
  apply escape_only_if_self. apply entry_valid. exact Hwf.
Qed.

Lemma escape_only_if_sweep s g ch :
  well_formed s ->
  (forall b c e, escape_only_if b e = true ->
                 escape_only_if b (g c e) = true) ->
  0 <= ch < 256 ->
  escape_only_if (has_bits (entry (table s) ch) M4_SYNTAX_ESCAPE)
    (entry (sweep all_chars g (table s)) ch) = true.
Proof.
  intros Hwf Hg Hch.
  rewrite entry_sweep_all by (apply (wf_length _ Hwf) || exact Hch).
  apply Hg. apply escape_only_if_self. apply entry_valid. exact Hwf.
Qed.

Lemma escape_noted_check_quotes s s' :
  single_lengths (is_single_quotes s) (quote s) ->
  check_is_single_quotes s = Some s' -> escape_noted s -> escape_noted s'.
Proof.
  intros Hlen Hc.
  destruct (check_is_single_quotes_spec s Hlen) as (q & b & E & _).
  rewrite E in Hc. injection Hc as <-.
  apply escape_noted_frame; reflexivity.
Qed.

Lemma escape_noted_check_comments s s' :
  single_lengths (is_single_comments s) (comm s) ->
  check_is_single_comments s = Some s' -> escape_noted s -> escape_noted s'.
Proof.
  intros Hlen Hc.
  destruct (check_is_single_comments_spec s Hlen) as (q & b & E & _).
  rewrite E in Hc. injection Hc as <-.
  apply escape_noted_frame; reflexivity.
Qed.

Lemma escape_noted_checkers s s' :
  well_formed s ->
  (let? s1 := check_is_single_quotes s in check_is_single_comments s1)
  = Some s' ->
  escape_noted s -> escape_noted s'.
Proof.
  intros Hwf Hc.
  destruct (checkers_carried s Hwf) as (s1 & E & _ & T & _ & F & _).
  rewrite E in Hc. injection Hc as <-.
  apply escape_noted_frame; assumption.
Qed.

Lemma escape_noted_verb_body s action chars code v :
  well_formed s -> In code all_codes ->
  verb_body s action chars code = Some v -> escape_noted s -> escape_noted v.
Proof.
  intros Hwf Hc Hv Hn. unfold verb_body in Hv.
  destruct (action =? chr "+").
  { injection Hv as <-. rewrite add_syntax_set_eq.
    destruct (deref chars =? NUL); [exact Hn|].
    destruct (Z.eqb_spec code M4_SYNTAX_ESCAPE) as [He|He].
    - intros ch _ _. reflexivity.
    - revert Hn. apply escape_noted_table; [|reflexivity].
      intros ch Hch. simpl.
      apply escape_only_if_update_chars; [exact Hwf | | exact Hch].
      intros b e. apply escape_only_if_add; assumption. }
  destruct (action =? chr "-").
  { rewrite subtract_syntax_set_eq in Hv.
    destruct (deref chars =? NUL); [injection Hv as <-; exact Hn|].
    cbv zeta in Hv.
    pose proof (well_formed_update_chars s (subtract_entry code) chars Hwf
                  (fun e => subtract_entry_valid code e Hc)) as Hwx.
    assert (escape_noted
              (set_table s
                 (update_chars (subtract_entry code) (table s) chars)))
      as Hx.
    { revert Hn. apply escape_noted_table; [|reflexivity].
      intros ch Hch. simpl.
      apply escape_only_if_update_chars; [exact Hwf | | exact Hch].
      intros b e. apply escape_only_if_subtract. exact Hc. }
    set (x := set_table s (update_chars (subtract_entry code) (table s) chars))
      in *.
    destruct (code =? M4_SYNTAX_ESCAPE).
    { injection Hv as <-.
      match goal with |- context [if ?b then _ else _] => destruct b end;
        [apply escape_noted_check | exact Hx]. }
    destruct ((code =? M4_SYNTAX_LQUOTE) || (code =? M4_SYNTAX_RQUOTE)).
    { destruct (is_single_quotes x); [|injection Hv as <-; exact Hx].
      eapply escape_noted_check_quotes; [|exact Hv | exact Hx].
      apply (wf_single_quotes _ Hwx). }
    destruct ((code =? M4_SYNTAX_BCOMM) || (code =? M4_SYNTAX_ECOMM)).
    { destruct (is_single_comments x); [|injection Hv as <-; exact Hx].
      eapply escape_noted_check_comments; [|exact Hv | exact Hx].
      apply (wf_single_comments _ Hwx). }
    injection Hv as <-. exact Hx. }
  destruct (action =? chr "=").
  { rewrite set_syntax_set_eq in Hv. cbv zeta in Hv.
    pose proof (well_formed_sweep s (fun _ => clear_entry code) Hwf
                  (fun _ e => clear_entry_valid code e Hc)) as H1.
    apply (well_formed_update_chars _ (fun e => add_entry e code) chars)
      in H1; [|intros e He; apply add_entry_valid; assumption].
    simpl in H1.
    eapply escape_noted_checkers; [| exact Hv | apply escape_noted_check].
    apply well_formed_set_is_macro_escaped. exact H1. }
  destruct (action =? NUL); [|discriminate].
  rewrite reset_syntax_set_eq in Hv. cbv zeta in Hv.
  eapply escape_noted_checkers; [| exact Hv | apply escape_noted_check].
  apply well_formed_set_is_macro_escaped. apply well_formed_sweep;
    [exact Hwf|].
  intros ch e He. rewrite (wf_orig _ Hwf).
  apply reset_entry_valid; assumption.
Qed.

Lemma fresh_no_escape ch :
  0 <= ch < 256 -> has_bits (entry (table fresh) ch) M4_SYNTAX_ESCAPE = false.
Proof.
  intros H. apply negb_true_iff. revert ch H.
  apply (range_forall
           (fun ch => negb (has_bits (entry (table fresh) ch)
                              M4_SYNTAX_ESCAPE))).
  vm_compute. reflexivity.
Qed.

Lemma escape_noted_restore_defaults s :
  well_formed s -> escape_noted (restore_defaults s).
Proof.
  intros Hwf ch Hch Hhas. exfalso.
  unfold m4_has_syntax, m4_syntab in Hhas.
  rewrite (table_restore_defaults s (wf_orig _ Hwf)) in Hhas.
  rewrite to_uchar_small in Hhas by exact Hch.
  pose proof (fresh_no_escape ch Hch) as K. unfold has_bits in K.
  rewrite K in Hhas. discriminate.
Qed.

(** The last two statements of an installer: the table it has built,
    under the flag it found, is checked for escapes when that flag is
    set. *)
Lemma install_quotes_escape s lq rq :
  exists s2,
    install_quotes s lq rq
    = (if is_macro_escaped s then check_is_macro_escaped s2 else s2)
    /\ is_macro_escaped s2 = is_macro_escaped s
    /\ table s2 = table (install_quotes s lq rq).
Proof.
  unfold install_quotes. cbv zeta.
  match goal with
  | |- context [if is_macro_escaped ?x then _ else _] => set (s2 := x)
  end.
  assert (is_macro_escaped s2 = is_macro_escaped s) as E.
  { subst s2.
    repeat match goal with
    | |- context [if ?b then _ else _] => destruct b
    end; rewrite ?add_syntax_attribute_eq; reflexivity. }
  exists s2. rewrite E. split; [reflexivity|]. split; [reflexivity|].
  destruct (is_macro_escaped s); reflexivity.
Qed.

Lemma install_comment_escape s bc ec :
  exists s2,
    install_comment s bc ec
    = (if is_macro_escaped s then check_is_macro_escaped s2 else s2)
    /\ is_macro_escaped s2 = is_macro_escaped s
    /\ table s2 = table (install_comment s bc ec).
Proof.
  unfold install_comment. cbv zeta.
  match goal with
  | |- context [if is_macro_escaped ?x then _ else _] => set (s2 := x)
  end.
  assert (is_macro_escaped s2 = is_macro_escaped s) as E.
  { subst s2.
    repeat match goal with
    | |- context [if ?b then _ else _] => destruct b
    end; rewrite ?add_syntax_attribute_eq; reflexivity. }
  exists s2. rewrite E. split; [reflexivity|]. split; [reflexivity|].
  destruct (is_macro_escaped s); reflexivity.
Qed.

Lemma escape_only_if_store b (t : list Z) a c ch :
  0 <= a -> 0 <= ch -> In c all_codes -> c <> M4_SYNTAX_ESCAPE ->
  escape_only_if b (entry t ch) = true ->
  escape_only_if b (entry (store t a (add_entry (entry t a) c)) ch) = true.
Proof.
  intros Ha Hch Hc Hne H.
  apply (entry_store_closed (fun e => escape_only_if b e = true));
    [exact Ha | exact Hch | | exact H].
  intros ->. apply escape_only_if_add; assumption.
Qed.

Lemma escape_noted_install_quotes s lq rq :
  well_formed s -> escape_noted s -> escape_noted (install_quotes s lq rq).
Proof.
  intros Hwf Hn.
  destruct (install_quotes_escape s lq rq) as (s2 & E & F & T).
  destruct (install_quotes_fields s lq rq) as (_ & _ & _ & _ & T1).
  rewrite E. destruct (is_macro_escaped s) eqn:Hflag;
    [apply escape_noted_check|].
  revert Hn. apply escape_noted_table; [|congruence].
  intros ch Hch. rewrite T, T1.
  assert (escape_only_if (has_bits (entry (table s) ch) M4_SYNTAX_ESCAPE)
            (entry (sweep all_chars (unquote_entry (orig s)) (table s)) ch)
          = true) as Hsw.
  { apply escape_only_if_sweep; [exact Hwf | | exact Hch].
    intros b c e. rewrite (wf_orig _ Hwf).
    apply escape_only_if_undelimit;
      [left; reflexivity | left; reflexivity | apply orig_entry_basis
      | apply orig_not_escape]. }
  match goal with |- context [if ?b then _ else _] => destruct b end;
    [|exact Hsw].
  pose proof (to_uchar_range (deref lq)). pose proof (to_uchar_range (deref rq)).
  apply escape_only_if_store;
    [lia | lia | apply mem_In; reflexivity | discriminate |].
  apply escape_only_if_store;
    [lia | lia | apply mem_In; reflexivity | discriminate | exact Hsw].
Qed.

Lemma escape_noted_install_comment s bc ec :
  well_formed s -> escape_noted s -> escape_noted (install_comment s bc ec).
Proof.
  intros Hwf Hn.
  destruct (install_comment_escape s bc ec) as (s2 & E & F & T).
  destruct (install_comment_fields s bc ec) as (_ & _ & _ & _ & T1).
  rewrite E. destruct (is_macro_escaped s) eqn:Hflag;
    [apply escape_noted_check|].
  revert Hn. apply escape_noted_table; [|congruence].
  intros ch Hch. rewrite T, T1.
  assert (escape_only_if (has_bits (entry (table s) ch) M4_SYNTAX_ESCAPE)
            (entry (sweep all_chars (uncomment_entry (orig s)) (table s)) ch)
          = true) as Hsw.
  { apply escape_only_if_sweep; [exact Hwf | | exact Hch].
    intros b c e. rewrite (wf_orig _ Hwf).
    apply escape_only_if_undelimit;
      [right; left; reflexivity | right; left; reflexivity
      | apply orig_entry_basis | apply orig_not_escape]. }
  match goal with |- context [if ?b then _ else _] => destruct b end;
    [|exact Hsw].
  pose proof (to_uchar_range (deref bc)). pose proof (to_uchar_range (deref ec)).
  apply escape_only_if_store;
    [lia | lia | apply mem_In; reflexivity | discriminate |].
  apply escape_only_if_store;
    [lia | lia | apply mem_In; reflexivity | discriminate | exact Hsw].
Qed.

Lemma reachable_escape_noted s : reachable s -> escape_noted s.
Proof.
  apply reachable_invariant.
  - intros ch Hch Hhas. exfalso.
    unfold m4_has_syntax, m4_syntab in Hhas.
    rewrite to_uchar_small in Hhas by exact Hch.
    pose proof (fresh_no_escape ch Hch) as K. unfold has_bits in K.
    rewrite K in Hhas. discriminate.
  - intros x c l r. apply escape_noted_frame; reflexivity.
  - intros x r c _.
    destruct (set_quote_age_fields x r c) as (T & _ & _ & _ & _ & _ & F).
    apply escape_noted_frame; assumption.
  - intros x Hwf _. apply escape_noted_restore_defaults. exact Hwf.
  - intros x action chars code v Hwf Hn Hc _ Hv.
    exact (escape_noted_verb_body x action chars code v Hwf Hc Hv Hn).
  - intros x lq rq Hwf Hn _ _ _. apply escape_noted_install_quotes; assumption.
  - intros x bc ec Hwf Hn _ _ _.
    apply escape_noted_install_comment; assumption.
Qed.

(** ** Statements on reachable tables *)

Lemma reachable_fresh : reachable fresh.
Proof. apply reachable_create. apply m4_syntax_create_fresh. Qed.

Lemma reachable_bracket_table : reachable bracket_table.
Proof.
  apply (run_ops_reachable
           [add_escape;
            SetQuotes (Some (str ["["%char])) (Some (str ["]"%char]))]
           fresh).
  - apply reachable_fresh.
  - reflexivity.
  - vm_compute. reflexivity.
Qed.

Lemma valid_entry_range e : valid_entry e = true -> 0 <= e < 65536.
Proof.
  unfold valid_entry. intros H.
  apply andb_true_iff in H as [H _]. apply andb_true_iff in H as [H0 H1].
  apply Z.leb_le in H0. apply Z.ltb_lt in H1. lia.
Qed.

Lemma valid_entry_one_basis e c1 c2 :
  valid_entry e = true -> In c1 basis_codes -> In c2 basis_codes ->
  has_bits e c1 = true -> has_bits e c2 = true -> c1 = c2.
Proof.
  intros He H1 H2 B1 B2.
  pose proof (valid_entry_forall3
    (fun e c1 c2 => implb (has_bits e c1 && has_bits e c2) (c1 =? c2))
    basis_codes basis_codes ltac:(vm_compute; reflexivity) e c1 c2 He H1 H2)
    as K.
  simpl in K. rewrite B1, B2 in K. simpl in K. apply Z.eqb_eq. exact K.
Qed.

(** X1: in every table reachable from creation, the table has 256
    entries, every entry is an unsigned 16-bit value, and no character
    carries two basis categories at once. *)
Theorem table_entries_one_category s ch :
  reachable s ->
  length (table s) = 256%nat
  /\ 0 <= m4_syntab s ch < 65536
  /\ (forall c1 c2,
        In c1 basis_codes -> In c2 basis_codes ->
        m4_has_syntax s ch c1 = true -> m4_has_syntax s ch c2 = true ->
        c1 = c2).
Proof.
  intros Hr. pose proof (reachable_well_formed s Hr) as Hwf.
  pose proof (m4_syntab_valid s ch Hwf) as Hv.
  split; [apply (wf_length _ Hwf)|].
  split; [apply valid_entry_range; exact Hv|].
  intros c1 c2 H1 H2. rewrite !m4_has_syntax_bits.
  apply valid_entry_one_basis; assumption.
Qed.

Lemma table_entries_one_category_witness :
  length (table bracket_table) = 256%nat
  /\ 0 <= m4_syntab bracket_table (chr "[") < 65536
  /\ (forall c1 c2,
        In c1 basis_codes -> In c2 basis_codes ->
        m4_has_syntax bracket_table (chr "[") c1 = true ->
        m4_has_syntax bracket_table (chr "[") c2 = true ->
        c1 = c2).
Proof.
  apply (table_entries_one_category bracket_table (chr "[")).
  apply reachable_bracket_table.
Defined.

(** X2: the default vector [orig] that [m4_syntax_create] fills is never
    written again: in every reachable table it still gives each character
    the category of the [switch] of [m4_syntax_create]. *)
Theorem orig_never_changes s ch :
  reachable s -> 0 <= ch < 256 ->
  length (orig s) = 256%nat /\ entry (orig s) ch = default_code ch.
Proof.
  intros Hr Hch. pose proof (reachable_well_formed s Hr) as Hwf.
  rewrite (wf_orig _ Hwf). split; [reflexivity|].
  apply orig_default. exact Hch.
Qed.

Lemma orig_never_changes_witness :
  length (orig bracket_table) = 256%nat
  /\ entry (orig bracket_table) (chr "`") = default_code (chr "`").
Proof.
  apply (orig_never_changes bracket_table (chr "`")).
  - apply reachable_bracket_table.
  - vm_compute. split; [discriminate | reflexivity].
Defined.

(** X3: on a reachable table, with a C string or a null pointer for
    [chars], the only assertions of [m4_set_syntax] that can fail are
    those on its arguments: a null [chars] with a key other than NUL, and
    an action other than '+', '-', '=' and NUL with a key of the mapping.
    The assertions of the checkers and of [remove_syntax_attribute] never
    fail.  When the function returns, it returns 0 for the key NUL, and
    otherwise the code of the key, which is -1 or a category. *)
Theorem set_syntax_fails_on_arguments_only s key action chars :
  reachable s -> c_string_opt chars = true ->
  match m4_set_syntax s key action chars with
  | None =>
      key <> NUL
      /\ (chars = None
          \/ (0 <= m4_syntax_code key /\ valid_action action = false))
  | Some (_, r) =>
      (key = NUL /\ r = 0)
      \/ (key <> NUL /\ chars <> None /\ r = m4_syntax_code key
          /\ (r = -1 \/ (In r all_codes /\ valid_action action = true)))
  end.
Proof.
  intros Hr Hs. pose proof (reachable_well_formed s Hr) as Hwf.
  destruct (Z.eq_dec key NUL) as [->|Hk].
  { rewrite m4_set_syntax_reset. left. split; reflexivity. }
  destruct chars as [chars|].
  2: { unfold m4_set_syntax. simpl.
       destruct (Z.eqb_spec key NUL); [contradiction|]. simpl.
       split; [exact Hk | left; reflexivity]. }
  destruct (m4_syntax_code_cases key) as [Hc|Hc].
  { rewrite m4_set_syntax_unknown by lia. right.
    split; [exact Hk|]. split; [discriminate|].
    split; [congruence | left; reflexivity]. }
  assert (0 <= m4_syntax_code key) as Hpos.
  { apply mem_In in Hc. revert Hc. generalize (m4_syntax_code key).
    intros c Hc. unfold mem in Hc. simpl in Hc.
    repeat (apply orb_true_iff in Hc as [Hc | Hc];
            [apply Z.eqb_eq in Hc; subst c; discriminate | ]).
    discriminate. }
  rewrite m4_set_syntax_verb by assumption.
  destruct (valid_action action) eqn:Ha.
  - destruct (well_formed_verb_body s action chars _ Hwf Hc Ha)
      as (v & E & _). rewrite E. simpl. right.
    split; [exact Hk|]. split; [discriminate|].
    split; [reflexivity | right; split; [exact Hc | reflexivity]].
  - destruct (verb_body s action chars (m4_syntax_code key)) as [v|] eqn:E.
    + apply verb_body_valid_action in E. congruence.
    + simpl. split; [exact Hk | right; split; [exact Hpos | reflexivity]].
Qed.

Lemma set_syntax_fails_on_arguments_only_witness :
  match m4_set_syntax bracket_table (chr "A") (chr "*")
          (Some (str ["!"%char])) with
  | None =>
      chr "A" <> NUL
      /\ (Some (str ["!"%char]) = None
          \/ (0 <= m4_syntax_code (chr "A")
              /\ valid_action (chr "*") = false))
  | Some (_, r) =>
      (chr "A" = NUL /\ r = 0)
      \/ (chr "A" <> NUL /\ Some (str ["!"%char]) <> None
          /\ r = m4_syntax_code (chr "A")
          /\ (r = -1 \/ (In r all_codes /\ valid_action (chr "*") = true)))
  end.
Proof.
  apply (set_syntax_fails_on_arguments_only bracket_table (chr "A") (chr "*")
           (Some (str ["!"%char]))).
  - apply reachable_bracket_table.
  - reflexivity.
Defined.

(** X4: the flag that [m4_is_syntax_macro_escaped] returns never misses
    an escape: in every reachable table, if some character carries ESCAPE
    then the flag is set. *)
Theorem macro_escaped_flag_covers_escapes s ch :
  reachable s -> 0 <= ch < 256 ->
  m4_has_syntax s ch M4_SYNTAX_ESCAPE = true ->
  m4_is_syntax_macro_escaped s = true.
Proof.
  intros Hr Hch Hhas. exact (reachable_escape_noted s Hr ch Hch Hhas).
Qed.

Lemma macro_escaped_flag_covers_escapes_witness :
  m4_is_syntax_macro_escaped bracket_table = true.
Proof.
  apply (macro_escaped_flag_covers_escapes bracket_table (chr "\")).
  - apply reachable_bracket_table.
  - vm_compute. split; [discriminate | reflexivity].
  - vm_compute. reflexivity.
Defined.

(** X5: in every reachable table the four stored delimiters are C
    strings (no byte of them is NUL or outside a byte), their stored
    lengths are their lengths, a pair with a non-empty start has a
    non-empty end, and the NUL character keeps the category OTHER
    without masks. *)
Theorem stored_delimiters_are_strings s :
  reachable s ->
  c_string (m4_get_syntax_lquote s) = true
  /\ c_string (m4_get_syntax_rquote s) = true
  /\ c_string (m4_get_syntax_bcomm s) = true
  /\ c_string (m4_get_syntax_ecomm s) = true
  /\ len1 (m4_get_syntax_quotes s) = strlen (m4_get_syntax_lquote s)
  /\ len2 (m4_get_syntax_quotes s) = strlen (m4_get_syntax_rquote s)
  /\ len1 (m4_get_syntax_comments s) = strlen (m4_get_syntax_bcomm s)
  /\ len2 (m4_get_syntax_comments s) = strlen (m4_get_syntax_ecomm s)
  /\ (m4_get_syntax_lquote s <> [] -> m4_get_syntax_rquote s <> [])
  /\ (m4_get_syntax_bcomm s <> [] -> m4_get_syntax_ecomm s <> [])
  /\ m4_syntab s NUL = M4_SYNTAX_OTHER.
Proof.
  intros Hr. pose proof (reachable_well_formed s Hr) as Hwf.
  pose proof (reachable_strings_ok s Hr) as Hok.
  destruct (wf_quote _ Hwf) as (Q1 & Q2 & _).
  destruct (wf_comm _ Hwf) as (C1 & C2 & _).
  unfold m4_get_syntax_lquote, m4_get_syntax_rquote, m4_get_syntax_bcomm,
    m4_get_syntax_ecomm, m4_get_syntax_quotes, m4_get_syntax_comments.
  split; [apply (so_lquote _ Hok)|]. split; [apply (so_rquote _ Hok)|].
  split; [apply (so_bcomm _ Hok)|]. split; [apply (so_ecomm _ Hok)|].
  repeat (split; [assumption|]).
  split; [apply (so_quote_pair _ Hok)|].
  split; [apply (so_comm_pair _ Hok)|].
  apply (so_nul _ Hok).
Qed.

Lemma stored_delimiters_are_strings_witness :
  c_string (m4_get_syntax_lquote bracket_table) = true
  /\ c_string (m4_get_syntax_rquote bracket_table) = true
  /\ c_string (m4_get_syntax_bcomm bracket_table) = true
  /\ c_string (m4_get_syntax_ecomm bracket_table) = true
  /\ len1 (m4_get_syntax_quotes bracket_table)
     = strlen (m4_get_syntax_lquote bracket_table)
  /\ len2 (m4_get_syntax_quotes bracket_table)
     = strlen (m4_get_syntax_rquote bracket_table)
  /\ len1 (m4_get_syntax_comments bracket_table)
     = strlen (m4_get_syntax_bcomm bracket_table)
  /\ len2 (m4_get_syntax_comments bracket_table)
     = strlen (m4_get_syntax_ecomm bracket_table)
  /\ (m4_get_syntax_lquote bracket_table <> [] ->
      m4_get_syntax_rquote bracket_table <> [])
  /\ (m4_get_syntax_bcomm bracket_table <> [] ->
      m4_get_syntax_ecomm bracket_table <> [])
  /\ m4_syntab bracket_table NUL = M4_SYNTAX_OTHER.
Proof.
  apply (stored_delimiters_are_strings bracket_table).
  apply reachable_bracket_table.
Defined.

Lemma quote_args_stored l r :
  c_string l = true -> c_string r = true -> (l <> [] -> r <> []) ->
  quote_args (Some l) (Some r) = (l, r).
Proof.
  intros Hl Hr Hp. unfold quote_args.
  destruct (truthy (deref l) && negb (truthy (deref r))) eqn:E;
    [|reflexivity].
  apply andb_true_iff in E as [E1 E2].
  apply (c_string_truthy l Hl) in E1. apply negb_true_iff in E2.
  specialize (Hp E1). apply (c_string_truthy r Hr) in Hp. congruence.
Qed.

Lemma comment_args_stored l r :
  c_string l = true -> c_string r = true -> (l <> [] -> r <> []) ->
  comment_args (Some l) (Some r) = (l, r).
Proof.
  intros Hl Hr Hp. unfold comment_args.
  destruct (truthy (deref l) && negb (truthy (deref r))) eqn:E;
    [|reflexivity].
  apply andb_true_iff in E as [E1 E2].
  apply (c_string_truthy l Hl) in E1. apply negb_true_iff in E2.
  specialize (Hp E1). apply (c_string_truthy r Hr) in Hp. congruence.
Qed.

Lemma streq_refl l : streq l l = true.
Proof. unfold streq. apply bool_decide_eq_true_2. reflexivity. Qed.

(** X6: passing the delimiters that the accessors return back to
    [m4_set_quotes] or [m4_set_comment] changes nothing in a reachable
    table: not the table, the flags, the ages or the cache. *)
Theorem set_current_delimiters_is_noop s :
  reachable s ->
  m4_set_quotes s (Some (m4_get_syntax_lquote s))
    (Some (m4_get_syntax_rquote s)) = Some s
  /\ m4_set_comment s (Some (m4_get_syntax_bcomm s))
       (Some (m4_get_syntax_ecomm s)) = Some s.
Proof.
  intros Hr. pose proof (reachable_well_formed s Hr) as Hwf.
  pose proof (reachable_strings_ok s Hr) as Hok.
  unfold m4_get_syntax_lquote, m4_get_syntax_rquote, m4_get_syntax_bcomm,
    m4_get_syntax_ecomm.
  split.
  - rewrite m4_set_quotes_eq by apply (wf_length _ Hwf).
    rewrite quote_args_stored
      by (apply (so_lquote _ Hok) || apply (so_rquote _ Hok)
          || apply (so_quote_pair _ Hok)).
    cbv beta iota delta [fst snd]. rewrite !streq_refl. reflexivity.
  - rewrite m4_set_comment_eq by apply (wf_length _ Hwf).
    rewrite comment_args_stored
      by (apply (so_bcomm _ Hok) || apply (so_ecomm _ Hok)
          || apply (so_comm_pair _ Hok)).
    cbv beta iota delta [fst snd]. rewrite !streq_refl. reflexivity.
Qed.

Lemma set_current_delimiters_is_noop_witness :
  m4_set_quotes bracket_table (Some (m4_get_syntax_lquote bracket_table))
    (Some (m4_get_syntax_rquote bracket_table)) = Some bracket_table
  /\ m4_set_comment bracket_table (Some (m4_get_syntax_bcomm bracket_table))
       (Some (m4_get_syntax_ecomm bracket_table)) = Some bracket_table.
Proof.
  apply (set_current_delimiters_is_noop bracket_table).
  apply reachable_bracket_table.
Defined.

(** ** The table an installer leaves *)

Lemma undelimit_core_undelimited c_start c_end d e :
  delimiter_codes c_start c_end -> valid_entry e = true ->
  In d basis_codes ->
  undelimited c_start c_end (undelimit_core c_start c_end d e) = true.
Proof.
  intros Hp He Hd. revert e d He Hd.
  apply (valid_entry_forall2
           (fun e d => undelimited c_start c_end
                         (undelimit_core c_start c_end d e))).
  destruct Hp as [[-> ->] | [-> ->]]; vm_compute; reflexivity.
Qed.

Lemma undelimited_marks c_start c_end e :
  delimiter_codes c_start c_end -> undelimited c_start c_end e = true ->
  has_bits e c_start = false /\ has_bits e c_end = false
  /\ has_bits (add_entry e c_start) c_start = true
  /\ has_bits (add_entry e c_start) c_end = false
  /\ has_bits (add_entry e c_end) c_start = false
  /\ has_bits (add_entry e c_end) c_end = true
  /\ has_bits (add_entry (add_entry e c_start) c_end) c_start = true
  /\ has_bits (add_entry (add_entry e c_start) c_end) c_end = true.
Proof.
  intros Hp H. assert (valid_entry e = true) as Hv.
  { apply andb_true_iff in H as [H _]. apply andb_true_iff in H as [H _].
    exact H. }
  pose proof (valid_entry_forall
    (fun e => implb (undelimited c_start c_end e)
      (negb (has_bits e c_start) && negb (has_bits e c_end)
       && has_bits (add_entry e c_start) c_start
       && negb (has_bits (add_entry e c_start) c_end)
       && negb (has_bits (add_entry e c_end) c_start)
       && has_bits (add_entry e c_end) c_end
       && has_bits (add_entry (add_entry e c_start) c_end) c_start
       && has_bits (add_entry (add_entry e c_start) c_end) c_end))) as K.
  specialize (K ltac:(destruct Hp as [[-> ->] | [-> ->]];
                      vm_compute; reflexivity) e Hv).
  simpl in K. rewrite H in K. simpl in K.
  repeat (apply andb_true_iff in K as [K ?]).
  repeat match goal with
  | H : negb _ = true |- _ => apply negb_true_iff in H
  end.
  repeat split; assumption.
Qed.

(** The bearers of the two codes in the table an installer builds: the
    swept table [t], marked at [l] and [r] when [flag] is set. *)
Lemma delimited_table c_start c_end (t : list Z) (flag : bool) l r ch :
  delimiter_codes c_start c_end -> length t = all_chars ->
  (forall x, 0 <= x < 256 -> undelimited c_start c_end (entry t x) = true) ->
  0 <= l < 256 -> 0 <= r < 256 -> 0 <= ch < 256 ->
  let t1 := store t l (add_entry (entry t l) c_start) in
  let t2 := if flag then store t1 r (add_entry (entry t1 r) c_end) else t in
  has_bits (entry t2 ch) c_start = flag && (ch =? l)
  /\ has_bits (entry t2 ch) c_end = flag && (ch =? r).
Proof.
  intros Hp Hlen Ht Hl Hr Hch. cbv zeta.
  assert (Z.of_nat (length t) = 256) as Hlen' by (rewrite Hlen; reflexivity).
  destruct flag; simpl.
  2: { destruct (undelimited_marks _ _ _ Hp (Ht ch Hch)) as (A & B & _).
       split; assumption. }
  destruct (undelimited_marks _ _ _ Hp (Ht ch Hch))
    as (A & B & C & D & E & F & G & H).
  destruct (Z.eqb_spec ch r) as [->|Nr].
  - rewrite entry_store_eq by (rewrite length_store; lia).
    destruct (Z.eqb_spec r l) as [->|Nl].
    + rewrite entry_store_eq by lia. split; assumption.
    + rewrite entry_store_ne by lia. split; assumption.
  - rewrite entry_store_ne by lia.
    destruct (Z.eqb_spec ch l) as [->|Nl].
    + rewrite entry_store_eq by lia. split; assumption.
    + rewrite entry_store_ne by lia. split; assumption.
Qed.

Lemma c_string_deref_range l : c_string l = true -> 0 <= deref l < 256.
Proof.
  intros H. destruct l as [|c l]; simpl; [unfold NUL; lia|].
  simpl in H. apply andb_true_iff in H as [H _]. unfold c_char in H.
  apply andb_true_iff in H as [H1 H2]. apply Z.ltb_lt in H1, H2. lia.
Qed.

Lemma quote_args_cases lq rq :
  c_string_opt lq = true -> c_string_opt rq = true ->
  fst (quote_args lq rq)
  = match lq with Some l => l | None => DEF_LQUOTE end
  /\ snd (quote_args lq rq)
     = match lq, rq with
       | Some (_ :: _), Some [] => DEF_RQUOTE
       | Some _, Some r => r
       | _, _ => DEF_RQUOTE
       end.
Proof.
  intros Hl Hr. unfold quote_args.
  destruct lq as [l|]; [|split; reflexivity].
  destruct rq as [r|]; [|split; [reflexivity | destruct l; reflexivity]].
  simpl in Hl, Hr.
  destruct (truthy (deref l) && negb (truthy (deref r))) eqn:E;
    cbv beta iota delta [fst snd]; (split; [reflexivity|]).
  - apply andb_true_iff in E as [E1 E2].
    apply (c_string_truthy l Hl) in E1.
    destruct (truthy (deref r)) eqn:E3; [discriminate|].
    destruct r as [|c r].
    + destruct l; [contradiction | reflexivity].
    + assert (c :: r <> []) as Hne by discriminate.
      apply (c_string_truthy _ Hr) in Hne. congruence.
  - destruct l as [|c l]; [reflexivity|].
    destruct r as [|c' r]; [|reflexivity].
    assert (c :: l <> []) as Hne by discriminate.
    apply (c_string_truthy _ Hl) in Hne. rewrite Hne in E. discriminate.
Qed.

Lemma comment_args_cases bc ec :
  c_string_opt bc = true -> c_string_opt ec = true ->
  fst (comment_args bc ec)
  = match bc with Some b => b | None => [] end
  /\ snd (comment_args bc ec)
     = match bc, ec with
       | None, _ => []
       | Some (_ :: _), Some [] => DEF_ECOMM
       | Some _, Some e => e
       | Some _, None => DEF_ECOMM
       end.
Proof.
  intros Hl Hr. unfold comment_args.
  destruct bc as [l|]; [|split; reflexivity].
  destruct ec as [r|]; [|split; [reflexivity | destruct l; reflexivity]].
  simpl in Hl, Hr.
  destruct (truthy (deref l) && negb (truthy (deref r))) eqn:E;
    cbv beta iota delta [fst snd]; (split; [reflexivity|]).
  - apply andb_true_iff in E as [E1 E2].
    apply (c_string_truthy l Hl) in E1.
    destruct (truthy (deref r)) eqn:E3; [discriminate|].
    destruct r as [|c r].
    + destruct l; [contradiction | reflexivity].
    + assert (c :: r <> []) as Hne by discriminate.
      apply (c_string_truthy _ Hr) in Hne. congruence.
  - destruct l as [|c l]; [reflexivity|].
    destruct r as [|c' r]; [|reflexivity].
    assert (c :: l <> []) as Hne by discriminate.
    apply (c_string_truthy _ Hl) in Hne. rewrite Hne in E. discriminate.
Qed.

Lemma streq_true l r : streq l r = true -> l = r.
Proof. unfold streq. apply bool_decide_eq_true_1. Qed.

Lemma eta_pair p : mk_pair (str1 p) (len1 p) (str2 p) (len2 p) = p.
Proof. destruct p; reflexivity. Qed.

(** X7: on a reachable table [m4_set_quotes] returns, and the accessors
    then give its arguments after the defaulting rules: the defaults for
    a null left quote, the default right quote for a null right quote or
    for an empty one beside a non-empty left quote, and otherwise the
    arguments themselves, with their lengths.  The comment delimiters,
    their flag, the syntax age and the default vector are as before. *)
Theorem set_quotes_stores_arguments s lq rq :
  reachable s -> c_string_opt lq = true -> c_string_opt rq = true ->
  exists s',
    m4_set_quotes s lq rq = Some s'
    /\ m4_get_syntax_lquote s'
       = match lq with Some l => l | None => DEF_LQUOTE end
    /\ m4_get_syntax_rquote s'
       = match lq, rq with
         | Some (_ :: _), Some [] => DEF_RQUOTE
         | Some _, Some r => r
         | _, _ => DEF_RQUOTE
         end
    /\ len1 (m4_get_syntax_quotes s') = strlen (m4_get_syntax_lquote s')
    /\ len2 (m4_get_syntax_quotes s') = strlen (m4_get_syntax_rquote s')
    /\ m4_get_syntax_comments s' = m4_get_syntax_comments s
    /\ m4_is_syntax_single_comments s' = m4_is_syntax_single_comments s
    /\ syntax_age s' = syntax_age s
    /\ orig s' = orig s.
Proof.
  intros Hr Hl Hq. pose proof (reachable_well_formed s Hr) as Hwf.
  destruct (quote_args_cases lq rq Hl Hq) as [A1 A2].
  rewrite <- A1, <- A2.
  unfold m4_get_syntax_lquote, m4_get_syntax_rquote, m4_get_syntax_quotes,
    m4_get_syntax_comments, m4_is_syntax_single_comments.
  rewrite m4_set_quotes_eq by apply (wf_length _ Hwf).
  destruct (streq (str1 (quote s)) (fst (quote_args lq rq))
            && streq (str2 (quote s)) (snd (quote_args lq rq))) eqn:E.
  - apply andb_true_iff in E as [E1 E2].
    apply streq_true in E1, E2. exists s.
    destruct (wf_quote _ Hwf) as (L1 & L2 & _).
    rewrite <- E1, <- E2. repeat split; assumption.
  - eexists. split; [reflexivity|].
    destruct (set_quote_age_fields
                (install_quotes s (fst (quote_args lq rq))
                   (snd (quote_args lq rq))) false false)
      as (_ & O & Q & C & _ & F & _).
    destruct (install_quotes_fields s (fst (quote_args lq rq))
                (snd (quote_args lq rq))) as (Q1 & C1 & _ & F1 & _).
    destruct (install_quotes_cache s (fst (quote_args lq rq))
                (snd (quote_args lq rq))) as (_ & _ & _ & _ & O1 & _).
    cbv zeta in O, Q, C, F.
    rewrite O, Q, C, F, Q1, C1, F1, O1, syntax_age_set_quote_age,
      local_syntax_age_keep, syntax_age_install_quotes.
    repeat split; reflexivity.
Qed.

Lemma set_quotes_stores_arguments_witness :
  exists s',
    m4_set_quotes bracket_table (Some (str ["<"%char])) (Some []) = Some s'
    /\ m4_get_syntax_lquote s' = str ["<"%char]
    /\ m4_get_syntax_rquote s' = DEF_RQUOTE
    /\ len1 (m4_get_syntax_quotes s') = strlen (m4_get_syntax_lquote s')
    /\ len2 (m4_get_syntax_quotes s') = strlen (m4_get_syntax_rquote s')
    /\ m4_get_syntax_comments s' = m4_get_syntax_comments bracket_table
    /\ m4_is_syntax_single_comments s'
       = m4_is_syntax_single_comments bracket_table
    /\ syntax_age s' = syntax_age bracket_table
    /\ orig s' = orig bracket_table.
Proof.
  apply (set_quotes_stores_arguments bracket_table
           (Some (str ["<"%char])) (Some [])).
  - apply reachable_bracket_table.
  - reflexivity.
  - reflexivity.
Defined.

Lemma m4_has_syntax_entry s ch bits :
  0 <= ch < 256 ->
  m4_has_syntax s ch bits = has_bits (entry (table s) ch) bits.
Proof.
  intros H. unfold m4_has_syntax, m4_syntab.
  rewrite to_uchar_small by exact H. reflexivity.
Qed.

Lemma sweep_undelimited s c_start c_end g :
  well_formed s -> delimiter_codes c_start c_end ->
  (forall ch e, g ch e
                = undelimit_core c_start c_end (entry (orig fresh) ch) e) ->
  forall x, 0 <= x < 256 ->
    undelimited c_start c_end (entry (sweep all_chars g (table s)) x) = true.
Proof.
  intros Hwf Hp Hg x Hx.
  rewrite entry_sweep_all by (apply (wf_length _ Hwf) || exact Hx).
  rewrite Hg. apply undelimit_core_undelimited;
    [exact Hp | apply entry_valid; exact Hwf | apply orig_entry_basis].
Qed.

(** X8: when [m4_set_quotes] changes the stored quotes of a reachable
    table, the quotes are single exactly when both strings have length 1
    and the left byte was no escape, letter or digit before the call; and
    then the left byte is the only character that carries LQUOTE and the
    right byte the only one that carries RQUOTE.  When the quotes are not
    single, no character carries LQUOTE or RQUOTE. *)
Theorem set_quotes_marks_table s lq rq :
  reachable s -> c_string_opt lq = true -> c_string_opt rq = true ->
  exists s',
    m4_set_quotes s lq rq = Some s'
    /\ (m4_get_syntax_quotes s' <> m4_get_syntax_quotes s ->
        m4_is_syntax_single_quotes s'
        = (strlen (m4_get_syntax_lquote s') =? 1)
          && (strlen (m4_get_syntax_rquote s') =? 1)
          && negb (m4_has_syntax s (deref (m4_get_syntax_lquote s'))
                     lquote_blockers)
        /\ forall ch, 0 <= ch < 256 ->
             m4_has_syntax s' ch M4_SYNTAX_LQUOTE
             = m4_is_syntax_single_quotes s'
               && (ch =? deref (m4_get_syntax_lquote s'))
             /\ m4_has_syntax s' ch M4_SYNTAX_RQUOTE
                = m4_is_syntax_single_quotes s'
                  && (ch =? deref (m4_get_syntax_rquote s'))).
Proof.
  intros Hr Hl Hq. pose proof (reachable_well_formed s Hr) as Hwf.
  destruct (quote_args_c_string lq rq Hl Hq) as [C1 C2].
  unfold m4_get_syntax_lquote, m4_get_syntax_rquote, m4_get_syntax_quotes,
    m4_is_syntax_single_quotes.
  rewrite m4_set_quotes_eq by apply (wf_length _ Hwf).
  destruct (streq (str1 (quote s)) (fst (quote_args lq rq))
            && streq (str2 (quote s)) (snd (quote_args lq rq))).
  { exists s. split; [reflexivity|]. intros H. contradiction. }
  eexists. split; [reflexivity|]. intros _.
  generalize dependent (fst (quote_args lq rq)).
  generalize dependent (snd (quote_args lq rq)).
  intros r C2 l C1.
  destruct (set_quote_age_fields (install_quotes s l r) false false)
    as (T & _ & Q & _ & F & _).
  destruct (install_quotes_fields s l r) as (Q1 & _ & F1 & _ & T1).
  cbv zeta in T, Q, F, Q1, F1, T1.
  rewrite Q, F, Q1, F1. simpl. split; [reflexivity|].
  intros ch Hch. rewrite !(m4_has_syntax_entry _ ch) by exact Hch.
  rewrite T, T1.
  pose proof (c_string_deref_range l C1) as Rl.
  pose proof (c_string_deref_range r C2) as Rr.
  rewrite !to_uchar_small by assumption.
  match goal with |- context [if ?f then _ else _] =>
    apply (delimited_table M4_SYNTAX_LQUOTE M4_SYNTAX_RQUOTE
             (sweep all_chars (unquote_entry (orig s)) (table s)) f
             (deref l) (deref r) ch)
  end; try assumption.
  - left. split; reflexivity.
  - rewrite length_sweep. apply (wf_length _ Hwf).
  - apply sweep_undelimited; [exact Hwf | left; split; reflexivity |].
    intros c e. rewrite (wf_orig _ Hwf). reflexivity.
Qed.

Lemma set_quotes_marks_table_witness :
  exists s',
    m4_set_quotes bracket_table (Some (str ["<"%char])) (Some (str [">"%char]))
    = Some s'
    /\ (m4_get_syntax_quotes s' <> m4_get_syntax_quotes bracket_table ->
        m4_is_syntax_single_quotes s'
        = (strlen (m4_get_syntax_lquote s') =? 1)
          && (strlen (m4_get_syntax_rquote s') =? 1)
          && negb (m4_has_syntax bracket_table
                     (deref (m4_get_syntax_lquote s')) lquote_blockers)
        /\ forall ch, 0 <= ch < 256 ->
             m4_has_syntax s' ch M4_SYNTAX_LQUOTE
             = m4_is_syntax_single_quotes s'
               && (ch =? deref (m4_get_syntax_lquote s'))
             /\ m4_has_syntax s' ch M4_SYNTAX_RQUOTE
                = m4_is_syntax_single_quotes s'
                  && (ch =? deref (m4_get_syntax_rquote s'))).
Proof.
  apply (set_quotes_marks_table bracket_table
           (Some (str ["<"%char])) (Some (str [">"%char]))).
  - apply reachable_bracket_table.
  - reflexivity.
  - reflexivity.
Defined.

(** X9: on a reachable table [m4_set_comment] returns, and the accessors
    then give its arguments after the defaulting rules: two empty strings
    for a null begin string (comments are disabled), the default end
    string for a null end string or for an empty one beside a non-empty
    begin string, and otherwise the arguments themselves, with their
    lengths.  The quote delimiters, their flag, the syntax age and the
    default vector are as before. *)
Theorem set_comment_stores_arguments s bc ec :
  reachable s -> c_string_opt bc = true -> c_string_opt ec = true ->
  exists s',
    m4_set_comment s bc ec = Some s'
    /\ m4_get_syntax_bcomm s' = match bc with Some b => b | None => [] end
    /\ m4_get_syntax_ecomm s'
       = match bc, ec with
         | None, _ => []
         | Some (_ :: _), Some [] => DEF_ECOMM
         | Some _, Some e => e
         | Some _, None => DEF_ECOMM
         end
    /\ len1 (m4_get_syntax_comments s') = strlen (m4_get_syntax_bcomm s')
    /\ len2 (m4_get_syntax_comments s') = strlen (m4_get_syntax_ecomm s')
    /\ m4_get_syntax_quotes s' = m4_get_syntax_quotes s
    /\ m4_is_syntax_single_quotes s' = m4_is_syntax_single_quotes s
    /\ syntax_age s' = syntax_age s
    /\ orig s' = orig s.
Proof.
  intros Hr Hl Hq. pose proof (reachable_well_formed s Hr) as Hwf.
  destruct (comment_args_cases bc ec Hl Hq) as [A1 A2].
  rewrite <- A1, <- A2.
  unfold m4_get_syntax_bcomm, m4_get_syntax_ecomm, m4_get_syntax_quotes,
    m4_get_syntax_comments, m4_is_syntax_single_quotes.
  rewrite m4_set_comment_eq by apply (wf_length _ Hwf).
  destruct (streq (str1 (comm s)) (fst (comment_args bc ec))
            && streq (str2 (comm s)) (snd (comment_args bc ec))) eqn:E.
  - apply andb_true_iff in E as [E1 E2].
    apply streq_true in E1, E2. exists s.
    destruct (wf_comm _ Hwf) as (L1 & L2 & _).
    rewrite <- E1, <- E2. repeat split; assumption.
  - eexists. split; [reflexivity|].
    destruct (set_quote_age_fields
                (install_comment s (fst (comment_args bc ec))
                   (snd (comment_args bc ec))) false false)
      as (_ & O & Q & C & F & _).
    destruct (install_comment_fields s (fst (comment_args bc ec))
                (snd (comment_args bc ec))) as (C1 & Q1 & _ & F1 & _).
    destruct (install_comment_cache s (fst (comment_args bc ec))
                (snd (comment_args bc ec))) as (_ & _ & _ & _ & O1 & _).
    cbv zeta in O, Q, C, F.
    rewrite O, Q, C, F, Q1, C1, F1, O1, syntax_age_set_quote_age,
      local_syntax_age_keep, syntax_age_install_comment.
    repeat split; reflexivity.
Qed.

Lemma set_comment_stores_arguments_witness :
  exists s',
    m4_set_comment bracket_table None (Some (str ["!"%char])) = Some s'
    /\ m4_get_syntax_bcomm s' = []
    /\ m4_get_syntax_ecomm s' = []
    /\ len1 (m4_get_syntax_comments s') = strlen (m4_get_syntax_bcomm s')
    /\ len2 (m4_get_syntax_comments s') = strlen (m4_get_syntax_ecomm s')
    /\ m4_get_syntax_quotes s' = m4_get_syntax_quotes bracket_table
    /\ m4_is_syntax_single_quotes s'
       = m4_is_syntax_single_quotes bracket_table
    /\ syntax_age s' = syntax_age bracket_table
    /\ orig s' = orig bracket_table.
Proof.
  apply (set_comment_stores_arguments bracket_table None
           (Some (str ["!"%char]))).
  - apply reachable_bracket_table.
  - reflexivity.
  - reflexivity.
Defined.

(** X10: when [m4_set_comment] changes the stored comment delimiters of a
    reachable table, the comments are single exactly when both strings
    have length 1 and the begin byte was no escape, letter, digit or left
    quote before the call; and then the begin byte is the only character
    that carries BCOMM and the end byte the only one that carries ECOMM.
    When the comments are not single (as when they are disabled), no
    character carries BCOMM or ECOMM. *)
Theorem set_comment_marks_table s bc ec :
  reachable s -> c_string_opt bc = true -> c_string_opt ec = true ->
  exists s',
    m4_set_comment s bc ec = Some s'
    /\ (m4_get_syntax_comments s' <> m4_get_syntax_comments s ->
        m4_is_syntax_single_comments s'
        = (strlen (m4_get_syntax_bcomm s') =? 1)
          && (strlen (m4_get_syntax_ecomm s') =? 1)
          && negb (m4_has_syntax s (deref (m4_get_syntax_bcomm s'))
                     bcomm_blockers)
        /\ forall ch, 0 <= ch < 256 ->
             m4_has_syntax s' ch M4_SYNTAX_BCOMM
             = m4_is_syntax_single_comments s'
               && (ch =? deref (m4_get_syntax_bcomm s'))
             /\ m4_has_syntax s' ch M4_SYNTAX_ECOMM
                = m4_is_syntax_single_comments s'
                  && (ch =? deref (m4_get_syntax_ecomm s'))).
Proof.
  intros Hr Hl Hq. pose proof (reachable_well_formed s Hr) as Hwf.
  destruct (comment_args_c_string bc ec Hl Hq) as [C1 C2].
  unfold m4_get_syntax_bcomm, m4_get_syntax_ecomm, m4_get_syntax_comments,
    m4_is_syntax_single_comments.
  rewrite m4_set_comment_eq by apply (wf_length _ Hwf).
  destruct (streq (str1 (comm s)) (fst (comment_args bc ec))
            && streq (str2 (comm s)) (snd (comment_args bc ec))).
  { exists s. split; [reflexivity|]. intros H. contradiction. }
  eexists. split; [reflexivity|]. intros _.
  generalize dependent (fst (comment_args bc ec)).
  generalize dependent (snd (comment_args bc ec)).
  intros r C2 l C1.
  destruct (set_quote_age_fields (install_comment s l r) false false)
    as (T & _ & _ & Q & _ & F & _).
  destruct (install_comment_fields s l r) as (Q1 & _ & F1 & _ & T1).
  cbv zeta in T, Q, F, Q1, F1, T1.
  rewrite Q, F, Q1, F1. simpl. split; [reflexivity|].
  intros ch Hch. rewrite !(m4_has_syntax_entry _ ch) by exact Hch.
  rewrite T, T1.
  pose proof (c_string_deref_range l C1) as Rl.
  pose proof (c_string_deref_range r C2) as Rr.
  rewrite !to_uchar_small by assumption.
  match goal with |- context [if ?f then _ else _] =>
    apply (delimited_table M4_SYNTAX_BCOMM M4_SYNTAX_ECOMM
             (sweep all_chars (uncomment_entry (orig s)) (table s)) f
             (deref l) (deref r) ch)
  end; try assumption.
  - right. split; reflexivity.
  - rewrite length_sweep. apply (wf_length _ Hwf).
  - apply sweep_undelimited; [exact Hwf | right; split; reflexivity |].
    intros c e. rewrite (wf_orig _ Hwf). reflexivity.
Qed.

Lemma set_comment_marks_table_witness :
  exists s',
    m4_set_comment bracket_table (Some (str ["/"%char])) None = Some s'
    /\ (m4_get_syntax_comments s' <> m4_get_syntax_comments bracket_table ->
        m4_is_syntax_single_comments s'
        = (strlen (m4_get_syntax_bcomm s') =? 1)
          && (strlen (m4_get_syntax_ecomm s') =? 1)
          && negb (m4_has_syntax bracket_table
                     (deref (m4_get_syntax_bcomm s')) bcomm_blockers)
        /\ forall ch, 0 <= ch < 256 ->
             m4_has_syntax s' ch M4_SYNTAX_BCOMM
             = m4_is_syntax_single_comments s'
               && (ch =? deref (m4_get_syntax_bcomm s'))
             /\ m4_has_syntax s' ch M4_SYNTAX_ECOMM
                = m4_is_syntax_single_comments s'
                  && (ch =? deref (m4_get_syntax_ecomm s'))).
Proof.
  apply (set_comment_marks_table bracket_table (Some (str ["/"%char])) None).
  - apply reachable_bracket_table.
  - reflexivity.
  - reflexivity.
Defined.

(** ** The table a verb leaves *)

Lemma map_to_uchar_c_string chars :
  c_string chars = true -> map to_uchar chars = chars.
Proof.
  induction chars as [|c rest IH]; intros H; [reflexivity|].
  simpl in H. apply andb_true_iff in H as [Hc H]. simpl.
  rewrite IH by exact H. unfold c_char in Hc.
  apply andb_true_iff in Hc as [H1 H2]. apply Z.ltb_lt in H1, H2.
  rewrite to_uchar_small by lia. reflexivity.
Qed.

(** A loop over a C string rewrites the entry of each of its characters
    once, when the body is idempotent on the entries it meets. *)
Lemma entry_update_chars_in (P : Z -> Prop) f chars ch :
  (forall e, P e -> P (f e)) -> (forall e, P e -> f (f e) = f e) ->
  c_string chars = true -> In ch chars ->
  forall t, length t = all_chars -> P (entry t ch) ->
    entry (update_chars f t chars) ch = f (entry t ch).
Proof.
  intros Hf Hff. induction chars as [|c rest IH]; intros Hs Hin t Hlen Ht;
    [destruct Hin|].
  simpl in Hs. apply andb_true_iff in Hs as [Hc Hs]. unfold c_char in Hc.
  apply andb_true_iff in Hc as [H1 H2]. apply Z.ltb_lt in H1, H2.
  simpl. rewrite (to_uchar_small c) by lia.
  destruct (Z.eqb_spec c 0) as [E|_]; [lia|].
  assert (Z.of_nat (length t) = 256) as Hlen' by (rewrite Hlen; reflexivity).
  destruct (Z.eq_dec c ch) as [->|Hne].
  - destruct (in_dec Z.eq_dec ch rest) as [Hr|Hr].
    + rewrite IH; [| exact Hs | exact Hr | rewrite length_store; exact Hlen |].
      * rewrite entry_store_eq by lia. apply Hff. exact Ht.
      * rewrite entry_store_eq by lia. apply Hf. exact Ht.
    + rewrite entry_update_chars_other;
        [| lia | rewrite map_to_uchar_c_string by exact Hs; exact Hr].
      apply entry_store_eq. lia.
  - destruct Hin as [E|Hin]; [contradiction|].
    assert (0 <= ch) as Hch.
    { unfold c_string in Hs. rewrite forallb_forall in Hs.
      specialize (Hs ch Hin). unfold c_char in Hs.
      apply andb_true_iff in Hs as [Hs _]. apply Z.ltb_lt in Hs. lia. }
    rewrite IH; [| exact Hs | exact Hin | rewrite length_store; exact Hlen |];
      rewrite entry_store_ne by lia; [reflexivity | exact Ht].
Qed.

Lemma update_chars_entries f chars s ch :
  well_formed s -> c_string chars = true ->
  (forall e, valid_entry e = true -> valid_entry (f e) = true) ->
  (forall e, valid_entry e = true -> f (f e) = f e) ->
  0 <= ch < 256 ->
  entry (update_chars f (table s) chars) ch
  = if mem ch chars then f (entry (table s) ch) else entry (table s) ch.
Proof.
  intros Hwf Hs Hf Hff Hch. destruct (mem ch chars) eqn:E.
  - apply mem_In in E.
    apply (entry_update_chars_in (fun e => valid_entry e = true));
      try assumption; [apply (wf_length _ Hwf) | apply entry_valid; exact Hwf].
  - apply entry_update_chars_other; [lia|].
    rewrite map_to_uchar_c_string by exact Hs.
    intros Hin. apply mem_In in Hin. congruence.
Qed.

Lemma add_entry_twice e c :
  In c all_codes -> valid_entry e = true ->
  add_entry (add_entry e c) c = add_entry e c.
Proof.
  intros Hc He. apply Z.eqb_eq. revert e c He Hc.
  apply (valid_entry_forall2
           (fun e c => add_entry (add_entry e c) c =? add_entry e c)).
  vm_compute. reflexivity.
Qed.

Lemma subtract_entry_twice e c :
  In c all_codes -> valid_entry e = true ->
  subtract_entry c (subtract_entry c e) = subtract_entry c e.
Proof.
  intros Hc He. apply Z.eqb_eq. revert e c He Hc.
  apply (valid_entry_forall2
           (fun e c => subtract_entry c (subtract_entry c e)
                       =? subtract_entry c e)).
  vm_compute. reflexivity.
Qed.

(** The entry that adding a code gives: a mask is set beside what is
    there; a basis category replaces the basis category and keeps the
    masks. *)
Lemma add_entry_formula e c :
  In c all_codes -> valid_entry e = true ->
  add_entry e c
  = if Z.land c M4_SYNTAX_MASKS =? 0
    then Z.lor (Z.land e M4_SYNTAX_MASKS) c
    else Z.lor e c.
Proof.
  intros Hc He. apply Z.eqb_eq. revert e c He Hc.
  apply (valid_entry_forall2
           (fun e c => add_entry e c
                       =? (if Z.land c M4_SYNTAX_MASKS =? 0
                           then Z.lor (Z.land e M4_SYNTAX_MASKS) c
                           else Z.lor e c))).
  vm_compute. reflexivity.
Qed.

(** The entry that subtracting a code gives: a mask is cleared; a basis
    category that is carried gives way to OTHER, with the masks kept. *)
Lemma subtract_entry_formula e c :
  In c all_codes -> valid_entry e = true ->
  subtract_entry c e
  = if negb (Z.land c M4_SYNTAX_MASKS =? 0)
    then Z.land e (Z.lnot c)
    else if has_bits e c
    then Z.lor (Z.land e M4_SYNTAX_MASKS) M4_SYNTAX_OTHER
    else e.
Proof.
  intros Hc He. apply Z.eqb_eq. revert e c He Hc.
  apply (valid_entry_forall2
           (fun e c => subtract_entry c e
                       =? (if negb (Z.land c M4_SYNTAX_MASKS =? 0)
                           then Z.land e (Z.lnot c)
                           else if has_bits e c
                           then Z.lor (Z.land e M4_SYNTAX_MASKS)
                                  M4_SYNTAX_OTHER
                           else e))).
  vm_compute. reflexivity.
Qed.

Lemma code_not_negative c : In c all_codes -> 0 <= c.
Proof.
  intros Hc. apply Z.leb_le. revert c Hc.
  apply (proj1 (forallb_forall (fun c => 0 <=? c) all_codes)).
  vm_compute. reflexivity.
Qed.

Lemma known_key_code key :
  0 <= m4_syntax_code key -> In (m4_syntax_code key) all_codes.
Proof. intros H. destruct (m4_syntax_code_cases key); [lia | assumption]. Qed.

Lemma c_string_deref_nul chars :
  c_string chars = true -> (deref chars =? NUL) = true -> chars = [].
Proof.
  intros Hs H. destruct chars as [|c rest]; [reflexivity|].
  assert (c :: rest <> []) as Hne by discriminate.
  apply (c_string_truthy _ Hs) in Hne. unfold truthy in Hne.
  unfold NUL in H. rewrite H in Hne. discriminate.
Qed.

(** X11: the add verb on a reachable table, for a key of the mapping and
    a C string: each character of the string gets the code (a mask is set
    beside what is there, a basis category replaces the basis category
    and keeps the masks), every other entry is unchanged, and no checker
    runs: the stored delimiters and the two single flags are as before,
    whatever the verb does to the delimiter bytes.  The escape flag is
    set when the code is ESCAPE and the string is not empty. *)
Theorem add_verb_effect s key chars :
  reachable s -> key <> NUL -> 0 <= m4_syntax_code key ->
  c_string chars = true ->
  exists s',
    m4_set_syntax s key (chr "+") (Some chars)
    = Some (s', m4_syntax_code key)
    /\ (forall ch, 0 <= ch < 256 ->
          m4_syntab s' ch
          = if mem ch chars
            then (if Z.land (m4_syntax_code key) M4_SYNTAX_MASKS =? 0
                  then Z.lor (Z.land (m4_syntab s ch) M4_SYNTAX_MASKS)
                         (m4_syntax_code key)
                  else Z.lor (m4_syntab s ch) (m4_syntax_code key))
            else m4_syntab s ch)
    /\ m4_get_syntax_quotes s' = m4_get_syntax_quotes s
    /\ m4_get_syntax_comments s' = m4_get_syntax_comments s
    /\ m4_is_syntax_single_quotes s' = m4_is_syntax_single_quotes s
    /\ m4_is_syntax_single_comments s' = m4_is_syntax_single_comments s
    /\ m4_is_syntax_macro_escaped s'
       = match chars with
         | [] => m4_is_syntax_macro_escaped s
         | _ :: _ =>
             (m4_syntax_code key =? M4_SYNTAX_ESCAPE)
             || m4_is_syntax_macro_escaped s
         end.
Proof.
  intros Hr Hk Hpos Hs. pose proof (reachable_well_formed s Hr) as Hwf.
  pose proof (known_key_code key Hpos) as Hc.
  rewrite m4_set_syntax_verb by assumption.
  unfold verb_body. rewrite Z.eqb_refl. simpl.
  eexists. split; [reflexivity|].
  destruct (finish_fields (add_syntax_set s chars (m4_syntax_code key))
              false true) as (T & _ & Q & C & F1 & F2 & F3).
  cbv zeta in T, Q, C, F1, F2, F3.
  unfold m4_get_syntax_quotes, m4_get_syntax_comments,
    m4_is_syntax_single_quotes, m4_is_syntax_single_comments,
    m4_is_syntax_macro_escaped.
  rewrite Q, C, F1, F2, F3. unfold m4_syntab at 1. rewrite T.
  rewrite add_syntax_set_eq.
  destruct (deref chars =? NUL) eqn:E.
  { apply (c_string_deref_nul _ Hs) in E. subst chars.
    split; [|repeat split; reflexivity].
    intros ch Hch. reflexivity. }
  assert (exists c rest, chars = c :: rest) as (c & rest & Echars).
  { destruct chars as [|c rest]; [discriminate E | eauto]. }
  split.
  - intros ch Hch. simpl table. rewrite to_uchar_small by exact Hch.
    unfold m4_syntab. rewrite to_uchar_small by exact Hch.
    rewrite (update_chars_entries (fun e => add_entry e (m4_syntax_code key)))
      by (assumption || (intros e He; apply add_entry_valid; assumption)
          || (intros e He; apply add_entry_twice; assumption)).
    rewrite add_entry_formula by (assumption || apply entry_valid; exact Hwf).
    reflexivity.
  - rewrite Echars.
    destruct (m4_syntax_code key =? M4_SYNTAX_ESCAPE);
      repeat split; reflexivity.
Qed.

Lemma add_verb_effect_witness :
  exists s',
    m4_set_syntax bracket_table (chr "A") (chr "+") (Some (str ["["; "!"]%char))
    = Some (s', m4_syntax_code (chr "A"))
    /\ (forall ch, 0 <= ch < 256 ->
          m4_syntab s' ch
          = if mem ch (str ["["; "!"]%char)
            then (if Z.land (m4_syntax_code (chr "A")) M4_SYNTAX_MASKS =? 0
                  then Z.lor (Z.land (m4_syntab bracket_table ch)
                                M4_SYNTAX_MASKS)
                         (m4_syntax_code (chr "A"))
                  else Z.lor (m4_syntab bracket_table ch)
                         (m4_syntax_code (chr "A")))
            else m4_syntab bracket_table ch)
    /\ m4_get_syntax_quotes s' = m4_get_syntax_quotes bracket_table
    /\ m4_get_syntax_comments s' = m4_get_syntax_comments bracket_table
    /\ m4_is_syntax_single_quotes s'
       = m4_is_syntax_single_quotes bracket_table
    /\ m4_is_syntax_single_comments s'
       = m4_is_syntax_single_comments bracket_table
    /\ m4_is_syntax_macro_escaped s'
       = ((m4_syntax_code (chr "A") =? M4_SYNTAX_ESCAPE)
          || m4_is_syntax_macro_escaped bracket_table).
Proof.
  apply (add_verb_effect bracket_table (chr "A") (str ["["; "!"]%char)).
  - apply reachable_bracket_table.
  - discriminate.
  - vm_compute. discriminate.
  - reflexivity.
Defined.

Lemma subtract_syntax_set_table s chars code v :
  well_formed s -> In code all_codes ->
  subtract_syntax_set s chars code = Some v ->
  table v = update_chars (subtract_entry code) (table s)
              (if deref chars =? NUL then [] else chars).
Proof.
  intros Hwf Hc. rewrite subtract_syntax_set_eq.
  destruct (deref chars =? NUL); [intros E; injection E as <-; reflexivity|].
  cbv zeta.
  pose proof (well_formed_update_chars s (subtract_entry code) chars Hwf
                (fun e => subtract_entry_valid code e Hc)) as Hwx.
  set (x := set_table s (update_chars (subtract_entry code) (table s) chars))
    in *.
  change (update_chars (subtract_entry code) (table s) chars)
    with (table x).
  destruct (code =? M4_SYNTAX_ESCAPE).
  { intros E. injection E as <-.
    match goal with |- context [if ?b then _ else _] => destruct b end;
      reflexivity. }
  destruct ((code =? M4_SYNTAX_LQUOTE) || (code =? M4_SYNTAX_RQUOTE)).
  { destruct (is_single_quotes x);
      [|intros E; injection E as <-; reflexivity].
    destruct (check_is_single_quotes_spec x (wf_single_quotes _ Hwx))
      as (q & b & Eq & _).
    rewrite Eq. intros E. injection E as <-. reflexivity. }
  destruct ((code =? M4_SYNTAX_BCOMM) || (code =? M4_SYNTAX_ECOMM)).
  { destruct (is_single_comments x);
      [|intros E; injection E as <-; reflexivity].
    destruct (check_is_single_comments_spec x (wf_single_comments _ Hwx))
      as (q & b & Eq & _).
    rewrite Eq. intros E. injection E as <-. reflexivity. }
  intros E. injection E as <-. reflexivity.
Qed.

Lemma subtract_entry_clears e c :
  In c all_codes -> c <> M4_SYNTAX_OTHER -> valid_entry e = true ->
  has_bits (subtract_entry c e) c = false.
Proof.
  intros Hc Hne He.
  pose proof (valid_entry_forall2
    (fun e c => (c =? M4_SYNTAX_OTHER)
                || negb (has_bits (subtract_entry c e) c))
    all_codes ltac:(vm_compute; reflexivity) e c He Hc) as K.
  simpl in K. destruct (Z.eqb_spec c M4_SYNTAX_OTHER); [contradiction|].
  apply negb_true_iff. exact K.
Qed.

Lemma subtract_entry_other e :
  valid_entry e = true -> subtract_entry M4_SYNTAX_OTHER e = e.
Proof.
  intros He. apply Z.eqb_eq. revert e He.
  apply (valid_entry_forall
           (fun e => subtract_entry M4_SYNTAX_OTHER e =? e)).
  vm_compute. reflexivity.
Qed.

(** X12: the subtract verb on a reachable table, for a key of the mapping
    and a C string: in the entry of each character of the string a mask
    is cleared, and a basis category that the character carries gives way
    to OTHER with the masks kept; every other entry is unchanged.  So no
    character of the string carries the code afterwards, unless the code
    is OTHER: subtracting OTHER changes no entry. *)
Theorem subtract_verb_effect s key chars :
  reachable s -> key <> NUL -> 0 <= m4_syntax_code key ->
  c_string chars = true ->
  exists s',
    m4_set_syntax s key (chr "-") (Some chars)
    = Some (s', m4_syntax_code key)
    /\ (forall ch, 0 <= ch < 256 ->
          m4_syntab s' ch
          = if mem ch chars
            then (if negb (Z.land (m4_syntax_code key) M4_SYNTAX_MASKS =? 0)
                  then Z.land (m4_syntab s ch) (Z.lnot (m4_syntax_code key))
                  else if m4_has_syntax s ch (m4_syntax_code key)
                  then Z.lor (Z.land (m4_syntab s ch) M4_SYNTAX_MASKS)
                         M4_SYNTAX_OTHER
                  else m4_syntab s ch)
            else m4_syntab s ch)
    /\ (m4_syntax_code key <> M4_SYNTAX_OTHER ->
        forall ch, In ch chars ->
          m4_has_syntax s' ch (m4_syntax_code key) = false)
    /\ (m4_syntax_code key = M4_SYNTAX_OTHER ->
        forall ch, 0 <= ch < 256 -> m4_syntab s' ch = m4_syntab s ch).
Proof.
  intros Hr Hk Hpos Hs. pose proof (reachable_well_formed s Hr) as Hwf.
  pose proof (known_key_code key Hpos) as Hc.
  rewrite m4_set_syntax_verb by assumption.
  unfold verb_body. change (chr "-" =? chr "+") with false.
  rewrite Z.eqb_refl. cbv iota.
  destruct (well_formed_subtract_syntax_set s chars _ Hwf Hc)
    as (v & Ev & _).
  rewrite Ev. simpl. eexists. split; [reflexivity|].
  destruct (finish_fields v false true) as (T & _).
  cbv zeta in T.
  pose proof (subtract_syntax_set_table s chars _ v Hwf Hc Ev) as Tv.
  assert (forall ch, 0 <= ch < 256 ->
            m4_syntab (m4__quote_uncache (set_quote_age v false true)) ch
            = if mem ch chars
              then subtract_entry (m4_syntax_code key) (entry (table s) ch)
              else entry (table s) ch) as Hentry.
  { intros ch Hch. unfold m4_syntab. rewrite T, Tv.
    rewrite to_uchar_small by exact Hch.
    destruct (deref chars =? NUL) eqn:E.
    - apply (c_string_deref_nul _ Hs) in E. subst chars. reflexivity.
    - apply update_chars_entries; try assumption.
      + intros e He. apply subtract_entry_valid; assumption.
      + intros e He. apply subtract_entry_twice; assumption. }
  split; [|split].
  - intros ch Hch. rewrite (Hentry ch Hch).
    rewrite subtract_entry_formula by (assumption || apply entry_valid; exact Hwf).
    rewrite m4_has_syntax_entry by exact Hch.
    unfold m4_syntab. rewrite to_uchar_small by exact Hch. reflexivity.
  - intros Hne ch Hin.
    assert (0 <= ch < 256) as Hch.
    { unfold c_string in Hs. rewrite forallb_forall in Hs.
      specialize (Hs ch Hin). unfold c_char in Hs.
      apply andb_true_iff in Hs as [H1 H2]. apply Z.ltb_lt in H1, H2. lia. }
    rewrite m4_has_syntax_bits, (Hentry ch Hch).
    apply mem_In in Hin. rewrite Hin.
    apply subtract_entry_clears;
      [exact Hc | exact Hne | apply entry_valid; exact Hwf].
  - intros E ch Hch. rewrite (Hentry ch Hch), E.
    rewrite subtract_entry_other by (apply entry_valid; exact Hwf).
    unfold m4_syntab. rewrite to_uchar_small by exact Hch.
    destruct (mem ch chars); reflexivity.
Qed.

Lemma subtract_verb_effect_witness :
  exists s',
    m4_set_syntax bracket_table (chr "W") (chr "-") (Some (str ["a"; "["]%char))
    = Some (s', m4_syntax_code (chr "W"))
    /\ (forall ch, 0 <= ch < 256 ->
          m4_syntab s' ch
          = if mem ch (str ["a"; "["]%char)
            then (if negb (Z.land (m4_syntax_code (chr "W")) M4_SYNTAX_MASKS
                           =? 0)
                  then Z.land (m4_syntab bracket_table ch)
                         (Z.lnot (m4_syntax_code (chr "W")))
                  else if m4_has_syntax bracket_table ch
                            (m4_syntax_code (chr "W"))
                  then Z.lor (Z.land (m4_syntab bracket_table ch)
                                M4_SYNTAX_MASKS)
                         M4_SYNTAX_OTHER
                  else m4_syntab bracket_table ch)
            else m4_syntab bracket_table ch)
    /\ (m4_syntax_code (chr "W") <> M4_SYNTAX_OTHER ->
        forall ch, In ch (str ["a"; "["]%char) ->
          m4_has_syntax s' ch (m4_syntax_code (chr "W")) = false)
    /\ (m4_syntax_code (chr "W") = M4_SYNTAX_OTHER ->
        forall ch, 0 <= ch < 256 ->
          m4_syntab s' ch = m4_syntab bracket_table ch).
Proof.
  apply (subtract_verb_effect bracket_table (chr "W") (str ["a"; "["]%char)).
  - apply reachable_bracket_table.
  - discriminate.
  - vm_compute. discriminate.
  - reflexivity.
Defined.

Lemma has_syntax_same_table s s' ch bits :
  table s' = table s -> m4_has_syntax s' ch bits = m4_has_syntax s ch bits.
Proof. intros H. unfold m4_has_syntax, m4_syntab. rewrite H. reflexivity. Qed.

(** The end of [set_syntax_set] and of [reset_syntax_set]: the three
    checkers keep the table, and leave the escape flag exact. *)
Lemma checked_table x v :
  well_formed x ->
  (let? s1 := check_is_single_quotes (check_is_macro_escaped x) in
   check_is_single_comments s1) = Some v ->
  table v = table x
  /\ (is_macro_escaped v = true
      <-> exists ch, 0 <= ch < 256
                     /\ m4_has_syntax v ch M4_SYNTAX_ESCAPE = true).
Proof.
  intros Hwx Hv.
  destruct (checkers_carried (check_is_macro_escaped x)
              (well_formed_set_is_macro_escaped _ _ Hwx))
    as (v' & E & _ & T & _ & F & _).
  rewrite E in Hv. injection Hv as <-.
  split; [exact T|]. rewrite F. unfold check_is_macro_escaped at 1. simpl.
  rewrite scan_escape_spec. change (Z.of_nat all_chars) with 256.
  split; intros (ch & Hch & H); exists ch; (split; [exact Hch|]).
  - rewrite (has_syntax_same_table x v') by exact T. exact H.
  - rewrite (has_syntax_same_table x v') in H by exact T. exact H.
Qed.

Lemma clear_entry_facts e c :
  In c all_codes -> valid_entry e = true ->
  (has_bits e c = false -> clear_entry c e = e)
  /\ (In c basis_codes -> has_bits e c = true ->
      clear_entry c e = Z.lor (Z.land e M4_SYNTAX_MASKS) M4_SYNTAX_OTHER)
  /\ (c <> M4_SYNTAX_IGNORE -> c <> M4_SYNTAX_OTHER ->
      has_bits (clear_entry c e) c = false
      /\ has_bits (add_entry (clear_entry c e) c) c = true).
Proof.
  intros Hc He.
  pose proof (valid_entry_forall2
    (fun e c =>
       implb (negb (has_bits e c)) (clear_entry c e =? e)
       && implb (mem c basis_codes && has_bits e c)
            (clear_entry c e
             =? Z.lor (Z.land e M4_SYNTAX_MASKS) M4_SYNTAX_OTHER)
       && ((c =? M4_SYNTAX_IGNORE) || (c =? M4_SYNTAX_OTHER)
           || (negb (has_bits (clear_entry c e) c)
               && has_bits (add_entry (clear_entry c e) c) c)))
    all_codes ltac:(vm_compute; reflexivity) e c He Hc) as K.
  cbv beta in K. apply andb_true_iff in K as [K K3].
  apply andb_true_iff in K as [K1 K2].
  split; [|split].
  - intros H. rewrite H in K1. apply Z.eqb_eq. exact K1.
  - intros Hb H. apply mem_In in Hb. rewrite Hb, H in K2.
    apply Z.eqb_eq. exact K2.
  - intros N1 N2.
    destruct (Z.eqb_spec c M4_SYNTAX_IGNORE); [contradiction|].
    destruct (Z.eqb_spec c M4_SYNTAX_OTHER); [contradiction|].
    simpl in K3. apply andb_true_iff in K3 as [A B].
    apply negb_true_iff in A. split; assumption.
Qed.

(** X13: the set verb on a reachable table, for a key of the mapping and
    a C string: afterwards a character carries the code if and only if it
    is in the string (for a code other than IGNORE and OTHER).  A
    character outside the string that did not carry the code keeps its
    entry; one that carried it as its basis category becomes OTHER,
    masks kept.  The escape flag is exact afterwards: it is set if and
    only if some character carries ESCAPE. *)
Theorem set_verb_effect s key chars :
  reachable s -> key <> NUL -> 0 <= m4_syntax_code key ->
  c_string chars = true ->
  exists s',
    m4_set_syntax s key (chr "=") (Some chars)
    = Some (s', m4_syntax_code key)
    /\ (m4_syntax_code key <> M4_SYNTAX_IGNORE ->
        m4_syntax_code key <> M4_SYNTAX_OTHER ->
        forall ch, 0 <= ch < 256 ->
          m4_has_syntax s' ch (m4_syntax_code key) = true <-> In ch chars)
    /\ (forall ch, 0 <= ch < 256 -> ~ In ch chars ->
          m4_has_syntax s ch (m4_syntax_code key) = false ->
          m4_syntab s' ch = m4_syntab s ch)
    /\ (forall ch, 0 <= ch < 256 -> ~ In ch chars ->
          In (m4_syntax_code key) basis_codes ->
          m4_has_syntax s ch (m4_syntax_code key) = true ->
          m4_syntab s' ch
          = Z.lor (Z.land (m4_syntab s ch) M4_SYNTAX_MASKS) M4_SYNTAX_OTHER)
    /\ (m4_is_syntax_macro_escaped s' = true
        <-> exists ch, 0 <= ch < 256
                       /\ m4_has_syntax s' ch M4_SYNTAX_ESCAPE = true).
Proof.
  intros Hr Hk Hpos Hs. pose proof (reachable_well_formed s Hr) as Hwf.
  pose proof (known_key_code key Hpos) as Hc.
  rewrite m4_set_syntax_verb by assumption.
  unfold verb_body. change (chr "=" =? chr "+") with false.
  change (chr "=" =? chr "-") with false. rewrite Z.eqb_refl. cbv iota.
  destruct (well_formed_set_syntax_set s chars _ Hwf Hc) as (v & Ev & _).
  rewrite Ev. simpl. eexists. split; [reflexivity|].
  destruct (finish_fields v false true) as (T & _ & _ & _ & _ & _ & F).
  cbv zeta in T, F.
  rewrite set_syntax_set_eq in Ev. cbv zeta in Ev.
  pose proof (well_formed_sweep s (fun _ => clear_entry (m4_syntax_code key))
                Hwf (fun _ e => clear_entry_valid _ e Hc)) as Hw1.
  pose proof (well_formed_update_chars _
                (fun e => add_entry e (m4_syntax_code key)) chars Hw1
                (fun e He => add_entry_valid e _ He Hc)) as Hw2.
  simpl in Hw2.
  destruct (checked_table _ v Hw2 Ev) as [Tv Fv]. simpl in Tv.
  assert (forall ch, 0 <= ch < 256 ->
            m4_syntab (m4__quote_uncache (set_quote_age v false true)) ch
            = if mem ch chars
              then add_entry (clear_entry (m4_syntax_code key)
                                (entry (table s) ch)) (m4_syntax_code key)
              else clear_entry (m4_syntax_code key) (entry (table s) ch))
    as Hentry.
  { intros ch Hch. unfold m4_syntab. rewrite T, Tv.
    rewrite to_uchar_small by exact Hch.
    pose proof (update_chars_entries
                  (fun e => add_entry e (m4_syntax_code key)) chars _ ch
                  Hw1 Hs (fun e He => add_entry_valid e _ He Hc)
                  (fun e He => add_entry_twice e _ Hc He) Hch) as K.
    simpl in K. rewrite K.
    rewrite entry_sweep_all by (apply (wf_length _ Hwf) || exact Hch).
    reflexivity. }
  assert (forall ch, In ch chars <-> mem ch chars = true) as Hmem.
  { intros ch. symmetry. apply mem_In. }
  split; [|split; [|split]].
  - intros N1 N2 ch Hch.
    rewrite m4_has_syntax_bits, (Hentry ch Hch), Hmem.
    destruct (clear_entry_facts (entry (table s) ch) _ Hc
                (entry_valid s ch Hwf)) as (_ & _ & K).
    destruct (K N1 N2) as [A B].
    destruct (mem ch chars); [rewrite B | rewrite A];
      split; congruence.
  - intros ch Hch Hn Hhas. rewrite (Hentry ch Hch).
    rewrite Hmem in Hn. destruct (mem ch chars); [congruence|].
    rewrite m4_has_syntax_entry in Hhas by exact Hch.
    destruct (clear_entry_facts (entry (table s) ch) _ Hc
                (entry_valid s ch Hwf)) as (K & _).
    rewrite (K Hhas). unfold m4_syntab.
    rewrite to_uchar_small by exact Hch. reflexivity.
  - intros ch Hch Hn Hb Hhas. rewrite (Hentry ch Hch).
    rewrite Hmem in Hn. destruct (mem ch chars); [congruence|].
    rewrite m4_has_syntax_entry in Hhas by exact Hch.
    destruct (clear_entry_facts (entry (table s) ch) _ Hc
                (entry_valid s ch Hwf)) as (_ & K & _).
    rewrite (K Hb Hhas). unfold m4_syntab.
    rewrite to_uchar_small by exact Hch. reflexivity.
  - unfold m4_is_syntax_macro_escaped. rewrite F, Fv.
    split; intros (ch & Hch & H); exists ch; (split; [exact Hch|]).
    + rewrite (has_syntax_same_table v) by exact T. exact H.
    + rewrite (has_syntax_same_table v) in H by exact T. exact H.
Qed.

Lemma set_verb_effect_witness :
  exists s',
    m4_set_syntax bracket_table (chr "A") (chr "=") (Some (str ["!"%char]))
    = Some (s', m4_syntax_code (chr "A"))
    /\ (m4_syntax_code (chr "A") <> M4_SYNTAX_IGNORE ->
        m4_syntax_code (chr "A") <> M4_SYNTAX_OTHER ->
        forall ch, 0 <= ch < 256 ->
          m4_has_syntax s' ch (m4_syntax_code (chr "A")) = true
          <-> In ch (str ["!"%char]))
    /\ (forall ch, 0 <= ch < 256 -> ~ In ch (str ["!"%char]) ->
          m4_has_syntax bracket_table ch (m4_syntax_code (chr "A")) = false ->
          m4_syntab s' ch = m4_syntab bracket_table ch)
    /\ (forall ch, 0 <= ch < 256 -> ~ In ch (str ["!"%char]) ->
          In (m4_syntax_code (chr "A")) basis_codes ->
          m4_has_syntax bracket_table ch (m4_syntax_code (chr "A")) = true ->
          m4_syntab s' ch
          = Z.lor (Z.land (m4_syntab bracket_table ch) M4_SYNTAX_MASKS)
              M4_SYNTAX_OTHER)
    /\ (m4_is_syntax_macro_escaped s' = true
        <-> exists ch, 0 <= ch < 256
                       /\ m4_has_syntax s' ch M4_SYNTAX_ESCAPE = true).
Proof.
  apply (set_verb_effect bracket_table (chr "A") (str ["!"%char])).
  - apply reachable_bracket_table.
  - discriminate.
  - vm_compute. discriminate.
  - reflexivity.
Defined.

(** ** The full reset *)

Lemma quotes_safe_frame s s' age :
  table s' = table s -> quote s' = quote s -> comm s' = comm s ->
  is_single_quotes s' = is_single_quotes s ->
  quotes_safe s' age = quotes_safe s age.
Proof.
  unfold quotes_safe, m4_has_syntax, m4_syntab.
  intros -> -> -> ->. reflexivity.
Qed.

Lemma pack_quote_age_frame s s' age :
  quote s' = quote s -> pack_quote_age s' age = pack_quote_age s age.
Proof. unfold pack_quote_age. intros ->. reflexivity. Qed.

Lemma syntax_table_ext s s' :
  table s' = table s -> orig s' = orig s -> quote s' = quote s ->
  comm s' = comm s -> cached_quote s' = cached_quote s ->
  cached_lquote s' = cached_lquote s -> cached_rquote s' = cached_rquote s ->
  cached_simple s' = cached_simple s ->
  is_single_quotes s' = is_single_quotes s ->
  is_single_comments s' = is_single_comments s ->
  is_macro_escaped s' = is_macro_escaped s ->
  syntax_age s' = syntax_age s -> quote_age s' = quote_age s ->
  s' = s.
Proof.
  destruct s, s'. simpl. intros. subst. reflexivity.
Qed.

(** The table after the branch of the null key. *)
Lemma full_reset_fields s :
  well_formed s ->
  let s' := set_quote_age (restore_defaults s) true false in
  table s' = table fresh /\ orig s' = orig s
  /\ quote s' = quote fresh /\ comm s' = comm fresh
  /\ is_single_quotes s' = true /\ is_single_comments s' = true
  /\ is_macro_escaped s' = false
  /\ quote_age s' = quote_age fresh
  /\ syntax_age s' = syntax_age s
  /\ cached_quote s' = cached_quote s
  /\ cached_lquote s' = cached_lquote s
  /\ cached_rquote s' = cached_rquote s
  /\ cached_simple s' = cached_simple s.
Proof.
  intros Hwf. cbv zeta.
  destruct (set_quote_age_fields (restore_defaults s) true false)
    as (T & O & Q & C & F1 & F2 & F3).
  destruct (set_quote_age_cache (restore_defaults s) true false)
    as (K1 & K2 & K3 & K4).
  destruct (restore_defaults_fields s)
    as (Q' & C' & F1' & F2' & F3' & O' & K1' & K2' & K3' & K4' & _).
  pose proof (table_restore_defaults s (wf_orig _ Hwf)) as T'.
  cbv zeta in T, O, Q, C, F1, F2, F3.
  rewrite T, O, Q, C, F1, F2, F3, K1, K2, K3, K4.
  rewrite T', O', Q', C', F1', F2', F3', K1', K2', K3', K4'.
  rewrite syntax_age_set_quote_age, syntax_age_restore_defaults.
  repeat (split; [reflexivity|]).
  split; [|repeat split; reflexivity].
  rewrite set_quote_age_eq. simpl quote_age.
  rewrite local_syntax_age_reset.
  rewrite (quotes_safe_frame fresh (restore_defaults s))
    by (assumption || (rewrite ?Q', ?C', ?F1'; reflexivity)).
  rewrite (pack_quote_age_frame fresh (restore_defaults s))
    by (rewrite Q'; reflexivity).
  vm_compute. reflexivity.
Qed.

(** X14: the full reset ([m4_set_syntax] with the key NUL) of a reachable
    table returns 0 and gives, whatever the action and the string, the
    table, the delimiters, the three flags and the quote age of a created
    table; it keeps the syntax age, the default vector and the quote
    cache.  A second full reset changes nothing. *)
Theorem full_reset_restores_creation s s0 action chars :
  reachable s -> m4_syntax_create = Some s0 ->
  exists s',
    m4_set_syntax s NUL action chars = Some (s', 0)
    /\ table s' = table s0
    /\ m4_get_syntax_quotes s' = m4_get_syntax_quotes s0
    /\ m4_get_syntax_comments s' = m4_get_syntax_comments s0
    /\ m4_is_syntax_single_quotes s' = m4_is_syntax_single_quotes s0
    /\ m4_is_syntax_single_comments s' = m4_is_syntax_single_comments s0
    /\ m4_is_syntax_macro_escaped s' = m4_is_syntax_macro_escaped s0
    /\ quote_age s' = quote_age s0
    /\ syntax_age s' = syntax_age s
    /\ orig s' = orig s
    /\ cached_quote s' = cached_quote s
    /\ m4_set_syntax s' NUL action chars = Some (s', 0).
Proof.
  intros Hr Hs0. rewrite m4_syntax_create_fresh in Hs0. injection Hs0 as <-.
  pose proof (reachable_well_formed s Hr) as Hwf.
  rewrite m4_set_syntax_reset. eexists. split; [reflexivity|].
  destruct (full_reset_fields s Hwf)
    as (T & O & Q & C & F1 & F2 & F3 & A & B & K1 & K2 & K3 & K4).
  cbv zeta in T, O, Q, C, F1, F2, F3, A, B, K1, K2, K3, K4.
  unfold m4_get_syntax_quotes, m4_get_syntax_comments,
    m4_is_syntax_single_quotes, m4_is_syntax_single_comments,
    m4_is_syntax_macro_escaped.
  repeat (split; [assumption|]).
  rewrite m4_set_syntax_reset. f_equal. f_equal.
  assert (well_formed (set_quote_age (restore_defaults s) true false)) as Hwf'.
  { apply well_formed_set_quote_age. apply well_formed_restore_defaults.
    exact Hwf. }
  destruct (full_reset_fields _ Hwf')
    as (T' & O' & Q' & C' & F1' & F2' & F3' & A' & B' & K1' & K2' & K3' & K4').
  cbv zeta in T', O', Q', C', F1', F2', F3', A', B', K1', K2', K3', K4'.
  apply syntax_table_ext; congruence.
Qed.

Lemma full_reset_restores_creation_witness :
  exists s',
    m4_set_syntax bracket_table NUL NUL None = Some (s', 0)
    /\ table s' = table fresh
    /\ m4_get_syntax_quotes s' = m4_get_syntax_quotes fresh
    /\ m4_get_syntax_comments s' = m4_get_syntax_comments fresh
    /\ m4_is_syntax_single_quotes s' = m4_is_syntax_single_quotes fresh
    /\ m4_is_syntax_single_comments s' = m4_is_syntax_single_comments fresh
    /\ m4_is_syntax_macro_escaped s' = m4_is_syntax_macro_escaped fresh
    /\ quote_age s' = quote_age fresh
    /\ syntax_age s' = syntax_age bracket_table
    /\ orig s' = orig bracket_table
    /\ cached_quote s' = cached_quote bracket_table
    /\ m4_set_syntax s' NUL NUL None = Some (s', 0).
Proof.
  apply (full_reset_restores_creation bracket_table fresh NUL None).
  - apply reachable_bracket_table.
  - vm_compute. reflexivity.
Defined.

(** ** The quote cache *)

Lemma land_shiftl_byte a n : 8 <= n -> Z.land (Z.shiftl a n) 0xff = 0.
Proof.
  intros Hn. change 0xff with (Z.ones 8). rewrite Z.land_ones by lia.
  rewrite Z.shiftl_mul_pow2 by lia.
  replace n with ((n - 8) + 8) by lia. rewrite Z.pow_add_r by lia.
  rewrite Z.mul_assoc. apply Z.mod_mul. discriminate.
Qed.

Lemma low_bits_pack age l r :
  0 <= r < 256 ->
  Z.land (Z.lor (Z.lor (Z.shiftl age 16) (Z.shiftl l 8)) r) 0xff = r.
Proof.
  intros Hr. rewrite !Z.land_lor_distr_l.
  rewrite !land_shiftl_byte by lia. rewrite land_byte by exact Hr.
  reflexivity.
Qed.

Lemma middle_bits_pack age l r :
  0 <= l < 256 -> 0 <= r < 256 ->
  Z.land (Z.shiftr (Z.lor (Z.lor (Z.shiftl age 16) (Z.shiftl l 8)) r) 8) 0xff
  = l.
Proof.
  intros Hl Hr. rewrite !Z.shiftr_lor.
  rewrite (Z.shiftr_shiftl_l age 16 8) by lia.
  rewrite (Z.shiftr_shiftl_l l 8 8) by lia.
  rewrite Z.sub_diag, Z.shiftl_0_r.
  rewrite (Z.shiftr_div_pow2 r) by lia. change (2 ^ 8) with 256.
  rewrite (Z.div_small r) by lia. rewrite Z.lor_0_r.
  rewrite Z.land_lor_distr_l. rewrite land_shiftl_byte by lia.
  rewrite land_byte by exact Hl. reflexivity.
Qed.

Lemma reachable_quote_age_invariant s : reachable s -> quote_age_invariant s.
Proof.
  intros Hr. induction Hr as [s Hs | s op s' Hr IH Hop Hrun].
  - rewrite m4_syntax_create_fresh in Hs. injection Hs as <-.
    intros _. exists 0. split; [lia|]. split; [left; reflexivity|].
    split; [|reflexivity].
    apply quotes_safe_sound; [apply well_formed_fresh | reflexivity].
  - pose proof (reachable_well_formed s Hr) as Hwf.
    destruct (run_op_cases s op s' Hwf Hop Hrun)
      as [(_ & c & l & r & ->) | (s1 & reset & c & l & r & W & _ & _ & ->)].
    + apply quote_age_invariant_recache. exact IH.
    + apply quote_age_invariant_recache.
      apply quote_age_invariant_set_quote_age. exact W.
Qed.

Lemma single_string l : strlen l = 1 -> l = [deref l].
Proof.
  unfold strlen. destruct l as [|c [|]]; simpl; intros H; try lia.
  reflexivity.
Qed.

(** X15: the quote age decodes to the current quotes.  On a reachable
    table whose quote age is not zero, [m4__quote_cache] called with that
    age and any non-null [quotes], with or without an obstack, returns
    [&syntax->cached_simple], which points to the two cached bytes with
    lengths 1, and these bytes are then the whole stored left and right
    quotes.  The obstack and the rest of the table are not touched. *)
Theorem quote_cache_rebuilds_current_quotes s obs q :
  reachable s -> quote_age s <> 0 -> q <> QuotesNull ->
  exists s',
    m4__quote_cache s obs (quote_age s) q = Some (s', obs, ResCachedSimple)
    /\ cached_simple s' = mk_simple RefCachedLquote 1 RefCachedRquote 1
    /\ m4_get_syntax_lquote s = [cached_lquote s']
    /\ m4_get_syntax_rquote s = [cached_rquote s']
    /\ s' = set_cached_bytes s (cached_lquote s') (cached_rquote s').
Proof.
  intros Hr Hq Hn. pose proof (reachable_well_formed s Hr) as Hwf.
  destruct (reachable_quote_age_invariant s Hr Hq)
    as (age & Hage & _ & Hsafe & Hpack).
  destruct Hsafe as (_ & Hsingle & _).
  destruct (wf_single_quotes _ Hwf Hsingle) as [L1 L2].
  destruct (single_byte _ (wf_quote _ Hwf) L1 L2) as [Rl Rr].
  destruct (wf_quote _ Hwf) as (S1 & S2 & _).
  assert (m4__quote_cache s obs (quote_age s) q
          = Some (set_cached_bytes s (Z.land (Z.shiftr (quote_age s) 8) 0xff)
                    (Z.land (quote_age s) 0xff), obs, ResCachedSimple)) as E.
  { unfold m4__quote_cache, truthy.
    destruct (Z.eqb_spec (quote_age s) 0) as [E0|_]; [contradiction|].
    destruct q; [contradiction | reflexivity | reflexivity]. }
  rewrite E. eexists. split; [reflexivity|].
  unfold left_quote_byte, right_quote_byte in Hpack.
  simpl cached_lquote. simpl cached_rquote. simpl cached_simple.
  rewrite Hpack, middle_bits_pack, low_bits_pack by assumption.
  unfold m4_get_syntax_lquote, m4_get_syntax_rquote.
  split; [apply (so_simple _ (reachable_strings_ok s Hr))|].
  split; [apply single_string; congruence|].
  split; [apply single_string; congruence | reflexivity].
Qed.

Lemma quote_cache_rebuilds_current_quotes_witness :
  exists s',
    m4__quote_cache bracket_table None (quote_age bracket_table) QuotesOfSyntax
    = Some (s', None, ResCachedSimple)
    /\ cached_simple s' = mk_simple RefCachedLquote 1 RefCachedRquote 1
    /\ m4_get_syntax_lquote bracket_table = [cached_lquote s']
    /\ m4_get_syntax_rquote bracket_table = [cached_rquote s']
    /\ s' = set_cached_bytes bracket_table (cached_lquote s')
              (cached_rquote s').
Proof.
  apply (quote_cache_rebuilds_current_quotes bracket_table None
           QuotesOfSyntax).
  - apply reachable_bracket_table.
  - vm_compute. discriminate.
  - discriminate.
Defined.

Lemma firstn_strlen (l : list Z) : firstn (Z.to_nat (strlen l)) l = l.
Proof. unfold strlen. rewrite Nat2Z.id. apply firstn_all. Qed.

(** X16: the quote cache copies once.  On a reachable table without a
    cached copy, [m4__quote_cache] with the age 0, an obstack with no
    object under construction and [&syntax->quote] copies the stored
    quote pair and its two strings onto the obstack, remembers the copy,
    which equals the stored pair, and returns it; called again, with
    whatever obstack, it returns the remembered copy and touches neither
    the table nor the obstack. *)
Theorem quote_cache_copies_once s o :
  reachable s -> cached_quote s = None -> object_size o = 0 ->
  exists s1 o1,
    m4__quote_cache s (Some o) 0 QuotesOfSyntax
    = Some (s1, Some o1, ResCachedQuote)
    /\ s1 = set_cached_quote s (Some (m4_get_syntax_quotes s))
    /\ object_size o1 = object_size o
    /\ objects o1
       = objects o ++ [ObjPair (m4_get_syntax_quotes s);
                       ObjBytes (m4_get_syntax_lquote s);
                       ObjBytes (m4_get_syntax_rquote s)]
    /\ forall o2,
         m4__quote_cache s1 (Some o2) 0 QuotesOfSyntax
         = Some (s1, Some o2, ResCachedQuote).
Proof.
  intros Hr Hc Ho. pose proof (reachable_well_formed s Hr) as Hwf.
  destruct (wf_quote _ Hwf) as (L1 & L2 & _).
  unfold m4__quote_cache at 1. simpl. rewrite Hc, Ho. simpl.
  rewrite L1, L2, !firstn_strlen. rewrite <- L1, <- L2, eta_pair.
  eexists. eexists. split; [reflexivity|].
  unfold m4_get_syntax_quotes, m4_get_syntax_lquote, m4_get_syntax_rquote.
  repeat (split; [reflexivity|]).
  intros o2. reflexivity.
Qed.

Lemma quote_cache_copies_once_witness :
  exists s1 o1,
    m4__quote_cache bracket_table (Some (mk_obstack 0 [])) 0 QuotesOfSyntax
    = Some (s1, Some o1, ResCachedQuote)
    /\ s1 = set_cached_quote bracket_table
              (Some (m4_get_syntax_quotes bracket_table))
    /\ object_size o1 = object_size (mk_obstack 0 [])
    /\ objects o1
       = objects (mk_obstack 0 [])
         ++ [ObjPair (m4_get_syntax_quotes bracket_table);
             ObjBytes (m4_get_syntax_lquote bracket_table);
             ObjBytes (m4_get_syntax_rquote bracket_table)]
    /\ forall o2,
         m4__quote_cache s1 (Some o2) 0 QuotesOfSyntax
         = Some (s1, Some o2, ResCachedQuote).
Proof.
  apply (quote_cache_copies_once bracket_table (mk_obstack 0 [])).
  - apply reachable_bracket_table.
  - reflexivity.
  - reflexivity.
Defined.

(** ** The scan of the checkers *)

Lemma count_bearers_none s code n :
  count_bearers s code n = 0%nat ->
  forall ch, 0 <= ch < Z.of_nat n -> m4_has_syntax s ch code = false.
Proof.
  induction n as [|k IH]; intros H ch Hch; [lia|].
  simpl in H.
  destruct (m4_has_syntax s (Z.of_nat k) code) eqn:E; [discriminate|].
  destruct (Z.eq_dec ch (Z.of_nat k)) as [->|Hne]; [exact E|].
  apply IH; [exact H | lia].
Qed.

Lemma count_bearers_some s code n :
  (1 <= count_bearers s code n)%nat ->
  exists ch, 0 <= ch < Z.of_nat n /\ m4_has_syntax s ch code = true.
Proof.
  induction n as [|k IH]; intros H; [simpl in H; lia|].
  simpl in H.
  destruct (m4_has_syntax s (Z.of_nat k) code) eqn:E.
  - exists (Z.of_nat k). split; [lia | exact E].
  - destruct (IH H) as (ch & Hch & Hh). exists ch. split; [lia | exact Hh].
Qed.

Lemma count_bearers_two s code n :
  (2 <= count_bearers s code n)%nat ->
  exists a b, 0 <= a < Z.of_nat n /\ 0 <= b < Z.of_nat n /\ a <> b
              /\ m4_has_syntax s a code = true
              /\ m4_has_syntax s b code = true.
Proof.
  induction n as [|k IH]; intros H; [simpl in H; lia|].
  simpl in H.
  destruct (m4_has_syntax s (Z.of_nat k) code) eqn:E.
  - destruct (count_bearers_some s code k ltac:(lia)) as (a & Ha & Hh).
    exists a, (Z.of_nat k). repeat split; try lia; assumption.
  - destruct (IH H) as (a & b & Ha & Hb & Hne & H1 & H2).
    exists a, b. repeat split; try lia; assumption.
Qed.

(** One character below 256 carries the code, and no other. *)
Lemma count_bearers_one s code ch :
  0 <= ch < 256 -> m4_has_syntax s ch code = true ->
  count_bearers s code all_chars = 1%nat <-> only_bearer s code ch.
Proof.
  intros Hch Hh. split.
  - intros Hc. split; [exact Hch|]. split; [exact Hh|].
    intros ch' Hch' Hh'.
    destruct (Z.eq_dec ch' ch) as [E|Hne]; [exact E|]. exfalso.
    revert Hc Hch Hh Hch' Hh' Hne. change 256 with (Z.of_nat all_chars).
    generalize all_chars as n. intros n. revert ch ch'.
    induction n as [|k IH]; intros ch ch' Hc Hch Hh Hch' Hh' Hne; [lia|].
    simpl in Hc.
    destruct (m4_has_syntax s (Z.of_nat k) code) eqn:E.
    + assert (count_bearers s code k = 0%nat) as H0 by lia.
      pose proof (count_bearers_none s code k H0) as Hnone.
      destruct (Z.eq_dec ch (Z.of_nat k)) as [->|N1].
      * rewrite Hnone in Hh' by lia. discriminate.
      * rewrite Hnone in Hh by lia. discriminate.
    + assert (ch <> Z.of_nat k) by congruence.
      assert (ch' <> Z.of_nat k) by congruence.
      apply (IH ch ch'); try assumption; lia.
  - intros (_ & _ & Huniq).
    destruct (count_bearers s code all_chars) as [|[|m]] eqn:E.
    + pose proof (count_bearers_none s code all_chars E ch) as K.
      change (Z.of_nat all_chars) with 256 in K. rewrite K in Hh by exact Hch.
      discriminate.
    + reflexivity.
    + destruct (count_bearers_two s code all_chars ltac:(lia))
        as (a & b & Ha & Hb & Hne & H1 & H2).
      change (Z.of_nat all_chars) with 256 in Ha, Hb.
      pose proof (Huniq a Ha H1). pose proof (Huniq b Hb H2). lia.
Qed.

Lemma scan_delims_S s c1 c2 k lq rq :
  scan_delims s c1 c2 (S k) lq rq
  = let ch := Z.of_nat k in
    if m4_has_syntax s ch c1 && negb (lq =? -1) then (lq, rq, false)
    else
      let lq' := if m4_has_syntax s ch c1 then ch else lq in
      if m4_has_syntax s ch c2 && negb (rq =? -1) then (lq', rq, false)
      else
        let rq' := if m4_has_syntax s ch c2 then ch else rq in
        scan_delims s c1 c2 k lq' rq'.
Proof. reflexivity. Qed.

(** The scan keeps the flag and finds both characters exactly when, with
    the characters already found, each code has one bearer. *)
Lemma scan_delims_count s c1 c2 n lq rq :
  let res := scan_delims s c1 c2 n lq rq in
  (snd res = true /\ fst (fst res) <> -1 /\ snd (fst res) <> -1)
  <-> ((count_bearers s c1 n + (if (lq =? -1)%Z then 0 else 1))%nat = 1%nat
       /\ (count_bearers s c2 n + (if (rq =? -1)%Z then 0 else 1))%nat
          = 1%nat).
Proof.
  cbv zeta. revert lq rq. induction n as [|k IH]; intros lq rq.
  - simpl. destruct (Z.eqb_spec lq (-1)), (Z.eqb_spec rq (-1));
      split; intros H; try lia; tauto.
  - rewrite scan_delims_S. cbv zeta. simpl count_bearers.
    destruct (m4_has_syntax s (Z.of_nat k) c1) eqn:E1.
    + destruct (Z.eqb_spec lq (-1)) as [->|Nl]; simpl.
      * destruct (m4_has_syntax s (Z.of_nat k) c2) eqn:E2.
        -- destruct (Z.eqb_spec rq (-1)) as [->|Nr]; simpl.
           ++ rewrite IH.
              destruct (Z.eqb_spec (Z.of_nat k) (-1)); [lia|].
              split; intros H; lia.
           ++ split; intros H; [destruct H; discriminate | lia].
        -- simpl. rewrite IH.
           destruct (Z.eqb_spec (Z.of_nat k) (-1)); [lia|].
           split; intros H; lia.
      * split; intros H; [destruct H; discriminate | lia].
    + simpl. destruct (m4_has_syntax s (Z.of_nat k) c2) eqn:E2.
      * destruct (Z.eqb_spec rq (-1)) as [->|Nr]; simpl.
        -- rewrite IH.
           destruct (Z.eqb_spec (Z.of_nat k) (-1)); [lia|].
           split; intros H; lia.
        -- split; intros H; [destruct H; discriminate | lia].
      * simpl. rewrite IH. split; intros H; lia.
Qed.

(** The body of a checker after its fast path, for both pairs of
    codes. *)
Lemma scan_delims_adopts s c1 c2 :
  let res := scan_delims s c1 c2 all_chars (-1) (-1) in
  (snd res = true /\ fst (fst res) <> -1 /\ snd (fst res) <> -1
   /\ only_bearer s c1 (fst (fst res)) /\ only_bearer s c2 (snd (fst res)))
  \/ ((snd res = false \/ fst (fst res) = -1 \/ snd (fst res) = -1)
      /\ ~ exists l r, only_bearer s c1 l /\ only_bearer s c2 r).
Proof.
  cbv zeta.
  pose proof (scan_delims_count s c1 c2 all_chars (-1) (-1)) as Hcount.
  pose proof (scan_delims_found s c1 c2 all_chars (-1) (-1) all_chars_le
                (or_introl eq_refl) (or_introl eq_refl)) as [Fl Fr].
  cbv zeta in Hcount. change (-1 =? -1) with true in Hcount.
  rewrite !Nat.add_0_r in Hcount.
  destruct (scan_delims s c1 c2 all_chars (-1) (-1)) as [[l r] kept].
  cbv beta iota delta [fst snd] in *.
  destruct kept.
  2: { right. split; [left; reflexivity|].
       intros (l' & r' & H1 & H2).
       assert (false = true) as K; [|discriminate K].
       apply Hcount. split.
       - apply (count_bearers_one s c1 l'); [apply H1 | apply H1 | exact H1].
       - apply (count_bearers_one s c2 r'); [apply H2 | apply H2 | exact H2]. }
  destruct (Z.eq_dec l (-1)) as [El|Nl].
  { right. split; [right; left; exact El|].
    intros (l' & r' & H1 & H2).
    assert (true = true /\ l <> -1 /\ r <> -1) as K; [|tauto].
    apply Hcount. split.
    - apply (count_bearers_one s c1 l'); [apply H1 | apply H1 | exact H1].
    - apply (count_bearers_one s c2 r'); [apply H2 | apply H2 | exact H2]. }
  destruct (Z.eq_dec r (-1)) as [Er|Nr].
  { right. split; [right; right; exact Er|].
    intros (l' & r' & H1 & H2).
    assert (true = true /\ l <> -1 /\ r <> -1) as K; [|tauto].
    apply Hcount. split.
    - apply (count_bearers_one s c1 l'); [apply H1 | apply H1 | exact H1].
    - apply (count_bearers_one s c2 r'); [apply H2 | apply H2 | exact H2]. }
  left. destruct Fl as [|[Rl Hl]]; [contradiction|].
  destruct Fr as [|[Rr Hr]]; [contradiction|].
  destruct (proj1 Hcount ltac:(tauto)) as [K1 K2].
  repeat split; try assumption; try lia.
  - apply (count_bearers_one s c1 l Rl Hl). exact K1.
  - apply (count_bearers_one s c2 r Rr Hr). exact K2.
Qed.

Lemma poke_single l v : strlen l = 1 -> poke l v = [v].
Proof.
  unfold strlen. destruct l as [|c [|]]; simpl; intros H; try lia.
  reflexivity.
Qed.

(** X17: [check_is_single_quotes] on a table whose quotes are single,
    with one byte each, but whose stored bytes no longer both carry their
    codes.  If exactly one character carries LQUOTE and exactly one
    carries RQUOTE, the stored quotes become these two characters and the
    flag stays set.  Otherwise the flag is cleared and the stored quotes
    stay.  Nothing else changes. *)
Theorem check_is_single_quotes_adopts s :
  is_single_quotes s = true ->
  len1 (quote s) = 1 -> len2 (quote s) = 1 ->
  strlen (str1 (quote s)) = 1 -> strlen (str2 (quote s)) = 1 ->
  m4_has_syntax s (deref (str1 (quote s))) M4_SYNTAX_LQUOTE
  && m4_has_syntax s (deref (str2 (quote s))) M4_SYNTAX_RQUOTE = false ->
  exists s',
    check_is_single_quotes s = Some s'
    /\ ((exists l r,
           only_bearer s M4_SYNTAX_LQUOTE l /\ only_bearer s M4_SYNTAX_RQUOTE r
           /\ s' = set_quote s (mk_pair [l] 1 [r] 1))
        \/ ((~ exists l r,
               only_bearer s M4_SYNTAX_LQUOTE l
               /\ only_bearer s M4_SYNTAX_RQUOTE r)
            /\ s' = set_is_single_quotes s false)).
Proof.
  intros Hflag L1 L2 S1 S2 Hfast. unfold check_is_single_quotes.
  rewrite Hflag, L1, L2, Hfast. simpl.
  destruct (scan_delims_adopts s M4_SYNTAX_LQUOTE M4_SYNTAX_RQUOTE)
    as [(K & Nl & Nr & B1 & B2) | (K & Hnone)];
    destruct (scan_delims s M4_SYNTAX_LQUOTE M4_SYNTAX_RQUOTE all_chars
                (-1) (-1)) as [[l r] kept];
    cbv beta iota delta [fst snd] in *.
  - subst kept.
    destruct (Z.eqb_spec l (-1)); [contradiction|].
    destruct (Z.eqb_spec r (-1)); [contradiction|]. simpl.
    rewrite Hflag. eexists. split; [reflexivity|]. left.
    exists l, r. split; [exact B1|]. split; [exact B2|].
    rewrite !poke_single by assumption. rewrite L1, L2. reflexivity.
  - assert (exists s',
      (if (l =? -1) || (r =? -1)
       then Some (set_is_single_quotes
                    (if kept then s else set_is_single_quotes s false) false)
       else
         if is_single_quotes
              (if kept then s else set_is_single_quotes s false)
         then Some (set_quote
                      (if kept then s else set_is_single_quotes s false)
                      (mk_pair
                         (poke (str1 (quote
                            (if kept then s
                             else set_is_single_quotes s false))) l)
                         (len1 (quote
                            (if kept then s
                             else set_is_single_quotes s false)))
                         (poke (str2 (quote
                            (if kept then s
                             else set_is_single_quotes s false))) r)
                         (len2 (quote
                            (if kept then s
                             else set_is_single_quotes s false)))))
         else Some (if kept then s else set_is_single_quotes s false))
      = Some s' /\ s' = set_is_single_quotes s false) as (s' & E & Es).
    { destruct K as [-> | [-> | ->]].
      - destruct ((l =? -1) || (r =? -1)); eexists; split; reflexivity.
      - simpl. destruct kept; eexists; split; reflexivity.
      - rewrite orb_true_r. destruct kept; eexists; split; reflexivity. }
    exists s'. split; [exact E|]. right. split; assumption.
Qed.

Lemma check_is_single_quotes_adopts_witness :
  exists s',
    check_is_single_quotes adopting_table = Some s'
    /\ ((exists l r,
           only_bearer adopting_table M4_SYNTAX_LQUOTE l
           /\ only_bearer adopting_table M4_SYNTAX_RQUOTE r
           /\ s' = set_quote adopting_table (mk_pair [l] 1 [r] 1))
        \/ ((~ exists l r,
               only_bearer adopting_table M4_SYNTAX_LQUOTE l
               /\ only_bearer adopting_table M4_SYNTAX_RQUOTE r)
            /\ s' = set_is_single_quotes adopting_table false)).
Proof.
  apply (check_is_single_quotes_adopts adopting_table); reflexivity.
Defined.

(** X18: [check_is_single_comments] on a table whose comments are single,
    with one byte each, but whose stored bytes no longer both carry their
    codes.  If exactly one character carries BCOMM and exactly one
    carries ECOMM, the stored comment delimiters become these two
    characters and the flag stays set.  Otherwise the flag is cleared and
    the stored delimiters stay.  Nothing else changes. *)
Theorem check_is_single_comments_adopts s :
  is_single_comments s = true ->
  len1 (comm s) = 1 -> len2 (comm s) = 1 ->
  strlen (str1 (comm s)) = 1 -> strlen (str2 (comm s)) = 1 ->
  m4_has_syntax s (deref (str1 (comm s))) M4_SYNTAX_BCOMM
  && m4_has_syntax s (deref (str2 (comm s))) M4_SYNTAX_ECOMM = false ->
  exists s',
    check_is_single_comments s = Some s'
    /\ ((exists l r,
           only_bearer s M4_SYNTAX_BCOMM l /\ only_bearer s M4_SYNTAX_ECOMM r
           /\ s' = set_comm s (mk_pair [l] 1 [r] 1))
        \/ ((~ exists l r,
               only_bearer s M4_SYNTAX_BCOMM l
               /\ only_bearer s M4_SYNTAX_ECOMM r)
            /\ s' = set_is_single_comments s false)).
Proof.
  intros Hflag L1 L2 S1 S2 Hfast. unfold check_is_single_comments.
  rewrite Hflag, L1, L2, Hfast. simpl.
  destruct (scan_delims_adopts s M4_SYNTAX_BCOMM M4_SYNTAX_ECOMM)
    as [(K & Nl & Nr & B1 & B2) | (K & Hnone)];
    destruct (scan_delims s M4_SYNTAX_BCOMM M4_SYNTAX_ECOMM all_chars
                (-1) (-1)) as [[l r] kept];
    cbv beta iota delta [fst snd] in *.
  - subst kept.
    destruct (Z.eqb_spec l (-1)); [contradiction|].
    destruct (Z.eqb_spec r (-1)); [contradiction|]. simpl.
    rewrite Hflag. eexists. split; [reflexivity|]. left.
    exists l, r. split; [exact B1|]. split; [exact B2|].
    rewrite !poke_single by assumption. rewrite L1, L2. reflexivity.
  - assert (exists s',
      (if (l =? -1) || (r =? -1)
       then Some (set_is_single_comments
                    (if kept then s else set_is_single_comments s false)
                    false)
       else
         if is_single_comments
              (if kept then s else set_is_single_comments s false)
         then Some (set_comm
                      (if kept then s else set_is_single_comments s false)
                      (mk_pair
                         (poke (str1 (comm
                            (if kept then s
                             else set_is_single_comments s false))) l)
                         (len1 (comm
                            (if kept then s
                             else set_is_single_comments s false)))
                         (poke (str2 (comm
                            (if kept then s
                             else set_is_single_comments s false))) r)
                         (len2 (comm
                            (if kept then s
                             else set_is_single_comments s false)))))
         else Some (if kept then s else set_is_single_comments s false))
      = Some s' /\ s' = set_is_single_comments s false) as (s' & E & Es).
    { destruct K as [-> | [-> | ->]].
      - destruct ((l =? -1) || (r =? -1)); eexists; split; reflexivity.
      - simpl. destruct kept; eexists; split; reflexivity.
      - rewrite orb_true_r. destruct kept; eexists; split; reflexivity. }
    exists s'. split; [exact E|]. right. split; assumption.
Qed.

Lemma check_is_single_comments_adopts_witness :
  exists s',
    check_is_single_comments adopting_table = Some s'
    /\ ((exists l r,
           only_bearer adopting_table M4_SYNTAX_BCOMM l
           /\ only_bearer adopting_table M4_SYNTAX_ECOMM r
           /\ s' = set_comm adopting_table (mk_pair [l] 1 [r] 1))
        \/ ((~ exists l r,
               only_bearer adopting_table M4_SYNTAX_BCOMM l
               /\ only_bearer adopting_table M4_SYNTAX_ECOMM r)
            /\ s' = set_is_single_comments adopting_table false)).
Proof.
  apply (check_is_single_comments_adopts adopting_table); reflexivity.
Defined.

(** X19: [check_is_macro_escaped] leaves the escape flag exact, on any
    table: the flag is set if and only if one of the 256 characters
    carries ESCAPE; nothing else changes. *)
Theorem check_is_macro_escaped_exact s :
  (m4_is_syntax_macro_escaped (check_is_macro_escaped s) = true
   <-> exists ch, 0 <= ch < 256
                  /\ m4_has_syntax s ch M4_SYNTAX_ESCAPE = true)
  /\ check_is_macro_escaped s
     = set_is_macro_escaped s
         (m4_is_syntax_macro_escaped (check_is_macro_escaped s)).
Proof.
  split; [|reflexivity].
  unfold m4_is_syntax_macro_escaped, check_is_macro_escaped. simpl.
  rewrite scan_escape_spec. change (Z.of_nat all_chars) with 256.
  split; intros H; exact H.
Qed.

(** ** Resets of all the categories *)

Lemma settled_reset c a n d e :
  In c all_codes -> valid_entry e = true -> In d basis_codes ->
  settled c a n d (reset_core c a n d e) = true.
Proof.
  intros Hc He Hd. revert e c d He Hc Hd.
  apply (valid_entry_forall3
           (fun e c d => settled c a n d (reset_core c a n d e))).
  destruct a, n; vm_compute; reflexivity.
Qed.

Lemma settled_kept c c' a n d e :
  In c all_codes -> In c' all_codes -> valid_entry e = true ->
  In d basis_codes ->
  settled c a n d e = true -> settled c a n d (reset_core c' a n d e) = true.
Proof.
  intros Hc Hc' He Hd H.
  pose proof (valid_entry_forall3
    (fun e c c' =>
       forallb (fun d => implb (settled c a n d e)
                           (settled c a n d (reset_core c' a n d e)))
         basis_codes)
    all_codes all_codes
    ltac:(destruct a, n; vm_compute; reflexivity) e c c' He Hc Hc') as K.
  cbv beta in K. rewrite forallb_forall in K. specialize (K d Hd).
  rewrite H in K. exact K.
Qed.

Lemma settled_all a n d e :
  valid_entry e = true -> In d basis_codes ->
  (forall c, In c all_codes -> settled c a n d e = true) ->
  e = default_entry a n d.
Proof.
  intros He Hd H.
  pose proof (valid_entry_forall2
    (fun e d => implb (forallb (fun c => settled c a n d e) all_codes)
                  (e =? default_entry a n d))
    basis_codes ltac:(destruct a, n; vm_compute; reflexivity) e d He Hd) as K.
  cbv beta in K.
  rewrite (proj2 (forallb_forall _ _) H) in K. apply Z.eqb_eq. exact K.
Qed.

Lemma fresh_entry ch :
  0 <= ch < 256 ->
  entry (table fresh) ch
  = default_entry (ch =? chr "'") (ch =? NL) (entry (orig fresh) ch).
Proof.
  intros H. apply Z.eqb_eq. revert ch H.
  apply (range_forall
           (fun ch => entry (table fresh) ch
                      =? default_entry (ch =? chr "'") (ch =? NL)
                           (entry (orig fresh) ch))).
  vm_compute. reflexivity.
Qed.

(** The table a reset verb leaves. *)
Lemma reset_op_table s key s' :
  well_formed s -> key <> NUL ->
  run_op (SetSyntax key NUL (Some [])) s = Some s' ->
  table s'
  = if m4_syntax_code key <? 0 then table s
    else sweep all_chars (reset_entry (orig fresh) (m4_syntax_code key))
           (table s).
Proof.
  intros Hwf Hk Hrun. simpl in Hrun.
  destruct (Z.ltb_spec (m4_syntax_code key) 0) as [Hc|Hc].
  { rewrite m4_set_syntax_unknown in Hrun by assumption.
    injection Hrun as <-. reflexivity. }
  rewrite m4_set_syntax_verb in Hrun by assumption.
  unfold verb_body in Hrun. change (NUL =? chr "+") with false in Hrun.
  change (NUL =? chr "-") with false in Hrun.
  change (NUL =? chr "=") with false in Hrun.
  change (NUL =? NUL) with true in Hrun. cbv iota in Hrun.
  destruct (reset_syntax_set s (m4_syntax_code key)) as [v|] eqn:Ev;
    [|discriminate].
  simpl in Hrun. injection Hrun as <-.
  destruct (finish_fields v false true) as (T & _). cbv zeta in T.
  rewrite T. rewrite reset_syntax_set_eq in Ev. cbv zeta in Ev.
  assert (well_formed
            (set_table s
               (sweep all_chars (reset_entry (orig s) (m4_syntax_code key))
                  (table s)))) as Hwx.
  { apply well_formed_sweep; [exact Hwf|].
    intros ch e He. rewrite (wf_orig _ Hwf).
    apply reset_entry_valid; [apply known_key_code; exact Hc | exact He]. }
  destruct (checked_table _ v Hwx Ev) as [Tv _].
  rewrite Tv. simpl. rewrite (wf_orig _ Hwf). reflexivity.
Qed.

Lemma reset_op_settled s key s' c ch :
  well_formed s -> key <> NUL ->
  run_op (SetSyntax key NUL (Some [])) s = Some s' ->
  0 <= ch < 256 ->
  (In c all_codes ->
   settled c (ch =? chr "'") (ch =? NL) (entry (orig fresh) ch)
     (entry (table s) ch) = true ->
   settled c (ch =? chr "'") (ch =? NL) (entry (orig fresh) ch)
     (entry (table s') ch) = true)
  /\ (0 <= m4_syntax_code key ->
      settled (m4_syntax_code key) (ch =? chr "'") (ch =? NL)
        (entry (orig fresh) ch) (entry (table s') ch) = true).
Proof.
  intros Hwf Hk Hrun Hch.
  rewrite (reset_op_table s key s' Hwf Hk Hrun).
  destruct (Z.ltb_spec (m4_syntax_code key) 0) as [Hc|Hc].
  { split; [intros _ H; exact H | lia]. }
  pose proof (known_key_code key Hc) as Hin.
  rewrite entry_sweep_all by (apply (wf_length _ Hwf) || exact Hch).
  unfold reset_entry. split.
  - intros Hc' H.
    apply settled_kept;
      [exact Hc' | exact Hin | apply entry_valid; exact Hwf
      | apply orig_entry_basis | exact H].
  - intros _. apply settled_reset;
      [exact Hin | apply entry_valid; exact Hwf | apply orig_entry_basis].
Qed.

Lemma reset_ops_settled keys :
  forall s,
    reachable s -> (forall key, In key keys -> key <> NUL) ->
    exists s',
      run_ops (reset_ops keys) s = Some s' /\ reachable s'
      /\ (forall c ch,
            In c all_codes -> 0 <= ch < 256 ->
            settled c (ch =? chr "'") (ch =? NL) (entry (orig fresh) ch)
              (entry (table s) ch) = true ->
            settled c (ch =? chr "'") (ch =? NL) (entry (orig fresh) ch)
              (entry (table s') ch) = true)
      /\ (forall key ch,
            In key keys -> 0 <= m4_syntax_code key -> 0 <= ch < 256 ->
            settled (m4_syntax_code key) (ch =? chr "'") (ch =? NL)
              (entry (orig fresh) ch) (entry (table s') ch) = true).
Proof.
  induction keys as [|key rest IH]; intros s Hr Hkeys.
  { exists s. split; [reflexivity|]. split; [exact Hr|].
    split; [intros c ch _ _ H; exact H | intros key ch []]. }
  pose proof (reachable_well_formed s Hr) as Hwf.
  assert (key <> NUL) as Hk by (apply Hkeys; left; reflexivity).
  assert (exists s1, run_op (SetSyntax key NUL (Some [])) s = Some s1)
    as (s1 & E1).
  { simpl. destruct (Z.ltb_spec (m4_syntax_code key) 0) as [Hc|Hc].
    - rewrite m4_set_syntax_unknown by assumption. eexists. reflexivity.
    - destruct (m4_set_syntax_verb_returns s key NUL [] Hwf Hk Hc eq_refl)
        as (v & _ & _ & _ & E).
      rewrite E. eexists. reflexivity. }
  assert (reachable s1) as Hr1.
  { exact (reachable_step s (SetSyntax key NUL (Some [])) s1 Hr eq_refl E1). }
  destruct (IH s1 Hr1 (fun k Hin => Hkeys k (or_intror Hin)))
    as (s' & E & Hr' & Hkeep & Hcov).
  exists s'. split.
  { change (reset_ops (key :: rest))
      with (SetSyntax key NUL (Some []) :: reset_ops rest).
    change (run_ops (SetSyntax key NUL (Some []) :: reset_ops rest) s)
      with (let? s' := run_op (SetSyntax key NUL (Some [])) s in
            run_ops (reset_ops rest) s').
    rewrite E1. exact E. }
  split; [exact Hr'|]. split.
  - intros c ch Hc Hch H. apply Hkeep; [exact Hc | exact Hch |].
    apply (proj1 (reset_op_settled s key s1 c ch Hwf Hk E1 Hch) Hc H).
  - intros k ch [<-|Hin] Hc Hch.
    + apply Hkeep; [apply known_key_code; exact Hc | exact Hch |].
      apply (proj2 (reset_op_settled s key s1 M4_SYNTAX_IGNORE ch Hwf Hk E1
                      Hch) Hc).
    + apply Hcov; assumption.
Qed.

Lemma table_ext (t t' : list Z) :
  length t = all_chars -> length t' = all_chars ->
  (forall ch, 0 <= ch < 256 -> entry t ch = entry t' ch) -> t = t'.
Proof.
  intros Hl Hl' H. apply list_eq. intros i.
  destruct (Nat.lt_ge_cases i all_chars) as [Hlt|Hge].
  - specialize (H (Z.of_nat i)). unfold entry in H.
    rewrite Nat2Z.id in H.
    destruct (lookup_lt_is_Some_2 t i ltac:(lia)) as [x Ex].
    destruct (lookup_lt_is_Some_2 t' i ltac:(lia)) as [y Ey].
    rewrite Ex, Ey in *. simpl in H. f_equal. apply H.
    change all_chars with 256%nat in Hlt. lia.
  - rewrite !(proj2 (lookup_ge_None _ _)) by lia. reflexivity.
Qed.

Lemma keys_cover keys :
  forallb (fun c => existsb (fun key => m4_syntax_code key =? c) keys)
    all_codes = true ->
  forall c, In c all_codes ->
    exists key, In key keys /\ m4_syntax_code key = c.
Proof.
  intros H c Hc. rewrite forallb_forall in H. specialize (H c Hc).
  apply existsb_exists in H as (key & Hin & E).
  exists key. split; [exact Hin | apply Z.eqb_eq; exact E].
Qed.

(** X20: resets of all the categories give the default table.  From a
    reachable table, reset verbs (the null action) for a list of keys
    other than NUL, in any order and with any repetition, all return; and
    when every category has a key in the list, the table that results is
    the table of a created one. *)
Theorem resets_of_all_categories_restore_table s s0 keys :
  reachable s -> m4_syntax_create = Some s0 ->
  (forall key, In key keys -> key <> NUL) ->
  (forall c, In c all_codes ->
     exists key, In key keys /\ m4_syntax_code key = c) ->
  exists s',
    run_ops (reset_ops keys) s = Some s' /\ table s' = table s0.
Proof.
  intros Hr Hs0 Hkeys Hall.
  rewrite m4_syntax_create_fresh in Hs0. injection Hs0 as <-.
  destruct (reset_ops_settled keys s Hr Hkeys) as (s' & E & Hr' & _ & Hcov).
  exists s'. split; [exact E|].
  pose proof (reachable_well_formed s' Hr') as Hwf'.
  apply table_ext; [apply (wf_length _ Hwf') | reflexivity |].
  intros ch Hch. rewrite (fresh_entry ch Hch).
  apply settled_all;
    [apply entry_valid; exact Hwf' | apply orig_entry_basis |].
  intros c Hc. destruct (Hall c Hc) as (key & Hin & <-).
  apply Hcov; [exact Hin | apply code_not_negative; exact Hc | exact Hch].
Qed.

Lemma resets_of_all_categories_restore_table_witness :
  exists s',
    run_ops (reset_ops (str ["I"; "@"; "W"; "L"; "B"; "O"; "D"; "$"; "{";
                             "}"; "S"; "A"; "("; ")"; ","; "R"; "E"]%char))
      bracket_table = Some s'
    /\ table s' = table fresh.
Proof.
  apply (resets_of_all_categories_restore_table bracket_table fresh
           (str ["I"; "@"; "W"; "L"; "B"; "O"; "D"; "$"; "{";
                 "}"; "S"; "A"; "("; ")"; ","; "R"; "E"]%char)).
  - apply reachable_bracket_table.
  - vm_compute. reflexivity.
  - intros key Hin. apply mem_In in Hin. intros ->.
    vm_compute in Hin. discriminate Hin.
  - apply keys_cover. vm_compute. reflexivity.
Defined.

(** ** The key mapping *)

(** X21: [m4_syntax_code] does not tell the case of a letter: a letter
    key and the same letter in the other case (the byte with bit 0x20
    flipped) have the same code, be it a category or -1. *)
Theorem syntax_code_ignores_case key :
  isalpha key = true ->
  m4_syntax_code (Z.lxor key 32) = m4_syntax_code key.
Proof.
  intros H.
  assert (0 <= key < 256) as Hr.
  { unfold isalpha in H. apply orb_true_iff in H as [H|H];
      apply andb_true_iff in H as [H1 H2];
      apply Z.leb_le in H1, H2; lia. }
  apply Z.eqb_eq.
  pose proof (range_forall
    (fun key => implb (isalpha key)
                  (m4_syntax_code (Z.lxor key 32) =? m4_syntax_code key))
    ltac:(vm_compute; reflexivity) key Hr) as K.
  cbv beta in K. rewrite H in K. exact K.
Qed.

Lemma syntax_code_ignores_case_witness :
  m4_syntax_code (Z.lxor (chr "w") 32) = m4_syntax_code (chr "w").
Proof.
  apply (syntax_code_ignores_case (chr "w")). reflexivity.
Defined.

(** ** The quote age is exact *)

Lemma quote_age_exact_recache s c l r :
  quote_age_exact s -> quote_age_exact (recache s c l r).
Proof.
  intros (age & Ha & Hq). exists age. split; [exact Ha|].
  rewrite (quotes_safe_frame s (recache s c l r)) by reflexivity.
  rewrite (pack_quote_age_frame s (recache s c l r)) by reflexivity.
  exact Hq.
Qed.

Lemma quote_age_exact_set_quote_age s r c :
  well_formed s -> quote_age_exact (set_quote_age s r c).
Proof.
  intros Hwf. exists (local_syntax_age s r c).
  split; [apply local_syntax_age_cases; apply (wf_age _ Hwf)|].
  destruct (set_quote_age_fields s r c) as (T & _ & Q & C & F & _).
  cbv zeta in T, Q, C, F.
  rewrite (quotes_safe_frame s (set_quote_age s r c)) by assumption.
  rewrite (pack_quote_age_frame s (set_quote_age s r c)) by assumption.
  rewrite set_quote_age_eq. reflexivity.
Qed.

Lemma reachable_quote_age_exact s : reachable s -> quote_age_exact s.
Proof.
  intros Hr. induction Hr as [s Hs | s op s' Hr IH Hop Hrun].
  - rewrite m4_syntax_create_fresh in Hs. injection Hs as <-.
    exists 0. split; [left; reflexivity | vm_compute; reflexivity].
  - pose proof (reachable_well_formed s Hr) as Hwf.
    destruct (run_op_cases s op s' Hwf Hop Hrun)
      as [(_ & c & l & r & ->) | (s1 & reset & c & l & r & W & _ & _ & ->)].
    + apply quote_age_exact_recache. exact IH.
    + apply quote_age_exact_recache.
      apply quote_age_exact_set_quote_age. exact W.
Qed.

Lemma quotes_safe_age s age age' :
  age < 0xffff -> age' < 0xffff -> quotes_safe s age = quotes_safe s age'.
Proof.
  intros H H'. unfold quotes_safe.
  destruct (Z.ltb_spec age 65535); [|lia].
  destruct (Z.ltb_spec age' 65535); [|lia]. reflexivity.
Qed.

Lemma pack_quote_age_not_zero s age :
  well_formed s -> 0 <= age -> quotes_safe s age = true ->
  pack_quote_age s age <> 0.
Proof.
  intros Hwf Ha Hs.
  destruct (quotes_safe_sound s age Hwf Hs) as (Hlt & Hsingle & _ & Hne & _).
  destruct (wf_single_quotes _ Hwf Hsingle) as [L1 L2].
  destruct (single_byte _ (wf_quote _ Hwf) L1 L2) as [B1 B2].
  rewrite pack_quote_age_eq by (assumption || lia).
  intros H. apply Z.lor_eq_0_iff in H as [H Hr].
  apply Z.lor_eq_0_iff in H as [_ Hl].
  apply Z.shiftl_eq_0_iff in Hl; [|lia]. congruence.
Qed.

(** X22: the quote age is exact.  In every reachable table the quote age
    is what the test of [set_quote_age] gives on the table as it is now,
    for the syntax age 0 or the stored one: the packed value when the
    test holds, and 0 when it fails.  So, while the stored syntax age is
    below 0xffff, the quote age is not zero whenever the test holds for
    the stored syntax age: no later change that keeps the quotes safe
    loses the fast path. *)
Theorem quote_age_is_exact s :
  reachable s ->
  (exists age,
     (age = 0 \/ age = syntax_age s)
     /\ quote_age s
        = if quotes_safe s age then pack_quote_age s age else 0)
  /\ (syntax_age s < 0xffff -> quotes_safe s (syntax_age s) = true ->
      quote_age s <> 0).
Proof.
  intros Hr. pose proof (reachable_well_formed s Hr) as Hwf.
  pose proof (reachable_quote_age_exact s Hr) as Hex.
  split; [exact Hex|].
  intros Hlt Hs. destruct Hex as (age & Ha & Hq).
  pose proof (wf_age _ Hwf) as Hrange.
  assert (0 <= age < 0xffff) as Hage by (destruct Ha; subst; lia).
  rewrite (quotes_safe_age s age (syntax_age s)) in Hq by lia.
  rewrite Hs in Hq. rewrite Hq.
  apply pack_quote_age_not_zero; [exact Hwf | lia |].
  rewrite (quotes_safe_age s age (syntax_age s)) by lia. exact Hs.
Qed.

Lemma quote_age_is_exact_witness :
  (exists age,
     (age = 0 \/ age = syntax_age bracket_table)
     /\ quote_age bracket_table
        = if quotes_safe bracket_table age
          then pack_quote_age bracket_table age else 0)
  /\ (syntax_age bracket_table < 0xffff ->
      quotes_safe bracket_table (syntax_age bracket_table) = true ->
      quote_age bracket_table <> 0).
Proof.
  apply (quote_age_is_exact bracket_table).
  apply reachable_bracket_table.
Defined.

(** ** The quotes can take the comment starter *)

Lemma bcomm_not_blocked e :
  valid_entry e = true -> has_bits e M4_SYNTAX_BCOMM = true ->
  has_bits e lquote_blockers = false.
Proof.
  intros He H.
  pose proof (valid_entry_forall
    (fun e => implb (has_bits e M4_SYNTAX_BCOMM)
                (negb (has_bits e lquote_blockers)))
    ltac:(vm_compute; reflexivity) e He) as K.
  cbv beta in K. rewrite H in K. apply negb_true_iff. exact K.
Qed.

(** X23: [m4_set_quotes] does not check the comment flag.  On a reachable
    table with single comments whose begin-comment byte carries BCOMM,
    making that byte the left quote (with a one-byte right quote) returns
    with the byte carrying LQUOTE and no longer BCOMM, while the stored
    comment delimiters and [is_single_comments] stay as they were. *)
Theorem set_quotes_takes_comment_starter s r :
  reachable s -> m4_is_syntax_single_comments s = true ->
  m4_has_syntax s (deref (m4_get_syntax_bcomm s)) M4_SYNTAX_BCOMM = true ->
  c_string r = true -> strlen r = 1 ->
  m4_get_syntax_lquote s <> [deref (m4_get_syntax_bcomm s)] ->
  exists s',
    m4_set_quotes s (Some [deref (m4_get_syntax_bcomm s)]) (Some r) = Some s'
    /\ m4_is_syntax_single_comments s' = true
    /\ m4_get_syntax_comments s' = m4_get_syntax_comments s
    /\ m4_has_syntax s' (deref (m4_get_syntax_bcomm s')) M4_SYNTAX_BCOMM
       = false
    /\ m4_has_syntax s' (deref (m4_get_syntax_bcomm s')) M4_SYNTAX_LQUOTE
       = true.
Proof.
  unfold m4_is_syntax_single_comments, m4_get_syntax_bcomm,
    m4_get_syntax_lquote, m4_get_syntax_comments.
  intros Hr Hflag Hhas Hs Hlen Hne.
  pose proof (reachable_well_formed s Hr) as Hwf.
  pose proof (reachable_strings_ok s Hr) as Hok.
  destruct (wf_single_comments _ Hwf Hflag) as [L1 _].
  destruct (wf_comm _ Hwf) as (S1 & _).
  assert (strlen (str1 (comm s)) = 1) as Hb1 by congruence.
  destruct (c_string_single _ (so_bcomm _ Hok) Hb1) as [Rb Eb].
  set (b := deref (str1 (comm s))) in *.
  assert (c_string [b] = true) as Hcb by (rewrite <- Eb; apply (so_bcomm _ Hok)).
  rewrite m4_set_quotes_eq by apply (wf_length _ Hwf).
  rewrite quote_args_stored
    by (assumption || (intros _ ->; discriminate Hlen)).
  cbv beta iota delta [fst snd].
  assert (streq (str1 (quote s)) [b] = false) as ->.
  { unfold streq. apply bool_decide_eq_false_2. exact Hne. }
  simpl andb. cbv iota. eexists. split; [reflexivity|].
  destruct (set_quote_age_fields (install_quotes s [b] r) false false)
    as (T & _ & _ & C & _ & F & _).
  destruct (install_quotes_fields s [b] r) as (_ & C1 & _ & F1 & T1).
  cbv zeta in T, C, F, C1, F1, T1.
  rewrite C, F, C1, F1. fold b.
  split; [exact Hflag|]. split; [reflexivity|].
  assert (0 <= b < 256) as Rb' by lia.
  destruct (c_string_single r Hs Hlen) as [Rr _].
  assert (has_bits
            (entry (table (set_quote_age (install_quotes s [b] r) false false))
               b) M4_SYNTAX_LQUOTE = true) as HL.
  { rewrite T, T1. rewrite Hlen.
    change (strlen [b]) with 1. change (deref [b]) with b.
    rewrite m4_has_syntax_entry by exact Rb'.
    rewrite bcomm_not_blocked;
      [| apply entry_valid; exact Hwf
       | rewrite <- m4_has_syntax_entry by exact Rb'; exact Hhas].
    simpl. rewrite !to_uchar_small by lia.
    pose proof (delimited_table M4_SYNTAX_LQUOTE M4_SYNTAX_RQUOTE
                  (sweep all_chars (unquote_entry (orig s)) (table s)) true
                  b (deref r) b) as K.
    cbv zeta in K. rewrite Z.eqb_refl in K. apply K; try lia.
    - left. split; reflexivity.
    - rewrite length_sweep. apply (wf_length _ Hwf).
    - apply sweep_undelimited; [exact Hwf | left; split; reflexivity |].
      intros c e. rewrite (wf_orig _ Hwf). reflexivity. }
  rewrite !m4_has_syntax_entry by exact Rb'.
  split; [|exact HL].
  assert (well_formed (set_quote_age (install_quotes s [b] r) false false))
    as Hwf'.
  { apply well_formed_set_quote_age. apply well_formed_install_quotes;
      [exact Hwf | apply c_string_bytes; exact Hcb
      | apply c_string_bytes; exact Hs]. }
  destruct (has_bits (entry (table (set_quote_age (install_quotes s [b] r)
                                      false false)) b) M4_SYNTAX_BCOMM)
    eqn:HB; [|reflexivity].
  pose proof (valid_entry_one_basis _ M4_SYNTAX_LQUOTE M4_SYNTAX_BCOMM
                (entry_valid _ b Hwf')
                ltac:(apply mem_In; reflexivity)
                ltac:(apply mem_In; reflexivity) HL HB) as K.
  discriminate K.
Qed.

Lemma set_quotes_takes_comment_starter_witness :
  exists s',
    m4_set_quotes bracket_table
      (Some [deref (m4_get_syntax_bcomm bracket_table)])
      (Some (str ["]"%char])) = Some s'
    /\ m4_is_syntax_single_comments s' = true
    /\ m4_get_syntax_comments s' = m4_get_syntax_comments bracket_table
    /\ m4_has_syntax s' (deref (m4_get_syntax_bcomm s')) M4_SYNTAX_BCOMM
       = false
    /\ m4_has_syntax s' (deref (m4_get_syntax_bcomm s')) M4_SYNTAX_LQUOTE
       = true.
Proof.
  apply (set_quotes_takes_comment_starter bracket_table (str ["]"%char])).
  - apply reachable_bracket_table.
  - reflexivity.
  - reflexivity.
  - reflexivity.
  - reflexivity.
  - discriminate.
Defined.

(** * The quote age and the age it packs *)

Lemma quote_age_of_set_quote_age s r c :
  well_formed s ->
  quote_age_of (set_quote_age s r c) (local_syntax_age s r c).
Proof.
  intros Hwf Hq.
  pose proof (local_syntax_age_range s r c (wf_age _ Hwf)) as Hr.
  rewrite set_quote_age_eq in Hq |- *. simpl in Hq.
  destruct (quotes_safe s (local_syntax_age s r c)) eqn:Hs; [|contradiction].
  pose proof (quotes_safe_sound s _ Hwf Hs) as Hsafe.
  split.
  { eapply quote_age_safe_frame; [.. | exact Hsafe]; reflexivity. }
  simpl. destruct Hsafe as (Hlt & Hsingle & _).
  destruct (wf_single_quotes _ Hwf Hsingle) as [L1 L2].
  destruct (single_byte _ (wf_quote _ Hwf) L1 L2) as [B1 B2].
  rewrite (pack_quote_age_eq s) by (try exact B1; try exact B2; lia).
  reflexivity.
Qed.

Lemma quote_age_of_recache s c l r age :
  quote_age_of s age -> quote_age_of (recache s c l r) age.
Proof.
  intros H Hq. destruct (H Hq) as [Hsafe Hpack]. split; [|exact Hpack].
  eapply quote_age_safe_frame; [.. | exact Hsafe]; reflexivity.
Qed.

(** The fields that the quote age speaks of, kept by an operation that
    does not reach [set_quote_age]. *)
Lemma recache_keeps s c l r :
  quote_age (recache s c l r) = quote_age s
  /\ syntax_age (recache s c l r) = syntax_age s
  /\ table (recache s c l r) = table s
  /\ quote (recache s c l r) = quote s
  /\ comm (recache s c l r) = comm s
  /\ is_single_quotes (recache s c l r) = is_single_quotes s.
Proof. repeat split; reflexivity. Qed.

Lemma run_op_age_used s op s' :
  reachable s -> well_formed_op op = true -> run_op op s = Some s' ->
  if reaches_set_quote_age op s
  then quote_age_of s' (age_used op s')
  else quote_age s' = quote_age s /\ syntax_age s' = syntax_age s
       /\ table s' = table s /\ quote s' = quote s /\ comm s' = comm s
       /\ is_single_quotes s' = is_single_quotes s.
Proof.
  intros Hr Hop Hrun. pose proof (reachable_well_formed s Hr) as Hwf.
  destruct op as [key action chars | lq rq | bc ec | obs age q];
    simpl in Hop, Hrun; unfold reaches_set_quote_age, age_used.
  - destruct (Z.eqb_spec key NUL) as [->|Hk].
    { rewrite m4_set_syntax_reset in Hrun. injection Hrun as <-. simpl orb.
      cbv iota.
      apply (quote_age_of_set_quote_age (restore_defaults s) true false).
      apply well_formed_restore_defaults. exact Hwf. }
    destruct chars as [chars|].
    2: { unfold m4_set_syntax in Hrun. simpl in Hrun.
         destruct (Z.eqb_spec key NUL); [contradiction|]. discriminate. }
    simpl orb. destruct (Z.leb_spec 0 (m4_syntax_code key)) as [Hc|Hc].
    2: { rewrite m4_set_syntax_unknown in Hrun by assumption.
         injection Hrun as <-. repeat split; reflexivity. }
    rewrite m4_set_syntax_verb in Hrun by assumption.
    destruct (verb_body s action chars (m4_syntax_code key)) as [v|] eqn:Hv;
      [|discriminate].
    injection Hrun as <-.
    destruct (well_formed_verb_body s action chars _ Hwf
                (known_key_code key Hc)
                (verb_body_valid_action _ _ _ _ _ Hv)) as (v' & E & W & _).
    rewrite Hv in E. injection E as <-.
    unfold m4__quote_uncache. rewrite recache_quote.
    apply quote_age_of_recache.
    change (syntax_age (recache (set_quote_age v false true) None
                          (cached_lquote (set_quote_age v false true))
                          (cached_rquote (set_quote_age v false true))))
      with (syntax_age (set_quote_age v false true)).
    rewrite syntax_age_set_quote_age.
    apply quote_age_of_set_quote_age. exact W.
  - apply andb_true_iff in Hop as [Hl Hq].
    rewrite m4_set_quotes_eq in Hrun by apply (wf_length _ Hwf).
    destruct (streq _ _ && streq _ _).
    { injection Hrun as <-. repeat split; reflexivity. }
    injection Hrun as <-. simpl negb. cbv iota.
    destruct (quote_args_bytes lq rq Hl Hq) as [B1 B2].
    rewrite syntax_age_set_quote_age.
    apply quote_age_of_set_quote_age.
    apply well_formed_install_quotes; assumption.
  - apply andb_true_iff in Hop as [Hl Hq].
    rewrite m4_set_comment_eq in Hrun by apply (wf_length _ Hwf).
    destruct (streq _ _ && streq _ _).
    { injection Hrun as <-. repeat split; reflexivity. }
    injection Hrun as <-. simpl negb. cbv iota.
    destruct (comment_args_bytes bc ec Hl Hq) as [B1 B2].
    rewrite syntax_age_set_quote_age.
    apply quote_age_of_set_quote_age.
    apply well_formed_install_comment; assumption.
  - destruct (m4__quote_cache s obs age q) as [[[s1 o1] r1]|] eqn:E;
      [|discriminate].
    injection Hrun as <-.
    destruct (m4__quote_cache_recache _ _ _ _ _ _ _ E) as (c & l & r & ->).
    apply recache_keeps.
Qed.

(** C1, as stated, fails when the syntax age is read as the stored
    counter: the full reset packs the age 0 and leaves the counter.
    After one verb and a full reset the counter is 1 and the quote age is
    not zero, but its upper 16 bits are 0: it is not
    [(syntax_age << 16) | (left_byte << 8) | right_byte]. *)
Lemma quote_age_stored_counter_counterexample :
  exists s,
    run_ops [add_escape; SetSyntax NUL NUL None] fresh = Some s
    /\ reachable s
    /\ syntax_age s = 1
    /\ quote_age s <> 0
    /\ Z.shiftr (quote_age s) 16 = 0
    /\ quote_age s
       <> Z.lor (Z.lor (Z.shiftl (syntax_age s) 16)
                       (Z.shiftl (left_quote_byte s) 8))
                (right_quote_byte s).
Proof.
  destruct (run_ops [add_escape; SetSyntax NUL NUL None] fresh) as [s|] eqn:E;
    [|vm_compute in E; discriminate].
  exists s. split; [reflexivity|].
  split.
  { apply (run_ops_reachable [add_escape; SetSyntax NUL NUL None] fresh);
      [apply reachable_fresh | reflexivity | exact E]. }
  vm_compute in E. injection E as <-.
  split; [reflexivity|]. split; [vm_compute; discriminate|].
  split; [reflexivity | vm_compute; discriminate].
Qed.

(** C1, amended: the syntax age that a non-zero quote age packs is the
    local one of the last call of [set_quote_age], which the upper 16
    bits of the quote age hold.  After creation it is 0.  After an
    operation that reaches [set_quote_age] it is 0 for the full reset
    (the null key) and otherwise the stored counter as the operation
    leaves it (a verb has incremented it, saturating at 0xffff;
    [m4_set_quotes] and [m4_set_comment] keep it); an operation that does
    not reach [set_quote_age] (an unknown key, delimiters that do not
    change, the quote cache) keeps the quote age, the counter, the table,
    the delimiters and the flag.  So in every reachable table a non-zero
    quote age is [(age << 16) | (left_byte << 8) | right_byte] for the
    age in its upper 16 bits, which is 0 or the stored counter, and the
    six safety predicates hold for that age: it is below 0xffff; the
    quotes are single; neither quote byte carries ALPHA, NUM, OPEN,
    COMMA, CLOSE or SPACE; the two quote bytes differ; the begin-comment
    string is empty, or its first byte differs from the right quote and
    carries none of OPEN, COMMA, CLOSE; the comma carries COMMA. *)
Theorem quote_age_nonzero_is_safe :
  (forall s, m4_syntax_create = Some s -> quote_age_of s 0)
  /\ (forall s op s',
        reachable s -> well_formed_op op = true -> run_op op s = Some s' ->
        syntax_age s'
        = (if is_verb op then Z.min (syntax_age s + 1) 0xffff
           else syntax_age s)
        /\ if reaches_set_quote_age op s
           then quote_age_of s' (age_used op s')
           else quote_age s' = quote_age s /\ syntax_age s' = syntax_age s
                /\ table s' = table s /\ quote s' = quote s
                /\ comm s' = comm s
                /\ is_single_quotes s' = is_single_quotes s)
  /\ (forall s,
        reachable s -> quote_age s <> 0 ->
        (Z.shiftr (quote_age s) 16 = 0
         \/ Z.shiftr (quote_age s) 16 = syntax_age s)
        /\ Z.shiftr (quote_age s) 16 < 0xffff
        /\ is_single_quotes s = true
        /\ (forall c,
              In c [M4_SYNTAX_ALPHA; M4_SYNTAX_NUM; M4_SYNTAX_OPEN;
                    M4_SYNTAX_COMMA; M4_SYNTAX_CLOSE; M4_SYNTAX_SPACE] ->
              m4_has_syntax s (left_quote_byte s) c = false
              /\ m4_has_syntax s (right_quote_byte s) c = false)
        /\ left_quote_byte s <> right_quote_byte s
        /\ (str1 (comm s) = []
            \/ (begin_comment_byte s <> right_quote_byte s
                /\ forall c,
                     In c [M4_SYNTAX_OPEN; M4_SYNTAX_COMMA; M4_SYNTAX_CLOSE] ->
                     m4_has_syntax s (begin_comment_byte s) c = false))
        /\ m4_has_syntax s (chr ",") M4_SYNTAX_COMMA = true
        /\ quote_age s
           = Z.lor (Z.lor (Z.shiftl (Z.shiftr (quote_age s) 16) 16)
                          (Z.shiftl (left_quote_byte s) 8))
                   (right_quote_byte s)).
Proof.
  split; [|split].
  - intros s Hs. rewrite m4_syntax_create_fresh in Hs. injection Hs as <-.
    intros _. split; [|reflexivity].
    apply quotes_safe_sound; [apply well_formed_fresh | reflexivity].
  - intros s op s' Hr Hop Hrun. split.
    + apply run_op_syntax_age;
        [apply reachable_well_formed; exact Hr | exact Hop | exact Hrun].
    + apply run_op_age_used; assumption.
  - intros s Hr Hq. pose proof (reachable_well_formed s Hr) as Hwf.
    destruct (reachable_quote_age_invariant s Hr Hq)
      as (age & Hage & Hcase & Hsafe & Hpack).
    assert (Z.shiftr (quote_age s) 16 = age) as Hup.
    { destruct Hsafe as (_ & Hsingle & _).
      destruct (wf_single_quotes _ Hwf Hsingle) as [L1 L2].
      destruct (single_byte _ (wf_quote _ Hwf) L1 L2) as [B1 B2].
      rewrite Hpack. apply upper_bits_pack; assumption. }
    rewrite Hup. split; [exact Hcase|].
    unfold quote_age_safe in Hsafe.
    destruct Hsafe as (H1 & H2 & H3 & H4 & H5 & H6).
    repeat (split; [assumption|]). exact Hpack.
Qed.

Lemma quote_age_nonzero_is_safe_witness :
  syntax_age bracket_table = syntax_age escaped_table
  /\ (quote_age bracket_table <> 0 ->
      quote_age_safe bracket_table (syntax_age bracket_table)
      /\ quote_age bracket_table
         = Z.lor (Z.lor (Z.shiftl (syntax_age bracket_table) 16)
                        (Z.shiftl (left_quote_byte bracket_table) 8))
                 (right_quote_byte bracket_table)).
Proof.
  apply (proj1 (proj2 quote_age_nonzero_is_safe) escaped_table
           (SetQuotes (Some (str ["["%char])) (Some (str ["]"%char])))
           bracket_table).
  - apply (run_ops_reachable [add_escape] fresh);
      [apply reachable_fresh | reflexivity | vm_compute; reflexivity].
  - reflexivity.
  - vm_compute. reflexivity.
Defined.

(** * The reset verb and its checkers *)







